(** * Campaign Insight Accelerator: the dataset aggregator of
      [src/lib/dataLoader.ts], embedded and verified

    The development follows the TypeScript module function by function.

    - JS numbers are IEEE binary64 values.  A finite one is the rational it
      denotes; every arithmetic operation rounds its exact result with
      [Binary64.round64] (round to nearest, ties to even, 53-bit significand,
      gradual underflow) and overflows to an infinity when the rounded
      magnitude reaches 2^1024 ([rounded]).  The sign of zero is not
      modelled.
    - [new Date(s).getTime()] is a parameter ([DateParser]): [None] stands for
      the [NaN] time value of an invalid date.  [iso_dates] is a concrete
      parser for ISO-8601 strings, used for the worked examples.  The local
      time zone is UTC.
    - A JS object used as a dictionary is the association list of its own
      properties in creation order.  [Object.values] and [Object.entries]
      enumerate the keys that are array indices first, in numeric order, then
      the others in creation order ([obj_entries]).  Reading [o[k]] finds the
      own property, or else what every object inherits from
      [Object.prototype] ([obj_read]): for a name such as [constructor] the
      source's test [!o[k]] is false although [o] has no such entry.
      [Object.prototype] is the pristine one of a freshly loaded page.
    - [Array.prototype.sort] is stable, and its result is fixed by the
      language only when the comparator is consistent; with a comparator that
      yields [NaN] for some pair (an unparsable date) the order is left to the
      engine.  [Array_sort] is the stable sort; what is stated about the order
      of a sorted array is stated for consistent comparators.
    - The module-level [dataCache] and the stream of future [Math.random()]
      outcomes form the state [World]; every exported function is a
      computation in the state monad [M].
    - A JSON body that parses has the TypeScript type the loader declares for
      it; of each record the fields the aggregator reads are kept. *)

From Stdlib Require Import List String Ascii ZArith QArith Qround Qabs Qpower.
From Stdlib Require Import Lia Lqa Bool Arith PeanoNat Permutation Sorted Floats.
Import ListNotations.

Local Open Scope Z_scope.

(* ================================================================== *)
(** * Part I: definitions                                               *)
(* ================================================================== *)

(** ** Binary64 rounding on the rationals *)

Module Binary64.

Local Open Scope Q_scope.

Definition pow2 (e : Z) : Q := 2 ^ e.

(** [ilog2 x] is the floor of the base-2 logarithm of a positive [x]. *)
Definition ilog2 (x : Q) : Z :=
  let d := (Z.log2 (Qnum x) - Z.log2 (Zpos (Qden x)))%Z in
  if Qle_bool (pow2 d) x then d else (d - 1)%Z.

(** Nearest integer, ties to the even one. *)
Definition rne (q : Q) : Z :=
  let n := Qnum q in
  let d := Zpos (Qden q) in
  let f := (n / d)%Z in
  match (2 * (n mod d) ?= d)%Z with
  | Lt => f
  | Gt => (f + 1)%Z
  | Eq => if Z.even f then f else (f + 1)%Z
  end.

(** [z] is an integer nearest to [q], and the even one when [q] lies half-way
    between two integers. *)
Definition nearest_even (q : Q) (z : Z) : Prop :=
  inject_Z z - (1 # 2) <= q /\ q <= inject_Z z + (1 # 2) /\
  (q == inject_Z z - (1 # 2) \/ q == inject_Z z + (1 # 2) -> Z.even z = true).

(** Exponent of the unit in the last place of [x]: 53 significant bits,
    bounded below by the subnormal exponent. *)
Definition exponent (x : Q) : Z := Z.max (ilog2 (Qabs x) - 52) (-1074).

Definition round64 (x : Q) : Q :=
  match x ?= 0 with
  | Eq => 0
  | _ => let e := exponent x in Qred (inject_Z (rne (x / pow2 e)) * pow2 e)
  end.

(** The rational denoted by a primitive (hardware) binary64 float, for
    cross-checking [round64] against the kernel's float arithmetic. *)
Definition Q_of_float (f : float) : option Q :=
  match Prim2SF f with
  | S754_zero _ => Some 0
  | S754_finite s m e =>
      Some (Qred ((if s then -1 else 1) * inject_Z (Zpos m) * pow2 e))
  | _ => None
  end.

End Binary64.

(** ** JS numbers *)

Inductive number : Type :=
| Fin (q : Q)
| PInf
| NInf
| NaN.

Definition of_Z (z : Z) : number := Fin (inject_Z z).
Definition of_nat (n : nat) : number := of_Z (Z.of_nat n).

(** Sign of a number that is not [NaN]. *)
Definition nsign (a : number) : comparison :=
  match a with
  | Fin q => (q ?= 0)%Q
  | PInf => Gt
  | NInf => Lt
  | NaN => Eq
  end.

Definition signed_inf (s : comparison) : number :=
  match s with Gt => PInf | Lt => NInf | Eq => NaN end.

Definition sign_mul (s t : comparison) : comparison :=
  match s, t with
  | Eq, _ | _, Eq => Eq
  | Gt, Gt | Lt, Lt => Gt
  | _, _ => Lt
  end.

(** The binary64 value of an exact result [x]: [x] rounded, or the infinity
    of its sign when the rounded magnitude is no longer finite (2^1024 and
    beyond; the largest finite magnitude is 2^1024 - 2^971). *)
Definition rounded (x : Q) : number :=
  let r := Binary64.round64 x in
  if Qle_bool (Binary64.pow2 1024) (Qabs r) then signed_inf (r ?= 0)%Q else Fin r.

(** [a + b] *)
Definition nadd (a b : number) : number :=
  match a, b with
  | Fin x, Fin y => rounded (x + y)
  | NaN, _ | _, NaN => NaN
  | PInf, NInf | NInf, PInf => NaN
  | PInf, _ | _, PInf => PInf
  | NInf, _ | _, NInf => NInf
  end.

(** [a * b] *)
Definition nmul (a b : number) : number :=
  match a, b with
  | Fin x, Fin y => rounded (x * y)
  | NaN, _ | _, NaN => NaN
  | _, _ => signed_inf (sign_mul (nsign a) (nsign b))
  end.

(** [a / b]: a zero divisor gives [NaN] (for [0 / 0]) or an infinity. *)
Definition ndiv (a b : number) : number :=
  match a, b with
  | Fin x, Fin y =>
      if Qeq_bool y 0 then signed_inf (x ?= 0)%Q
      else rounded (x / y)
  | NaN, _ | _, NaN => NaN
  | Fin _, _ => Fin 0
  | _, Fin y => signed_inf (sign_mul (nsign a) (if Qeq_bool y 0 then Gt else (y ?= 0)%Q))
  | _, _ => NaN
  end.

(** [a > b]; false when either side is [NaN]. *)
Definition ngt (a b : number) : bool :=
  match a, b with
  | NaN, _ | _, NaN => false
  | Fin x, Fin y => negb (Qle_bool x y)
  | PInf, PInf | NInf, NInf => false
  | PInf, _ | _, NInf => true
  | _, _ => false
  end.


(** [Math.round(a)]: the integer nearest to [a], ties towards +infinity. *)
Definition Math_round (a : number) : number :=
  match a with
  | Fin q => of_Z (Qfloor (q + (1 # 2)))
  | _ => a
  end.

(** ** Strings *)

Local Open Scope string_scope.
Local Open Scope Z_scope.

Definition is_digit (c : ascii) : bool :=
  let n := nat_of_ascii c in (48 <=? n)%nat && (n <=? 57)%nat.

Definition digit_value (c : ascii) : Z := Z.of_nat (nat_of_ascii c - 48).

Fixpoint uint_chars (u : Decimal.uint) : list ascii :=
  match u with
  | Decimal.Nil => []
  | Decimal.D0 u => "0"%char :: uint_chars u
  | Decimal.D1 u => "1"%char :: uint_chars u
  | Decimal.D2 u => "2"%char :: uint_chars u
  | Decimal.D3 u => "3"%char :: uint_chars u
  | Decimal.D4 u => "4"%char :: uint_chars u
  | Decimal.D5 u => "5"%char :: uint_chars u
  | Decimal.D6 u => "6"%char :: uint_chars u
  | Decimal.D7 u => "7"%char :: uint_chars u
  | Decimal.D8 u => "8"%char :: uint_chars u
  | Decimal.D9 u => "9"%char :: uint_chars u
  end.

(** Decimal digits of a non-negative integer, most significant first. *)
Definition decimal_digits (n : Z) : list ascii := uint_chars (N.to_uint (Z.to_N n)).

(** Value of a run of decimal digits; [None] if some character is not one. *)
Fixpoint digits_value (acc : Z) (cs : list ascii) : option Z :=
  match cs with
  | [] => Some acc
  | c :: cs' => if is_digit c then digits_value (10 * acc + digit_value c) cs' else None
  end.

(** The characters before the first [sep], and those after it. *)
Fixpoint split_at (sep : ascii) (cs : list ascii) : list ascii * option (list ascii) :=
  match cs with
  | [] => ([], None)
  | c :: cs' =>
      if Ascii.eqb c sep then ([], Some cs')
      else let (a, b) := split_at sep cs' in (c :: a, b)
  end.

(** [n] of [x.toFixed(d)]: the integer for which [n / 10^d - |x|] is closest
    to zero, the larger one on a tie. *)
Definition fixed_digits (q : Q) (d : nat) : Z :=
  Qfloor (Qabs q * inject_Z (10 ^ Z.of_nat d) + (1 # 2))%Q.

(** [s * 10^e] reads back as [x]: [x] is the double nearest to it. *)
Definition reads_back (x : Q) (s e : Z) : bool :=
  Qeq_bool (Binary64.round64 (inject_Z s * 10 ^ e)) x.

(** The [k]-digit decimals next to [x], where [n0] is the number of digits of
    the integer part of [x]: the one that reads back as [x], the closer one
    (the even one on a tie) when both do.  The result is the pair [(s, n)] of
    [Number::toString]: the [k] digits [s] and the position [n] of the point. *)
Definition shortest_candidate (x : Q) (n0 k : Z) : option (Z * Z) :=
  let e := n0 - k in
  let lo := Qfloor (x / 10 ^ e)%Q in
  let hi := lo + 1 in
  let pick :=
    match reads_back x lo e, reads_back x hi e with
    | true, true =>
        match (x - inject_Z lo * 10 ^ e ?= inject_Z hi * 10 ^ e - x)%Q with
        | Lt => Some lo
        | Gt => Some hi
        | Eq => Some (if Z.even lo then lo else hi)
        end
    | true, false => Some lo
    | false, true => Some hi
    | false, false => None
    end in
  match pick with
  | Some s => Some (if s =? 10 ^ k then (10 ^ (k - 1), n0 + 1) else (s, n0))
  | None => None
  end.

(** The shortest decimal that reads back as [x], tried from [k] digits on;
    seventeen digits identify every double. *)
Fixpoint shortest_digits (x : Q) (n0 k : Z) (more : nat) : Z * Z :=
  match shortest_candidate x n0 k, more with
  | Some r, _ => r
  | None, S more' => shortest_digits x n0 (k + 1) more'
  | None, O => (Qfloor (x / 10 ^ (n0 - k))%Q, n0)
  end.

(** [Number::toString] of a finite [x >= 1e21]: the digits, a point after the
    first of them when there are more, and the exponent. *)
Definition exponential (x : Q) : list ascii :=
  let n0 := Z.of_nat (List.length (decimal_digits (Qfloor x))) in
  let '(s, n) := shortest_digits x n0 1 16 in
  match decimal_digits s with
  | [] => []
  | d :: ds =>
      (d :: match ds with [] => [] | _ :: _ => "."%char :: ds end
         ++ "e"%char :: "+"%char :: decimal_digits (n - 1))%list
  end.

(** [a.toFixed(d)]: fixed-point digits below 1e21, and the exponential
    [ToString] of the number from there on. *)
Definition toFixed (a : number) (d : nat) : string :=
  match a with
  | Fin q =>
      let sign := match (q ?= 0)%Q with Lt => ["-"%char] | _ => [] end in
      if Qle_bool (10 ^ 21) (Qabs q) then
        string_of_list_ascii (sign ++ exponential (Qabs q))
      else
        let ds := decimal_digits (fixed_digits q d) in
        let padded := (repeat "0"%char (S d - List.length ds) ++ ds)%list in
        let k := (List.length padded - d)%nat in
        string_of_list_ascii
          (sign ++ firstn k padded
             ++ (if (d =? 0)%nat then [] else "."%char :: skipn k padded))%list
  | PInf => "Infinity"
  | NInf => "-Infinity"
  | NaN => "NaN"
  end.

(** The characters before the first one that satisfies [p], and those after
    it. *)
Fixpoint split_when (p : ascii -> bool) (cs : list ascii)
  : list ascii * option (list ascii) :=
  match cs with
  | [] => ([], None)
  | c :: cs' =>
      if p c then ([], Some cs')
      else let (a, b) := split_when p cs' in (c :: a, b)
  end.

(** A signed run of digits. *)
Definition signed_integer (cs : list ascii) : option Z :=
  let '(neg, body) :=
    match cs with
    | "-"%char :: r => (true, r)
    | "+"%char :: r => (false, r)
    | _ => (false, cs)
    end in
  match body, digits_value 0 body with
  | _ :: _, Some n => Some (if neg then - n else n)
  | _, _ => None
  end.

(** An unsigned decimal literal: digits with an optional fraction and an
    optional exponent. *)
Definition decimal_literal (cs : list ascii) : option Q :=
  let '(mantissa, ex) :=
    split_when (fun c => Ascii.eqb c "e" || Ascii.eqb c "E") cs in
  let '(ip, fp) := split_at "."%char mantissa in
  let fp := match fp with Some f => f | None => [] end in
  let e := match ex with Some t => signed_integer t | None => Some 0 end in
  match (ip ++ fp)%list, digits_value 0 (ip ++ fp), e with
  | _ :: _, Some n, Some e =>
      Some (inject_Z n * 10 ^ (e - Z.of_nat (List.length fp)))%Q
  | _, _, _ => None
  end.

(** [Number(s)] for the strings [toFixed] produces: an optionally signed
    decimal literal (the double nearest to it, or an infinity beyond the
    largest), or the name of an infinity.  The empty string is 0; anything
    else is [NaN]. *)
Definition Number (s : string) : number :=
  if String.eqb s "" then Fin 0
  else
    let cs := list_ascii_of_string s in
    let '(neg, body) :=
      match cs with
      | "-"%char :: r => (true, r)
      | "+"%char :: r => (false, r)
      | _ => (false, cs)
      end in
    if String.eqb (string_of_list_ascii body) "Infinity"
    then if neg then NInf else PInf
    else
      match decimal_literal body with
      | Some v => rounded (if neg then - v else v)%Q
      | None => NaN
      end.

(** [s.replace(c, r)] with a string pattern: only the FIRST occurrence of
    the pattern is replaced. *)
Fixpoint replace_first (c r : ascii) (s : string) : string :=
  match s with
  | EmptyString => EmptyString
  | String a s' => if Ascii.eqb a c then String r s' else String a (replace_first c r s')
  end.

(** Replacement of every occurrence, as [replaceAll] would do. *)
Fixpoint replace_all (c r : ascii) (s : string) : string :=
  match s with
  | EmptyString => EmptyString
  | String a s' => String (if Ascii.eqb a c then r else a) (replace_all c r s')
  end.

Definition upper_char (c : ascii) : ascii :=
  let n := nat_of_ascii c in
  if (97 <=? n)%nat && (n <=? 122)%nat then ascii_of_nat (n - 32) else c.

(** [s.toUpperCase()] on ASCII text. *)
Fixpoint toUpperCase (s : string) : string :=
  match s with
  | EmptyString => EmptyString
  | String a s' => String (upper_char a) (toUpperCase s')
  end.

(** [s.split(sep)[0]]: the text before the first separator. *)
Fixpoint split_head (sep : ascii) (s : string) : string :=
  match s with
  | EmptyString => EmptyString
  | String a s' => if Ascii.eqb a sep then EmptyString else String a (split_head sep s')
  end.

(** ** Dates *)

(** [new Date(s).getTime()]: milliseconds since the epoch, [None] for the
    [NaN] of an invalid date. *)
Class DateParser := getTime : string -> option Z.

(** [a > b], [a >= b], [a <= b] on time values; false when one is [NaN]. *)
Definition time_gt (a b : option Z) : bool :=
  match a, b with Some x, Some y => y <? x | _, _ => false end.
Definition time_ge (a b : option Z) : bool :=
  match a, b with Some x, Some y => y <=? x | _, _ => false end.
Definition time_le (a b : option Z) : bool :=
  match a, b with Some x, Some y => x <=? y | _, _ => false end.

(** [a - b] on time values, as a comparator result. *)
Definition time_sub (a b : option Z) : option Z :=
  match a, b with Some x, Some y => Some (x - y) | _, _ => None end.

(** A time value outside +-8.64e15 ms is not a date. *)
Definition TimeClip (t : Z) : option Z :=
  if Z.abs t <=? 8640000000000000 then Some t else None.

Definition msPerDay : Z := 86400000.

(** Days between 1970-01-01 and the civil date [y-m-d]. *)
Definition days_from_civil (y m d : Z) : Z :=
  let y' := if m <=? 2 then y - 1 else y in
  let era := y' / 400 in
  let yoe := y' - era * 400 in
  let mp := (m + 9) mod 12 in
  let doy := (153 * mp + 2) / 5 + d - 1 in
  let doe := yoe * 365 + yoe / 4 - yoe / 100 + doy in
  era * 146097 + doe - 719468.

Definition field_value (cs : list ascii) : option Z :=
  match cs with [] => None | _ => digits_value 0 cs end.

(** The zone designator after a time of day: none or [Z] (UTC; local time is
    UTC), or [+hh:mm] and [-hh:mm].  The result is the offset in
    milliseconds. *)
Definition parse_zone (cs : list ascii) : option Z :=
  match cs with
  | [] | ["Z"%char] => Some 0
  | [sgn; h1; h2; ":"%char; m1; m2] =>
      match field_value [h1; h2], field_value [m1; m2] with
      | Some h, Some m =>
          if (h <=? 23) && (m <=? 59) then
            if Ascii.eqb sgn "+" then Some ((h * 60 + m) * 60000)
            else if Ascii.eqb sgn "-" then Some (- ((h * 60 + m) * 60000))
            else None
          else None
      | _, _ => None
      end
  | _ => None
  end.

(** The optional [:ss] and [.mmm] after [hh:mm], in milliseconds, and the
    text that follows them. *)
Definition parse_seconds (cs : list ascii) : option (Z * list ascii) :=
  match cs with
  | ":"%char :: s1 :: s2 :: "."%char :: a :: b :: c :: tl =>
      match field_value [s1; s2], field_value [a; b; c] with
      | Some s, Some f => if s <=? 59 then Some (s * 1000 + f, tl) else None
      | _, _ => None
      end
  | ":"%char :: s1 :: s2 :: tl =>
      match field_value [s1; s2] with
      | Some s => if s <=? 59 then Some (s * 1000, tl) else None
      | None => None
      end
  | tl => Some (0, tl)
  end.

(** [hh:mm], optionally followed by [:ss], [.mmm] and a zone designator:
    milliseconds since midnight UTC. *)
Definition parse_time_of_day (cs : list ascii) : option Z :=
  match cs with
  | h1 :: h2 :: ":"%char :: m1 :: m2 :: rest =>
      match field_value [h1; h2], field_value [m1; m2], parse_seconds rest with
      | Some h, Some m, Some (sms, tl) =>
          match parse_zone tl with
          | Some offset =>
              if ((h <=? 23) && (m <=? 59)) || ((h =? 24) && (m =? 0) && (sms =? 0))
              then Some ((h * 60 + m) * 60000 + sms - offset) else None
          | None => None
          end
      | _, _, _ => None
      end
  | _ => None
  end.

(** The optional [-MM] or [-DD] of a date: its value (1 when it is left
    out) and the text that follows. *)
Definition parse_date_field (cs : list ascii) : option (Z * list ascii) :=
  match cs with
  | "-"%char :: a :: b :: tl =>
      match field_value [a; b] with Some v => Some (v, tl) | None => None end
  | tl => Some (1, tl)
  end.

(** A date parser for the ISO-8601 format of the language: [YYYY],
    [YYYY-MM] or [YYYY-MM-DD], optionally followed by [T] and a time of day.
    Text in any other format, which an engine may or may not accept, is not a
    date here. *)
Definition iso_getTime (s : string) : option Z :=
  match list_ascii_of_string s with
  | y1 :: y2 :: y3 :: y4 :: rest =>
      match field_value [y1; y2; y3; y4], parse_date_field rest with
      | Some y, Some (m, rest1) =>
          let day :=
            match rest, rest1 with
            | "-"%char :: _, _ => parse_date_field rest1
            | _, _ => Some (1, rest1)
            end in
          match day with
          | Some (d, rest2) =>
              let tod :=
                match rest2 with
                | [] => Some 0
                | "T"%char :: t => parse_time_of_day t
                | _ => None
                end in
              match tod with
              | Some t =>
                  if (1 <=? m) && (m <=? 12) && (1 <=? d) && (d <=? 31)
                  then TimeClip (days_from_civil y m d * msPerDay + t) else None
              | None => None
              end
          | None => None
          end
      | _, _ => None
      end
  | _ => None
  end.

Definition iso_dates : DateParser := iso_getTime.

(** ** Arrays *)

(** [xs.slice(start, end)]: negative indices count from the end; an omitted
    [end] is the length. *)
Definition Array_slice {A} (start : Z) (end_ : option Z) (xs : list A) : list A :=
  let len := Z.of_nat (List.length xs) in
  let rel k := if k <? 0 then Z.max (len + k) 0 else Z.min k len in
  let from := rel start in
  let to := match end_ with Some e => rel e | None => len end in
  firstn (Z.to_nat (Z.max (to - from) 0)) (skipn (Z.to_nat from) xs).

(** [xs.sort(cmp)]: the stable sort; [cmp a b] positive moves [b] before
    [a].  With a consistent comparator this list is the one result the
    language allows.  When [cmp] yields [NaN] for some pair the language
    leaves the order to the engine: the list below (where [NaN] counts as
    zero) is then one permutation among those an engine may return, and
    nothing is stated about its order. *)
Fixpoint sort_insert {A} (cmp : A -> A -> option Z) (x : A) (sorted : list A) : list A :=
  match sorted with
  | [] => [x]
  | y :: ys =>
      match cmp x y with
      | Some v => if 0 <? v then y :: sort_insert cmp x ys else x :: sorted
      | None => x :: sorted
      end
  end.

Fixpoint Array_sort {A} (cmp : A -> A -> option Z) (xs : list A) : list A :=
  match xs with
  | [] => []
  | x :: xs' => sort_insert cmp x (Array_sort cmp xs')
  end.

(** [xs.reduce((sum, x) => sum + f(x), 0)] *)
Definition sum_of {A} (f : A -> number) (xs : list A) : number :=
  fold_left (fun sum x => nadd sum (f x)) xs (Fin 0).

(** ** Objects used as dictionaries *)

(** The own properties of an object, in creation order. *)
Definition Obj (V : Type) : Type := list (string * V).

(** The own property [k] of [o], as [Object.entries] and [hasOwnProperty]
    see it.  This is not the source's [o[k]], which is [obj_read]. *)
Fixpoint obj_get {V} (k : string) (o : Obj V) : option V :=
  match o with
  | [] => None
  | (k', v) :: o' => if String.eqb k k' then Some v else obj_get k o'
  end.

(** [o[k] = v]: an existing key keeps its place, a new one goes last. *)
Fixpoint obj_set {V} (k : string) (v : V) (o : Obj V) : Obj V :=
  match o with
  | [] => [(k, v)]
  | (k', v') :: o' =>
      if String.eqb k k' then (k', v) :: o' else (k', v') :: obj_set k v o'
  end.

(** The own keys, in creation order. *)
Definition obj_keys {V} (o : Obj V) : list string := map fst o.

(** The properties every object inherits from [Object.prototype]: eleven
    built-in functions, and the accessor [__proto__], which reads as
    [Object.prototype] itself. *)
Definition Object_prototype_names : list string :=
  ["constructor"; "__defineGetter__"; "__defineSetter__"; "hasOwnProperty";
   "__lookupGetter__"; "__lookupSetter__"; "isPrototypeOf"; "propertyIsEnumerable";
   "toString"; "valueOf"; "__proto__"; "toLocaleString"].

Definition inherited (k : string) : bool :=
  existsb (String.eqb k) Object_prototype_names.

(** What [o[k]] evaluates to. *)
Inductive property (V : Type) : Type :=
| Own (v : V)       (* the own property *)
| Inherited         (* a built-in of [Object.prototype]: an object, so truthy *)
| Absent.           (* [undefined] *)
Arguments Own {V} v.
Arguments Inherited {V}.
Arguments Absent {V}.

(** [o[k]]: the own property, or else the inherited one. *)
Definition obj_read {V} (k : string) (o : Obj V) : property V :=
  match obj_get k o with
  | Some v => Own v
  | None => if inherited k then Inherited else Absent
  end.

(** A key that is an array index: the decimal digits, without a leading
    zero, of an integer below 2^32 - 1. *)
Definition array_index (k : string) : option Z :=
  match list_ascii_of_string k with
  | [] => None
  | c :: rest =>
      if Ascii.eqb c "0" && negb (match rest with [] => true | _ :: _ => false end)
      then None
      else
        match digits_value 0 (c :: rest) with
        | Some n => if n <? 4294967295 then Some n else None
        | None => None
        end
  end.

(** The entries whose key is an array index, by ascending index. *)
Fixpoint insert_indexed {V} (i : Z) (e : string * V) (l : list (Z * (string * V)))
  : list (Z * (string * V)) :=
  match l with
  | [] => [(i, e)]
  | (j, e') :: l' => if i <? j then (i, e) :: l else (j, e') :: insert_indexed i e l'
  end.

Fixpoint indexed_entries {V} (o : Obj V) : list (Z * (string * V)) :=
  match o with
  | [] => []
  | e :: o' =>
      match array_index (fst e) with
      | Some i => insert_indexed i e (indexed_entries o')
      | None => indexed_entries o'
      end
  end.

Definition named_entries {V} (o : Obj V) : Obj V :=
  filter (fun e => match array_index (fst e) with Some _ => false | None => true end) o.

(** [Object.entries(o)]: the array indices in ascending numeric order, then
    the other keys in creation order. *)
Definition obj_entries {V} (o : Obj V) : list (string * V) :=
  (map snd (indexed_entries o) ++ named_entries o)%list.

(** [Object.values(o)] *)
Definition obj_values {V} (o : Obj V) : list V := map snd (obj_entries o).

(** ** The five record types of [mockData.ts] (the fields the aggregator reads) *)

Record Campaign := {
  campaign_id : string;
  brand : string;
  start_date : string;
  end_date : string;
  status : string;
  created_at : string
}.

Record PerformanceMetric := {
  metric_id : string;
  m_campaign_id : string;
  m_date : string;
  roi : number;
  engagement_rate : number;
  reach : number
}.

Record CreativeAsset := {
  asset_id : string;
  a_campaign_id : string
}.

Record SensorData := {
  sensor_id : string;
  sensor_type : string;
  timestamp : string;
  value : number;
  s_status : string
}.

Record ModelPerformance := {
  model_id : string;
  model_type : string;
  mp_date : string
}.

(** ** The cache and the state monad *)

Record DataCache := {
  campaigns : option (list Campaign);
  metrics : option (list PerformanceMetric);
  assets : option (list CreativeAsset);
  sensors : option (list SensorData);
  models : option (list ModelPerformance);
  summary : option string
}.

(** [let dataCache = {}] *)
Definition empty_cache : DataCache :=
  {| campaigns := None; metrics := None; assets := None;
     sensors := None; models := None; summary := None |}.

(** [random i] is the outcome of the [i]-th call of [Math.random()] to come. *)
Record World := {
  dataCache : DataCache;
  random : nat -> Q
}.

Definition M (A : Type) : Type := World -> A * World.

Definition ret {A} (a : A) : M A := fun w => (a, w).
Definition bind {A B} (m : M A) (f : A -> M B) : M B :=
  fun w => let (a, w') := m w in f a w'.

Notation "x <- m ;; k" := (bind m (fun x => k))
  (at level 61, m at next level, right associativity).

Definition read_cache : M DataCache := fun w => (dataCache w, w).

Definition write_cache (c : DataCache) : M unit :=
  fun w => (tt, {| dataCache := c; random := random w |}).

(** The array held in [dataCache.campaigns] is replaced by [cs]: the effect
    of a method that reorders that array in place. *)
Definition store_campaigns (cs : list Campaign) : M unit :=
  fun w =>
    let c := dataCache w in
    (tt, {| dataCache :=
              {| campaigns := Some cs; metrics := metrics c; assets := assets c;
                 sensors := sensors c; models := models c; summary := summary c |};
            random := random w |}).

(** [Math.random()] *)
Definition Math_random : M number :=
  fun w => (Fin (random w 0%nat),
            {| dataCache := dataCache w; random := fun i => random w (S i) |}).

(** [xs.map(f)] with an effectful callback, left to right. *)
Fixpoint mapM {A B} (f : A -> M B) (xs : list A) : M (list B) :=
  match xs with
  | [] => ret []
  | x :: xs' => y <- f x ;; ys <- mapM f xs' ;; ret (y :: ys)
  end.

(** ** [loadRealDataset] *)

(** Outcome of one [fetch(url)] followed by [.json()] on its response. *)
Inductive fetched (A : Type) : Type :=
| Rejected                       (* [fetch] rejects *)
| Response (json : option A).    (* a response; [.json()] rejects on [None] *)
Arguments Rejected {A}.
Arguments Response {A} json.

Record Network := {
  campaigns_json : fetched (list Campaign);
  performance_metrics_json : fetched (list PerformanceMetric);
  creative_assets_json : fetched (list CreativeAsset);
  sensor_data_json : fetched (list SensorData);
  model_performance_json : fetched (list ModelPerformance);
  dataset_summary_json : fetched string
}.

(** An awaited promise: [None] is a rejection, which [await] throws. *)
Definition fetch {A} (r : fetched A) : option (option A) :=
  match r with
  | Rejected => None
  | Response j => Some j
  end.

(** [Promise.all] of six promises rejects as soon as one of them does. *)
Definition Promise_all6 {A B C D E F}
  (a : option A) (b : option B) (c : option C) (d : option D) (e : option E) (f : option F)
  : option (A * B * C * D * E * F) :=
  match a, b, c, d, e, f with
  | Some a, Some b, Some c, Some d, Some e, Some f => Some (a, b, c, d, e, f)
  | _, _, _, _, _, _ => None
  end.

Definition loadRealDataset (net : Network) : M (option DataCache) :=
  match Promise_all6 (fetch (campaigns_json net)) (fetch (performance_metrics_json net))
          (fetch (creative_assets_json net)) (fetch (sensor_data_json net))
          (fetch (model_performance_json net)) (fetch (dataset_summary_json net)) with
  | Some (campaignsRes, metricsRes, assetsRes, sensorsRes, modelsRes, summaryRes) =>
      match Promise_all6 campaignsRes metricsRes assetsRes sensorsRes modelsRes summaryRes with
      | Some (cs, ms, az, ss, mo, su) =>
          let cache :=
            {| campaigns := Some cs; metrics := Some ms; assets := Some az;
               sensors := Some ss; models := Some mo; summary := Some su |} in
          _ <- write_cache cache ;;
          ret (Some cache)
      | None => ret None           (* catch: a body failed to parse *)
      end
  | None => ret None               (* catch: a fetch failed *)
  end.

(** ** The query operations *)

Section Queries.

Context {dates : DateParser}.

Definition by_created_desc (a b : Campaign) : option Z :=
  time_sub (getTime (created_at b)) (getTime (created_at a)).

(** [limit = 10] is the default of an omitted argument.  [sort] works on the
    receiver, here the cached array itself. *)
Definition getLatestCampaigns (limit : option Z) : M (list Campaign) :=
  let limit := match limit with Some l => l | None => 10 end in
  c <- read_cache ;;
  match campaigns c with
  | None => ret []
  | Some arr =>
      let sorted := Array_sort by_created_desc arr in
      _ <- store_campaigns sorted ;;
      ret (Array_slice 0 (Some limit) sorted)
  end.

Definition by_date_asc (a b : PerformanceMetric) : option Z :=
  time_sub (getTime (m_date a)) (getTime (m_date b)).

Definition by_date_desc (a b : PerformanceMetric) : option Z :=
  time_sub (getTime (m_date b)) (getTime (m_date a)).

Definition getCampaignMetrics (campaignId : string) : M (list PerformanceMetric) :=
  c <- read_cache ;;
  match metrics c with
  | None => ret []
  | Some ms =>
      ret (Array_sort by_date_asc
             (filter (fun m => String.eqb (m_campaign_id m) campaignId) ms))
  end.

(** [now] is the time value of [new Date()] at the call. *)
Definition is_active (now : Z) (c : Campaign) : bool :=
  String.eqb (status c) "Active"
  && time_le (getTime (start_date c)) (Some now)
  && time_ge (getTime (end_date c)) (Some now).

Definition getActiveCampaigns (now : Z) : M (list Campaign) :=
  c <- read_cache ;;
  match campaigns c with
  | None => ret []
  | Some cs => ret (filter (is_active now) cs)
  end.

Record BrandStats := {
  st_campaigns : nat;
  st_avgROI : number;
  st_avgEngagement : number;
  st_totalReach : number
}.

Record BrandPerformance := {
  bp_brand : string;
  bp_campaigns : nat;
  bp_avgROI : number;
  bp_avgEngagement : number;
  bp_totalReach : number
}.

(** The rows of one campaign, newest first, cut to seven. *)
Definition last7 (ms : list PerformanceMetric) (c : Campaign) : list PerformanceMetric :=
  Array_slice 0 (Some 7)
    (Array_sort by_date_desc
       (filter (fun m => String.eqb (m_campaign_id m) (campaign_id c)) ms)).

(** [{ campaigns: 0, avgROI: 0, avgEngagement: 0, totalReach: 0 }] *)
Definition new_brand : BrandStats :=
  {| st_campaigns := 0; st_avgROI := Fin 0; st_avgEngagement := Fin 0;
     st_totalReach := Fin 0 |}.

(** The record [brandStats[brand]] is after the body of the [forEach] has
    worked on it: counted, and with the figures of the campaign's window when
    the campaign has rows. *)
Definition brand_update (ms : list PerformanceMetric) (c : Campaign) (st0 : BrandStats)
  : BrandStats :=
  let st1 := {| st_campaigns := S (st_campaigns st0); st_avgROI := st_avgROI st0;
                st_avgEngagement := st_avgEngagement st0;
                st_totalReach := st_totalReach st0 |} in
  let campaignMetrics := last7 ms c in
  let n := List.length campaignMetrics in
  if (0 <? n)%nat then
    {| st_campaigns := st_campaigns st1;
       st_avgROI := ndiv (sum_of roi campaignMetrics) (of_nat n);
       st_avgEngagement := ndiv (sum_of engagement_rate campaignMetrics) (of_nat n);
       st_totalReach := nadd (st_totalReach st1) (sum_of reach campaignMetrics) |}
  else st1.

(** Body of the [forEach] over the campaigns.  For a brand named like a
    property of [Object.prototype] the test [!brandStats[brand]] is false, no
    record is created, and the increment and the assignments that follow land
    on the built-in object that [brandStats[brand]] is: the dictionary gets no
    entry.  (For [__proto__] that object is [Object.prototype] itself, which
    the model takes to be pristine throughout: a later brand called [avgROI]
    or [avgEngagement] would find the number written there.) *)
Definition brand_step (ms : list PerformanceMetric)
  (brandStats : Obj BrandStats) (c : Campaign) : Obj BrandStats :=
  match obj_read (brand c) brandStats with
  | Absent => obj_set (brand c) (brand_update ms c new_brand) brandStats
  | Own st => obj_set (brand c) (brand_update ms c st) brandStats
  | Inherited => brandStats
  end.

Definition brand_entry (e : string * BrandStats) : BrandPerformance :=
  {| bp_brand := fst e; bp_campaigns := st_campaigns (snd e);
     bp_avgROI := st_avgROI (snd e); bp_avgEngagement := st_avgEngagement (snd e);
     bp_totalReach := st_totalReach (snd e) |}.

Definition getBrandPerformance : M (list BrandPerformance) :=
  c <- read_cache ;;
  match campaigns c, metrics c with
  | Some cs, Some ms =>
      ret (map brand_entry (obj_entries (fold_left (brand_step ms) cs [])))
  | _, _ => ret []
  end.

Record SensorStatus := {
  ss_name : string;
  ss_value : number;
  ss_status : string;
  ss_timestamp : string;
  ss_trend : string
}.

(** Body of the [forEach] over the sensor readings.  For a type named like a
    property of [Object.prototype], [latestSensors[key]] is a built-in object
    without a [timestamp]: the test [!latestSensors[key]] is false and
    [new Date(undefined)] is an invalid date, so the comparison is false too
    and the reading is not stored. *)
Definition sensor_step (latestSensors : Obj SensorData) (sensor : SensorData)
  : Obj SensorData :=
  let key := sensor_type sensor in
  match obj_read key latestSensors with
  | Absent => obj_set key sensor latestSensors
  | Own cur =>
      if time_gt (getTime (timestamp sensor)) (getTime (timestamp cur))
      then obj_set key sensor latestSensors
      else latestSensors
  | Inherited => latestSensors
  end.

Definition latest_sensors (ss : list SensorData) : list SensorData :=
  obj_values (fold_left sensor_step ss []).

(** [Math.random() > 0.5 ? '+' : '-' + (Math.random() * 10).toFixed(1) + '%'];
    the conditional binds weaker than [+]. *)
Definition sensor_trend : M string :=
  r <- Math_random ;;
  if ngt r (Fin (1 # 2)) then ret "+"
  else
    r' <- Math_random ;;
    ret ("-" ++ toFixed (nmul r' (of_Z 10)) 1 ++ "%")%string.

Definition sensor_entry (sensor : SensorData) : M SensorStatus :=
  trend <- sensor_trend ;;
  ret {| ss_name := toUpperCase (replace_first "_" " " (sensor_type sensor));
         ss_value := value sensor;
         ss_status := s_status sensor;
         ss_timestamp := timestamp sensor;
         ss_trend := trend |}.

Definition getSensorStatus : M (list SensorStatus) :=
  c <- read_cache ;;
  match sensors c with
  | None => ret []
  | Some ss => mapM sensor_entry (latest_sensors ss)
  end.

(** Body of the [forEach] over the model rows; a type named like a property
    of [Object.prototype] is never stored, as in [sensor_step]. *)
Definition model_step (latestModels : Obj ModelPerformance) (model : ModelPerformance)
  : Obj ModelPerformance :=
  let key := model_type model in
  match obj_read key latestModels with
  | Absent => obj_set key model latestModels
  | Own cur =>
      if time_gt (getTime (mp_date model)) (getTime (mp_date cur))
      then obj_set key model latestModels
      else latestModels
  | Inherited => latestModels
  end.

Definition getModelPerformance : M (list ModelPerformance) :=
  c <- read_cache ;;
  match models c with
  | None => ret []
  | Some ms => ret (obj_values (fold_left model_step ms []))
  end.

Record DayStats := {
  day_date : string;
  day_avgROI : number;
  day_avgEngagement : number;
  day_totalReach : number;
  day_count : nat
}.

Record TrendPoint := {
  tp_date : string;
  tp_avgROI : number;
  tp_avgEngagement : number;
  tp_totalReach : number
}.

(** [cutoffDate.setDate(cutoffDate.getDate() - days)] applied to [now]. *)
Definition cutoff_date (now days : Z) : option Z := TimeClip (now - days * msPerDay).

Definition on_or_after (cutoff : option Z) (m : PerformanceMetric) : bool :=
  time_ge (getTime (m_date m)) cutoff.

(** [{ date: dateKey, avgROI: 0, avgEngagement: 0, totalReach: 0, count: 0 }] *)
Definition new_day (dateKey : string) : DayStats :=
  {| day_date := dateKey; day_avgROI := Fin 0; day_avgEngagement := Fin 0;
     day_totalReach := Fin 0; day_count := 0 |}.

(** The record [dailyStats[dateKey]] after the four updates of the body. *)
Definition day_update (metric : PerformanceMetric) (d0 : DayStats) : DayStats :=
  {| day_date := day_date d0;
     day_avgROI := nadd (day_avgROI d0) (roi metric);
     day_avgEngagement := nadd (day_avgEngagement d0) (engagement_rate metric);
     day_totalReach := nadd (day_totalReach d0) (reach metric);
     day_count := S (day_count d0) |}.

(** Body of the [forEach] over the retained rows.  When the date key is named
    like a property of [Object.prototype] no record is created and the four
    updates land on the built-in object: the dictionary gets no entry. *)
Definition day_step (dailyStats : Obj DayStats) (metric : PerformanceMetric)
  : Obj DayStats :=
  let dateKey := split_head "T" (m_date metric) in
  match obj_read dateKey dailyStats with
  | Absent => obj_set dateKey (day_update metric (new_day dateKey)) dailyStats
  | Own d => obj_set dateKey (day_update metric d) dailyStats
  | Inherited => dailyStats
  end.

Definition trend_point (day : DayStats) : TrendPoint :=
  {| tp_date := day_date day;
     tp_avgROI := Number (toFixed (ndiv (day_avgROI day) (of_nat (day_count day))) 2);
     tp_avgEngagement :=
       Number (toFixed (ndiv (day_avgEngagement day) (of_nat (day_count day))) 2);
     tp_totalReach := day_totalReach day |}.

Definition by_point_date_asc (a b : TrendPoint) : option Z :=
  time_sub (getTime (tp_date a)) (getTime (tp_date b)).

(** [days = 30] is the default of an omitted argument. *)
Definition getPerformanceTrends (days : option Z) (now : Z) : M (list TrendPoint) :=
  let days := match days with Some d => d | None => 30 end in
  c <- read_cache ;;
  match metrics c with
  | None => ret []
  | Some ms =>
      let cutoffDate := cutoff_date now days in
      let dailyStats := fold_left day_step (filter (on_or_after cutoffDate) ms) [] in
      ret (Array_sort by_point_date_asc (map trend_point (obj_values dailyStats)))
  end.

Record DashboardSummary := {
  totalCampaigns : nat;
  activeCampaigns : nat;
  avgROI : number;
  avgEngagement : number;
  pipelineHealth : number;
  dataFreshness : number;
  modelAccuracy : number;
  systemLatency : number;
  totalRecords : nat
}.

Definition or_empty {A} (o : option (list A)) : list A :=
  match o with Some l => l | None => [] end.

(** Mean of [f] over the rows, 0 when there are none. *)
Definition mean_of {A} (f : A -> number) (xs : list A) : number :=
  if (0 <? List.length xs)%nat then ndiv (sum_of f xs) (of_nat (List.length xs)) else Fin 0.

Definition pipeline_health (sensorStatus : list SensorStatus) : number :=
  let healthysensors :=
    List.length (filter (fun s => String.eqb (ss_status s) "OK") sensorStatus) in
  if (0 <? List.length sensorStatus)%nat
  then Math_round (nmul (ndiv (of_nat healthysensors) (of_nat (List.length sensorStatus)))
                     (of_Z 100))
  else of_Z 100.

Definition getDashboardSummary (now : Z) : M DashboardSummary :=
  c <- read_cache ;;
  let campaigns := or_empty (campaigns c) in
  let metrics := or_empty (metrics c) in
  let assets := or_empty (assets c) in
  let sensors := or_empty (sensors c) in
  active <- getActiveCampaigns now ;;
  let recentMetrics := Array_slice (-1000) None metrics in
  let avgROI := mean_of roi recentMetrics in
  let avgEngagement := mean_of engagement_rate recentMetrics in
  sensorStatus <- getSensorStatus ;;
  r1 <- Math_random ;;
  r2 <- Math_random ;;
  r3 <- Math_random ;;
  ret {| totalCampaigns := List.length campaigns;
         activeCampaigns := List.length active;
         avgROI := Number (toFixed avgROI 1);
         avgEngagement := Number (toFixed avgEngagement 1);
         pipelineHealth := pipeline_health sensorStatus;
         dataFreshness := nadd (Math_round (nmul r1 (of_Z 5))) (of_Z 95);
         modelAccuracy := nadd (Math_round (nmul r2 (of_Z 10))) (of_Z 85);
         systemLatency := nadd (Math_round (nmul r3 (of_Z 100))) (of_Z 100);
         totalRecords :=
           List.length campaigns + List.length metrics
           + List.length assets + List.length sensors |}.

End Queries.

(** ** [mockData.ts]: the fallback data and the callers of the aggregator *)

Definition mockCampaigns : list Campaign :=
  [{| campaign_id := "123e4567-e89b-12d3-a456-426614174000"; brand := "Nike";
      start_date := "2024-01-15T00:00:00"; end_date := "2024-03-15T00:00:00";
      status := "Completed"; created_at := "2024-01-01T00:00:00" |}].

(** [loadedAt] is [new Date().toISOString()] at the time the module is loaded. *)
Definition mockSensorData (loadedAt : string) : list SensorData :=
  [{| sensor_id := "sensor-001"; sensor_type := "data_freshness"; timestamp := loadedAt;
      value := Fin (Binary64.round64 (95 # 100)); s_status := "OK" |};
   {| sensor_id := "sensor-002"; sensor_type := "model_accuracy"; timestamp := loadedAt;
      value := Fin (Binary64.round64 (87 # 100)); s_status := "OK" |};
   {| sensor_id := "sensor-003"; sensor_type := "api_latency"; timestamp := loadedAt;
      value := of_Z 145; s_status := "OK" |}].

(** The object returned when the real dataset cannot be loaded: it has no
    metrics, assets or models. *)
Definition fallback_dataset (loadedAt : string) : DataCache :=
  {| campaigns := Some mockCampaigns; metrics := None; assets := None;
     sensors := Some (mockSensorData loadedAt); models := None;
     summary := Some "{ total_campaigns: 500, total_metrics: 46701, total_assets: 4427, active_sensors: 5, model_accuracy: 0.87 }" |}.

(** [loadRealDataset] catches its own failures, so the [catch] here is never
    entered. *)
Definition loadFullDataset (loadedAt : string) (net : Network) : M DataCache :=
  realData <- loadRealDataset net ;;
  match realData with
  | Some d => ret d
  | None => ret (fallback_dataset loadedAt)
  end.

Record SensorMetric := {
  sm_name : string;
  sm_value : number;
  sm_status : string;
  sm_trend : string;
  sm_timestamp : option string
}.

Record Alert := {
  al_id : Z;
  al_message : string;
  al_severity : string;
  al_timestamp : string
}.

Record SensorMetrics := {
  sm_sensors : list SensorMetric;
  sm_alerts : list Alert
}.

Definition default_sensor (name : string) (v : Z) (trend : string) : SensorMetric :=
  {| sm_name := name; sm_value := of_Z v; sm_status := "OK"; sm_trend := trend;
     sm_timestamp := None |}.

Definition default_sensors : list SensorMetric :=
  [default_sensor "Data Freshness" 98 "+2%"; default_sensor "Model Accuracy" 87 "+1%";
   default_sensor "API Latency" 145 "-5ms"; default_sensor "Data Quality" 96 "+3%";
   default_sensor "Throughput" 1150 "+8%"].

Definition default_alerts : list Alert :=
  [{| al_id := 1; al_message := "High latency detected in EU region";
      al_severity := "warning"; al_timestamp := "2024-06-08T20:15:00Z" |};
   {| al_id := 2; al_message := "Model retrained successfully";
      al_severity := "info"; al_timestamp := "2024-06-08T18:30:00Z" |}].

Definition sensor_metric_of (e : SensorStatus) : SensorMetric :=
  {| sm_name := ss_name e; sm_value := ss_value e; sm_status := ss_status e;
     sm_trend := ss_trend e; sm_timestamp := Some (ss_timestamp e) |}.

Section Callers.

Context {dates : DateParser}.

(** [getDashboardSummary] does not raise, so the fallback figures of the
    [catch] are never returned. *)
Definition getDashboardMetrics (now : Z) : M DashboardSummary := getDashboardSummary now.

Definition getSensorMetrics : M SensorMetrics :=
  sensors <- getSensorStatus ;;
  ret {| sm_sensors :=
           if (0 <? List.length sensors)%nat then map sensor_metric_of sensors
           else default_sensors;
         sm_alerts := default_alerts |}.

(** [fetchData] of the dashboard page: load, then read the two views. *)
Definition fetchData (loadedAt : string) (net : Network) (now : Z)
  : M (DashboardSummary * SensorMetrics) :=
  _ <- loadFullDataset loadedAt net ;;
  dashboard <- getDashboardMetrics now ;;
  sensors <- getSensorMetrics ;;
  ret (dashboard, sensors).

End Callers.

(** ** The [Metric] card: change against the previous value *)

(** [-a], [a - b] and [Math.abs(a)] *)
Definition nneg (a : number) : number :=
  match a with
  | Fin q => Fin (- q)
  | PInf => NInf
  | NInf => PInf
  | NaN => NaN
  end.

Definition nsub (a b : number) : number := nadd a (nneg b).

Definition Math_abs (a : number) : number :=
  match a with
  | Fin q => Fin (Qabs q)
  | NInf => PInf
  | _ => a
  end.

(** Truthiness of an optional number: [undefined], [0] and [NaN] are falsy. *)
Definition truthy (v : option number) : bool :=
  match v with
  | None => false
  | Some (Fin q) => negb (Qeq_bool q 0)
  | Some NaN => false
  | Some _ => true
  end.

Record Change := {
  ch_value : string;
  isPositive : bool
}.

Definition calculateChange (value : number) (previousValue : option number)
  : option Change :=
  match previousValue with
  | Some prev =>
      if truthy previousValue then
        let change := nmul (ndiv (nsub value prev) prev) (of_Z 100) in
        Some {| ch_value := toFixed (Math_abs change) 1;
                isPositive := ngt change (Fin 0) |}
      else None
  | None => None
  end.

(** ** The retraining trigger (edge function) *)

(** What the collaborators do during one request: the job insert either
    fails with a message or stores a row and returns it; the webhook call
    rejects, or responds with or without an [ok] status. *)
Inductive InsertOutcome : Type :=
| InsertError (message : string)
| Inserted (id : string).

Inductive WebhookOutcome : Type :=
| WebhookRejected (message : string)
| WebhookResponded (ok : bool).

Record Job := {
  job_id : string;
  job_status : string;
  job_started_at : string
}.

(** The [retraining_jobs] table and the webhook calls made so far, each with
    the job id it carried. *)
Record Backend := {
  retraining_jobs : list Job;
  webhook_calls : list string
}.

Inductive ResponseBody : Type :=
| BodyText (text : string)
| BodyJobId (jobId : string)
| BodyError (error : string).

Record HttpResponse := {
  resp_status : Z;
  resp_body : ResponseBody;
  resp_headers : Obj string
}.

Definition corsHeaders : Obj string :=
  [("Access-Control-Allow-Origin", "*");
   ("Access-Control-Allow-Headers", "authorization, x-client-info, apikey, content-type")].

(** [{ ...corsHeaders, 'Content-Type': 'application/json' }] *)
Definition json_headers : Obj string :=
  obj_set "Content-Type" "application/json" corsHeaders.

Definition error_response (message : string) : HttpResponse :=
  {| resp_status := 400; resp_body := BodyError message; resp_headers := json_headers |}.

(** One request.  [startedAt] is [new Date().toISOString()] at the insert. *)
Definition serve (method startedAt : string) (ins : InsertOutcome) (hook : WebhookOutcome)
  (b : Backend) : HttpResponse * Backend :=
  if String.eqb method "OPTIONS" then
    ({| resp_status := 200; resp_body := BodyText "ok"; resp_headers := corsHeaders |}, b)
  else
    match ins with
    | InsertError message => (error_response message, b)
    | Inserted id =>
        let b1 :=
          {| retraining_jobs :=
               (retraining_jobs b
                ++ [{| job_id := id; job_status := "pending";
                       job_started_at := startedAt |}])%list;
             webhook_calls := (webhook_calls b ++ [id])%list |} in
        match hook with
        | WebhookRejected message => (error_response message, b1)
        | WebhookResponded false => (error_response "Failed to trigger retraining", b1)
        | WebhookResponded true =>
            ({| resp_status := 200; resp_body := BodyJobId id;
                resp_headers := json_headers |}, b1)
        end
    end.

(** ** Specification-level notions *)

Section Specification.

Context {dates : DateParser}.

(** Every future outcome of [Math.random()] lies in [0, 1). *)
Definition draws_ok (w : World) : Prop :=
  forall i, (0 <= random w i /\ random w i < 1)%Q.

(** The spec's brand average: the mean of [f] over the union of the
    seven-row windows of all campaigns of brand [b]. *)
Definition brand_windows (ms : list PerformanceMetric) (cs : list Campaign) (b : string)
  : list PerformanceMetric :=
  flat_map (last7 ms) (filter (fun c => String.eqb (brand c) b) cs).

Definition union_average (f : PerformanceMetric -> number)
  (ms : list PerformanceMetric) (cs : list Campaign) (b : string) : number :=
  mean_of f (brand_windows ms cs b).



Definition is_OK (st : string) : bool := String.eqb st "OK".

(** Every timestamp of the collection is a valid date. *)
Definition valid_timestamps (ss : list SensorData) : Prop :=
  forall s, In s ss -> getTime (timestamp s) <> None.

Definition time_of (s : SensorData) : Z :=
  match getTime (timestamp s) with Some t => t | None => 0 end.

Definition readings_of (t : string) (ss : list SensorData) : list SensorData :=
  filter (fun s => String.eqb (sensor_type s) t) ss.

(** Largest timestamp among the readings, [None] when there is none. *)
Definition max_time (rs : list SensorData) : option Z :=
  fold_right (fun s acc =>
                Some (match acc with Some m => Z.max (time_of s) m | None => time_of s end))
    None rs.

(** The reading of type [t] with the maximum timestamp (the first of them
    when several share it). *)
Definition latest_reading (t : string) (ss : list SensorData) : option SensorData :=
  let rs := readings_of t ss in
  match max_time rs with
  | Some m => find (fun s => time_of s =? m) rs
  | None => None
  end.




(** The spec's display name: every underscore becomes a space. *)
Definition display_name (t : string) : string :=
  toUpperCase (replace_all "_" " " t).

(** Shape of a trend: a bare plus sign, or a minus sign, a decimal number
    with one fractional digit, and a percent sign. *)
Definition trend_format (s : string) : Prop :=
  s = "+" \/
  exists (ip : list ascii) (c : ascii),
    s = string_of_list_ascii ("-"%char :: ip ++ ["."%char; c; "%"%char])
    /\ ip <> [] /\ forallb is_digit ip = true /\ is_digit c = true.

(** One of the six resources could not be fetched or parsed. *)
Definition failed {A} (r : fetched A) : Prop :=
  r = Rejected \/ r = Response None.

Definition load_fails (net : Network) : Prop :=
  failed (campaigns_json net) \/ failed (performance_metrics_json net)
  \/ failed (creative_assets_json net) \/ failed (sensor_data_json net)
  \/ failed (model_performance_json net) \/ failed (dataset_summary_json net).

End Specification.

(** ** Sample data *)

Definition demo_draws (i : nat) : Q :=
  (inject_Z (Z.of_nat ((3 * i + 1) mod 8)) / 8)%Q.

Definition world_of (c : DataCache) : World :=
  {| dataCache := c; random := demo_draws |}.

Definition loaded (cs : list Campaign) (ms : list PerformanceMetric)
  (ss : list SensorData) : DataCache :=
  {| campaigns := Some cs; metrics := Some ms; assets := Some [];
     sensors := Some ss; models := Some []; summary := Some "{}" |}.

Definition campaign (id b created : string) : Campaign :=
  {| campaign_id := id; brand := b; start_date := "2024-01-01";
     end_date := "2024-12-31"; status := "Active"; created_at := created |}.

Definition metric (id cid d : string) (r e rch : Z) : PerformanceMetric :=
  {| metric_id := id; m_campaign_id := cid; m_date := d;
     roi := of_Z r; engagement_rate := of_Z e; reach := of_Z rch |}.

Definition reading (id t ts st : string) : SensorData :=
  {| sensor_id := id; sensor_type := t; timestamp := ts;
     value := of_Z 1; s_status := st |}.

(** Two campaigns of one brand, each with one metric row. *)
Definition nike_campaigns : list Campaign :=
  [campaign "c1" "Nike" "2024-01-01"; campaign "c2" "Nike" "2024-02-01"].

Definition nike_metrics : list PerformanceMetric :=
  [metric "m1" "c1" "2024-03-01" 2 2 100; metric "m2" "c2" "2024-03-02" 4 6 200].

Definition nike_world : World := world_of (loaded nike_campaigns nike_metrics []).

(** Three campaigns, stored oldest first. *)
Definition three_campaigns : list Campaign :=
  [campaign "c1" "Nike" "2024-01-01"; campaign "c2" "Adidas" "2024-02-01";
   campaign "c3" "Puma" "2024-03-01"].

Definition three_world : World := world_of (loaded three_campaigns [] []).

(** One metric row dated after the clock reading [demo_now] (2026-11-02). *)
Definition demo_now : Z := 1793577600000.

Definition future_world : World :=
  world_of (loaded [campaign "c1" "Nike" "2024-01-01"]
              [metric "m1" "c1" "2030-01-01" 3 5 100] []).

Definition past_world : World :=
  world_of (loaded [campaign "c1" "Nike" "2024-01-01"]
              [metric "m1" "c1" "2024-03-01" 3 5 100] []).

(** Forty sensor types, the first twenty-three of them healthy. *)
Definition forty_sensors : list SensorData :=
  map (fun i =>
         reading "s"
           (String "t" (String (ascii_of_nat (97 + i / 10))
                          (String (ascii_of_nat (97 + i mod 10)) "")))
           "2024-06-08T20:15:00Z"
           (if (i <? 23)%nat then "OK" else "FAIL"))
    (seq 0 40).


(** A sensor type with two underscores, and two readings of one type. *)
Definition score_world : World :=
  world_of (loaded [] []
              [reading "s1" "data_quality_score" "2024-06-08T20:15:00Z" "OK"]).

Definition latency_world : World :=
  world_of (loaded [] []
              [reading "s1" "api_latency" "2024-06-08T20:15:00Z" "OK";
               reading "s2" "api_latency" "2024-06-09T20:15:00Z" "FAIL";
               reading "s3" "data_freshness" "2024-06-09T20:15:00Z" "OK"]).

(** A network on which the metrics resource is unreachable. *)
Definition broken_network : Network :=
  {| campaigns_json := Response (Some three_campaigns);
     performance_metrics_json := Rejected;
     creative_assets_json := Response (Some []);
     sensor_data_json := Response (Some []);
     model_performance_json := Response (Some []);
     dataset_summary_json := Response (Some "{}") |}.

Definition unloaded_world : World := world_of empty_cache.


Definition model_row (id t d : string) : ModelPerformance :=
  {| model_id := id; model_type := t; mp_date := d |}.

(** Two rows of one model type and one of another. *)
Definition demo_models : list ModelPerformance :=
  [model_row "m1" "ctr_predictor" "2024-05-01"; model_row "m2" "ctr_predictor" "2024-06-01";
   model_row "m3" "roi_predictor" "2024-05-15"].

Definition models_world : World :=
  world_of {| campaigns := Some []; metrics := Some []; assets := Some [];
              sensors := Some []; models := Some demo_models; summary := Some "{}" |}.

(** Rows of two days, in no particular order. *)
Definition trend_metrics : list PerformanceMetric :=
  [metric "m1" "c1" "2024-03-02T08:00:00" 4 6 200; metric "m2" "c1" "2024-03-01T09:30:00" 2 2 100;
   metric "m3" "c2" "2024-03-02T17:45:00" 6 8 50].

Definition trend_world : World :=
  world_of (loaded nike_campaigns trend_metrics []).

(** A thousand and one metric rows: an old one with a large ROI, then a
    thousand recent ones with ROI 2 and engagement 3. *)
Definition recent_rows : list PerformanceMetric :=
  repeat (metric "m" "c1" "2024-03-01" 2 3 10) 1000.

Definition many_rows_world : World :=
  world_of (loaded nike_campaigns
              (metric "old" "c1" "2020-01-01" 1000000 1000000 10 :: recent_rows) []).

(** A network on which every resource loads. *)
Definition working_network : Network :=
  {| campaigns_json := Response (Some three_campaigns);
     performance_metrics_json := Response (Some nike_metrics);
     creative_assets_json := Response (Some []);
     sensor_data_json := Response (Some forty_sensors);
     model_performance_json := Response (Some demo_models);
     dataset_summary_json := Response (Some "{}") |}.

(** ** Further notions used to describe the queries *)

Section Description.

Context {dates : DateParser}.

Definition time_or_zero (o : option Z) : Z :=
  match o with Some t => t | None => 0 end.

Definition created_time (c : Campaign) : Z := time_or_zero (getTime (created_at c)).
Definition model_time (m : ModelPerformance) : Z := time_or_zero (getTime (mp_date m)).

Definition valid_created (cs : list Campaign) : Prop :=
  forall c, In c cs -> getTime (created_at c) <> None.

Definition valid_metric_dates (ms : list PerformanceMetric) : Prop :=
  forall m, In m ms -> getTime (m_date m) <> None.

Definition valid_model_dates (ms : list ModelPerformance) : Prop :=
  forall m, In m ms -> getTime (mp_date m) <> None.


(** Number of campaigns of brand [b]. *)
Definition brand_count (b : string) (cs : list Campaign) : nat :=
  List.length (filter (fun c => String.eqb (brand c) b) cs).

(** Reach of brand [b]: the window sums of its campaigns that have rows, added
    up in cache order. *)
Definition brand_reach (ms : list PerformanceMetric) (b : string) (cs : list Campaign)
  : number :=
  fold_left
    (fun total c =>
       if String.eqb (brand c) b && negb (Nat.eqb (List.length (last7 ms c)) 0)
       then nadd total (sum_of reach (last7 ms c)) else total)
    cs (Fin 0).

(** No own key of the dictionary is named like a property of
    [Object.prototype]. *)
Definition own_only {V} (o : Obj V) : Prop :=
  forall k, inherited k = true -> obj_get k o = None.

(** The campaigns, sensor readings, model rows and metric rows whose key is
    not named like a property of [Object.prototype]. *)
Definition own_campaigns (cs : list Campaign) : list Campaign :=
  filter (fun c => negb (inherited (brand c))) cs.

Definition own_readings (ss : list SensorData) : list SensorData :=
  filter (fun s => negb (inherited (sensor_type s))) ss.

Definition own_models (ms : list ModelPerformance) : list ModelPerformance :=
  filter (fun m => negb (inherited (model_type m))) ms.

(** What the dictionary holds for a brand [k] that is no inherited name after
    the campaigns [pre]. *)
Definition brand_totals_ok (ms : list PerformanceMetric) (pre : list Campaign)
  (acc : Obj BrandStats) : Prop :=
  forall k, inherited k = false ->
    match obj_get k acc with
    | Some st => st_campaigns st = brand_count k pre
                 /\ st_totalReach st = brand_reach ms k pre
    | None => brand_count k pre = 0%nat /\ brand_reach ms k pre = Fin 0
    end.

(** What the dictionary of latest models holds after the rows [pre]: for
    each type the kept row is one of that type with no later-dated rival. *)
Definition model_latest_ok (pre : list ModelPerformance) (acc : Obj ModelPerformance)
  : Prop :=
  forall t, inherited t = false ->
    match obj_get t acc with
    | Some cur =>
        In cur pre /\ model_type cur = t
        /\ forall m, In m pre -> model_type m = t -> model_time m <= model_time cur
    | None => forall m, In m pre -> model_type m <> t
    end.

(** The calendar-date part of a row's date. *)
Definition date_key (m : PerformanceMetric) : string := split_head "T" (m_date m).

Definition rows_of_day (k : string) (ms : list PerformanceMetric)
  : list PerformanceMetric :=
  filter (fun m => String.eqb (date_key m) k) ms.

(** The running totals of day [k] over [rows]. *)
Definition day_totals (k : string) (rows : list PerformanceMetric) : DayStats :=
  {| day_date := k; day_avgROI := sum_of roi rows;
     day_avgEngagement := sum_of engagement_rate rows;
     day_totalReach := sum_of reach rows; day_count := List.length rows |}.

(** What the dictionary of days holds, for a date [k] that is no inherited
    name, after the rows [pre]. *)
Definition day_stats_ok (pre : list PerformanceMetric) (acc : Obj DayStats) : Prop :=
  forall k, inherited k = false ->
    obj_get k acc
    = match rows_of_day k pre with
      | [] => None
      | _ :: _ => Some (day_totals k (rows_of_day k pre))
      end.

Definition point_time (p : TrendPoint) : Z := time_or_zero (getTime (tp_date p)).

(** Row [m] has a valid date, at or after the instant [t0]. *)
Definition dated_from (t0 : Z) (m : PerformanceMetric) : bool :=
  match getTime (m_date m) with Some t => t0 <=? t | None => false end.

(** The rows of day [k] dated at or after [t0], in cache order. *)
Definition rows_of_day_from (t0 : Z) (k : string) (ms : list PerformanceMetric)
  : list PerformanceMetric :=
  filter (fun m => String.eqb (date_key m) k && dated_from t0 m) ms.

(** The rows [performanceTrends(days)] keeps at clock reading [now]. *)
Definition retained (days : option Z) (now : Z) (ms : list PerformanceMetric)
  : list PerformanceMetric :=
  filter (on_or_after (cutoff_date now (match days with Some d => d | None => 30 end))) ms.

(** [w'] is [w] after [k] calls of [Math.random()] and nothing else. *)
Definition advanced (k : nat) (w w' : World) : Prop :=
  dataCache w' = dataCache w /\ forall i, random w' i = random w (k + i)%nat.

Fixpoint count_char (c : ascii) (s : string) : nat :=
  match s with
  | EmptyString => 0
  | String a s' => (if Ascii.eqb a c then 1 else 0) + count_char c s'
  end.

End Description.

(* ================================================================== *)
(** * Part II: lemmas and theorems                                      *)
(* ================================================================== *)

(** ** Facts about binary64 rounding *)

Module Binary64Facts.

Import Binary64.
Local Open Scope Q_scope.

(** Powers of two *)
Lemma pow2_pos e : 0 < pow2 e.
Proof. unfold pow2. apply Qpower_0_lt. reflexivity. Qed.

Lemma pow2_plus a b : pow2 (a + b) == pow2 a * pow2 b.
Proof. unfold pow2. apply Qpower_plus. discriminate. Qed.

Lemma pow2_le a b : (a <= b)%Z -> pow2 a <= pow2 b.
Proof. intros. unfold pow2. apply Qpower_le_compat_l; [assumption | discriminate]. Qed.

Lemma pow2_lt a b : (a < b)%Z -> pow2 a < pow2 b.
Proof. intros. unfold pow2. apply Qpower_lt_compat_l; [assumption | reflexivity]. Qed.

Lemma pow2_lt_inv a b : pow2 a < pow2 b -> (a < b)%Z.
Proof. intros. unfold pow2 in *. eapply Qpower_lt_compat_l_inv; [eassumption | reflexivity]. Qed.

Lemma pow2_inject (n : Z) : (0 <= n)%Z -> pow2 n == inject_Z (2 ^ n).
Proof. intros. unfold pow2. rewrite Zpower_Qpower by assumption. reflexivity. Qed.

(** Rounding to the nearest integer, ties to even *)
Lemma rne_spec q : nearest_even q (rne q).
Proof.
  destruct q as [n d]. unfold nearest_even, rne. cbn [Qnum Qden].
  pose proof (Z.div_mod n (Zpos d) ltac:(lia)) as Hdm.
  pose proof (Z.mod_pos_bound n (Zpos d) ltac:(lia)) as Hb.
  set (f := (n / Zpos d)%Z) in *. set (r := (n mod Zpos d)%Z) in *.
  destruct (Z.compare_spec (2 * r) (Zpos d)) as [He|He|He].
  - destruct (Z.even f) eqn:Hev.
    + unfold Qle, Qeq, Qminus, Qplus, Qopp, inject_Z; cbn. repeat split; try nia. intros _; assumption.
    + unfold Qle, Qeq, Qminus, Qplus, Qopp, inject_Z; cbn. repeat split; try nia.
      intros _. rewrite Z.even_add, Hev. reflexivity.
  - unfold Qle, Qeq, Qminus, Qplus, Qopp, inject_Z; cbn. repeat split; nia.
  - unfold Qle, Qeq, Qminus, Qplus, Qopp, inject_Z; cbn. repeat split; nia.
Qed.

Lemma nearest_even_mono q q' z z' :
  nearest_even q z -> nearest_even q' z' -> q <= q' -> (z <= z')%Z.
Proof.
  intros (L & U & E) (L' & U' & E') Hle.
  destruct (Z_le_gt_dec z z') as [|Hgt]; [assumption|exfalso].
  assert (Hz : inject_Z z' + 1 <= inject_Z z).
  { unfold Qle, Qplus, inject_Z; cbn; lia. }
  assert (Hq : q == inject_Z z - (1#2)) by lra.
  assert (Hq' : q' == inject_Z z' + (1#2)) by lra.
  assert (Hzz : inject_Z z == inject_Z z' + 1) by lra.
  assert (Hz1 : z = (z' + 1)%Z) by (unfold Qeq, Qplus, inject_Z in Hzz; cbn in Hzz; lia).
  specialize (E (or_introl Hq)). specialize (E' (or_intror Hq')).
  subst z. rewrite Z.even_add, E' in E. discriminate.
Qed.

Lemma rne_mono q q' : q <= q' -> (rne q <= rne q')%Z.
Proof. intros. eapply nearest_even_mono; eauto using rne_spec. Qed.

Lemma nearest_even_unique q z : nearest_even q z -> rne q = z.
Proof.
  intros H. apply Z.le_antisymm.
  - eapply nearest_even_mono; [apply rne_spec | exact H | apply Qle_refl].
  - eapply nearest_even_mono; [exact H | apply rne_spec | apply Qle_refl].
Qed.

#[global] Instance rne_compat : Proper (Qeq ==> eq) rne.
Proof.
  intros q q' E. apply nearest_even_unique.
  destruct (rne_spec q') as (L & U & T). unfold nearest_even. rewrite E.
  repeat split; assumption.
Qed.

Lemma rne_inject (z : Z) : rne (inject_Z z) = z.
Proof.
  apply nearest_even_unique. unfold nearest_even. repeat split; lra.
Qed.

Lemma rne_opp q : rne (- q) = (- rne q)%Z.
Proof.
  apply nearest_even_unique. destruct (rne_spec q) as (L & U & T).
  unfold nearest_even. rewrite inject_Z_opp. repeat split; try lra.
  rewrite Z.even_opp. intros [H|H]; apply T; [right|left]; lra.
Qed.

(** The binary logarithm *)
Lemma ilog2_spec x : 0 < x -> pow2 (ilog2 x) <= x /\ x < pow2 (ilog2 x + 1).
Proof.
  intros Hx. destruct x as [n d]. unfold ilog2. cbn [Qnum Qden].
  assert (Hn : (0 < n)%Z). { unfold Qlt in Hx. cbn in Hx. lia. }
  pose proof (Z.log2_spec n Hn) as [Ln Un].
  pose proof (Z.log2_spec (Zpos d) ltac:(lia)) as [Ld Ud].
  pose proof (Z.log2_nonneg n) as Nn. pose proof (Z.log2_nonneg (Zpos d)) as Nd.
  set (a := Z.log2 n) in *. set (b := Z.log2 (Zpos d)) in *.
  assert (Hnd : n # d == inject_Z n / inject_Z (Zpos d)).
  { rewrite (Qmake_Qdiv n d). reflexivity. }
  assert (Hdpos : 0 < inject_Z (Zpos d)). { unfold Qlt; cbn; lia. }
  (* bounds on n and d as rationals *)
  assert (QLn : pow2 a <= inject_Z n). { rewrite pow2_inject by lia. rewrite <- Zle_Qle. exact Ln. }
  assert (QUn : inject_Z n < pow2 (a + 1)). { rewrite pow2_inject by lia. rewrite <- Zlt_Qlt. replace (a+1)%Z with (Z.succ a) by lia. exact Un. }
  assert (QLd : pow2 b <= inject_Z (Zpos d)). { rewrite pow2_inject by lia. rewrite <- Zle_Qle. exact Ld. }
  assert (QUd : inject_Z (Zpos d) < pow2 (b + 1)). { rewrite pow2_inject by lia. rewrite <- Zlt_Qlt. replace (b+1)%Z with (Z.succ b) by lia. exact Ud. }
  assert (Hx' : n # d == inject_Z n * / inject_Z (Zpos d)) by (rewrite Hnd; reflexivity).
  pose proof (pow2_pos (a - b)) as P0. pose proof (pow2_pos b) as Pb.
  pose proof (pow2_pos (a - b - 1)) as P1. pose proof (pow2_pos (a - b + 1)) as P2.
  pose proof (pow2_pos (b + 1)) as Pb1.
  assert (Ea : pow2 a == pow2 (a - b) * pow2 b). { rewrite <- pow2_plus. replace (a - b + b)%Z with a by lia. reflexivity. }
  assert (Ea1 : pow2 (a + 1) == pow2 (a - b + 1) * pow2 b). { rewrite <- pow2_plus. replace (a - b + 1 + b)%Z with (a+1)%Z by lia. reflexivity. }
  assert (Eb1 : pow2 a == pow2 (a - b - 1) * pow2 (b + 1)). { rewrite <- pow2_plus. replace (a - b - 1 + (b + 1))%Z with a by lia. reflexivity. }
  (* x * d = n *)
  assert (Hmul : (n # d) * inject_Z (Zpos d) == inject_Z n).
  { rewrite Hx'. field. intro H0. rewrite H0 in Hdpos. discriminate. }
  set (x := n # d) in *. set (D := inject_Z (Zpos d)) in *. set (N := inject_Z n) in *.
  assert (Up : x < pow2 (a - b + 1)).
  { apply Qnot_le_lt. intro Hc.
    assert (pow2 (a - b + 1) * pow2 b <= x * D) by (apply Qmult_le_compat_nonneg; split; lra).
    lra. }
  assert (Lo : pow2 (a - b - 1) <= x).
  { apply Qnot_lt_le. intro Hc.
    assert (0 <= x) by (apply Qlt_le_weak; exact Hx).
    assert (x * D < pow2 (a - b - 1) * pow2 (b + 1)).
    { apply Qle_lt_trans with (pow2 (a - b - 1) * D).
      - apply Qmult_le_compat_r; lra.
      - apply Qmult_lt_l; lra. }
    lra. }
  destruct (Qle_bool (pow2 (a - b)) x) eqn:Hb.
  - apply Qle_bool_iff in Hb. split; assumption.
  - assert (~ pow2 (a - b) <= x). { intro Hc. apply Qle_bool_iff in Hc. congruence. }
    replace (a - b - 1 + 1)%Z with (a - b)%Z by lia. split; [assumption|]. apply Qnot_le_lt. assumption.
Qed.

Lemma ilog2_unique x l : pow2 l <= x -> x < pow2 (l + 1) -> ilog2 x = l.
Proof.
  intros L U. assert (Hx : 0 < x). { pose proof (pow2_pos l). lra. }
  destruct (ilog2_spec x Hx) as [L' U'].
  assert (l < ilog2 x + 1)%Z by (apply pow2_lt_inv; lra).
  assert (ilog2 x < l + 1)%Z by (apply pow2_lt_inv; lra).
  lia.
Qed.

Lemma ilog2_mono x y : 0 < x -> x <= y -> (ilog2 x <= ilog2 y)%Z.
Proof.
  intros Hx Hxy. destruct (ilog2_spec x Hx) as [L U].
  destruct (ilog2_spec y ltac:(lra)) as [L' U'].
  assert (ilog2 x < ilog2 y + 1)%Z by (apply pow2_lt_inv; lra). lia.
Qed.

Lemma Qabs_pos_of_nonzero x : ~ x == 0 -> 0 < Qabs x.
Proof.
  intros Hx. destruct (Qlt_le_dec 0 (Qabs x)) as [|Hle]; [assumption|].
  exfalso. apply Hx. pose proof (Qabs_nonneg x).
  assert (E : Qabs x == 0) by lra.
  destruct (Qlt_le_dec x 0).
  - rewrite Qabs_neg in E by lra. lra.
  - rewrite Qabs_pos in E by lra. lra.
Qed.

Lemma exponent_compat x y : ~ x == 0 -> x == y -> exponent x = exponent y.
Proof.
  intros NZ E. unfold exponent. f_equal. f_equal.
  assert (P : 0 < Qabs x) by (apply Qabs_pos_of_nonzero; assumption).
  destruct (ilog2_spec _ P) as [L U].
  symmetry. apply ilog2_unique; rewrite <- E; assumption.
Qed.

Lemma round64_eq x :
  ~ x == 0 -> round64 x == inject_Z (rne (x / pow2 (exponent x))) * pow2 (exponent x).
Proof.
  intros Hx. unfold round64.
  destruct (x ?= 0) eqn:C.
  - exfalso. apply Hx. apply Qeq_alt. exact C.
  - apply Qred_correct.
  - apply Qred_correct.
Qed.

Lemma round64_0 x : x == 0 -> round64 x == 0.
Proof. intros Hx. unfold round64. apply Qeq_alt in Hx. rewrite Hx. reflexivity. Qed.

#[global] Instance round64_compat : Proper (Qeq ==> Qeq) round64.
Proof.
  intros x y E. destruct (Qeq_dec x 0) as [Z0|NZ].
  - rewrite (round64_0 x Z0). rewrite round64_0; [reflexivity | rewrite <- E; assumption].
  - rewrite (round64_eq x NZ). rewrite (round64_eq y) by (rewrite <- E; assumption).
    rewrite <- (exponent_compat x y NZ E). generalize (exponent x); intros e.
    rewrite E. reflexivity.
Qed.

Lemma exponent_opp x : exponent (- x) = exponent x.
Proof. destruct x as [n d]. unfold exponent, Qabs, Qopp. cbn [Qnum Qden]. rewrite Z.abs_opp. reflexivity. Qed.

Lemma round64_opp x : round64 (- x) == - round64 x.
Proof.
  destruct (Qeq_dec x 0) as [Z0|NZ].
  - rewrite (round64_0 x Z0). rewrite round64_0; lra.
  - rewrite (round64_eq x NZ). rewrite round64_eq by lra.
    rewrite exponent_opp.
    assert (E : - x / pow2 (exponent x) == - (x / pow2 (exponent x))).
    { field. pose proof (pow2_pos (exponent x)). lra. }
    rewrite E, rne_opp, inject_Z_opp. ring.
Qed.

Lemma scale_unscale x e : x / pow2 e * pow2 e == x.
Proof. field. pose proof (pow2_pos e). lra. Qed.

Lemma round64_nonneg x : 0 <= x -> 0 <= round64 x.
Proof.
  intros Hx. destruct (Qeq_dec x 0) as [Z0|NZ].
  - rewrite (round64_0 x Z0). lra.
  - rewrite (round64_eq x NZ). pose proof (pow2_pos (exponent x)) as P.
    apply Qmult_le_0_compat; [|lra].
    assert (0 <= x / pow2 (exponent x)).
    { apply Qle_shift_div_l; [assumption | lra]. }
    change 0 with (inject_Z 0). rewrite <- Zle_Qle.
    rewrite <- (rne_inject 0). apply rne_mono. exact H.
Qed.

Lemma Qabs_pos_eq x : 0 <= x -> Qabs x = x.
Proof.
  destruct x as [n d]. unfold Qle, Qabs. cbn. intros H.
  rewrite Z.abs_eq by lia. reflexivity.
Qed.

Lemma exponent_spec x :
  0 < x ->
  (exponent x = -1074 /\ ilog2 x - 52 <= -1074)%Z \/
  (exponent x = ilog2 x - 52 /\ -1074 < exponent x)%Z.
Proof.
  intros Hx. unfold exponent. rewrite Qabs_pos_eq by lra. lia.
Qed.

Lemma round64_mono_pos x y : 0 < x -> x <= y -> round64 x <= round64 y.
Proof.
  intros Hx Hxy. assert (Hy : 0 < y) by lra.
  rewrite (round64_eq x) by lra. rewrite (round64_eq y) by lra.
  pose proof (ilog2_mono x y Hx Hxy) as Hl.
  destruct (ilog2_spec x Hx) as [Lx Ux]. destruct (ilog2_spec y Hy) as [Ly Uy].
  pose proof (pow2_pos (exponent x)) as Px. pose proof (pow2_pos (exponent y)) as Py.
  assert (Hexp : (exponent x <= exponent y)%Z).
  { unfold exponent. rewrite !Qabs_pos_eq by lra. lia. }
  destruct (Z.eq_dec (exponent x) (exponent y)) as [Ee|Ne].
  - rewrite <- Ee. apply Qmult_le_compat_r; [|lra].
    rewrite <- Zle_Qle. apply rne_mono.
    apply Qmult_le_compat_r; [assumption|]. apply Qlt_le_weak, Qinv_lt_0_compat, Px.
  - assert (Hlt : (exponent x < exponent y)%Z) by lia.
    destruct (exponent_spec y Hy) as [[E1 _]|[E2 _]].
    { exfalso. unfold exponent in Hlt at 1. lia. }
    assert (Hx53 : (ilog2 x + 1 <= exponent x + 53)%Z) by (unfold exponent; rewrite Qabs_pos_eq by lra; lia).
    apply Qle_trans with (pow2 (exponent y + 52)).
    + (* round64 x <= 2^(ex+53) <= 2^(ey+52) *)
      apply Qle_trans with (pow2 (exponent x + 53)).
      * rewrite (Z.add_comm (exponent x) 53), pow2_plus.
        apply Qmult_le_compat_r; [|lra].
        rewrite (pow2_inject 53) by lia. rewrite <- Zle_Qle.
        rewrite <- (rne_inject (2 ^ 53)). apply rne_mono.
        rewrite <- (pow2_inject 53) by lia.
        apply Qle_shift_div_r; [assumption|].
        rewrite <- pow2_plus, Z.add_comm.
        apply Qlt_le_weak. eapply Qlt_le_trans; [exact Ux|]. apply pow2_le. assumption.
      * apply pow2_le. lia.
    + rewrite (Z.add_comm (exponent y) 52), pow2_plus.
      apply Qmult_le_compat_r; [|lra].
      rewrite (pow2_inject 52) by lia. rewrite <- Zle_Qle.
      rewrite <- (rne_inject (2 ^ 52)) at 1. apply rne_mono.
      rewrite <- (pow2_inject 52) by lia.
      apply Qle_shift_div_l; [assumption|].
      rewrite <- pow2_plus. replace (52 + exponent y)%Z with (ilog2 y) by lia. assumption.
Qed.

Lemma round64_mono x y : x <= y -> round64 x <= round64 y.
Proof.
  intros Hxy.
  destruct (Qlt_le_dec 0 x) as [Px|Nx].
  - apply round64_mono_pos; assumption.
  - destruct (Qlt_le_dec y 0) as [Ny|Py].
    + assert (H : round64 (- y) <= round64 (- x)) by (apply round64_mono_pos; lra).
      rewrite !round64_opp in H. lra.
    + pose proof (round64_nonneg y Py).
      assert (H0 : 0 <= round64 (- x)) by (apply round64_nonneg; lra).
      rewrite round64_opp in H0. lra.
Qed.

Lemma round64_scaled_int x (k : Z) :
  x / pow2 (exponent x) == inject_Z k -> round64 x == x.
Proof.
  intros Hk. destruct (Qeq_dec x 0) as [Z0|NZ].
  - rewrite (round64_0 x Z0). symmetry. assumption.
  - rewrite (round64_eq x NZ), Hk, rne_inject, <- Hk. apply scale_unscale.
Qed.

Lemma round64_int (z : Z) : (Z.abs z <= 2 ^ 53)%Z -> round64 (inject_Z z) == inject_Z z.
Proof.
  intros Hz.
  assert (Hpos : forall n : Z, (0 < n <= 2 ^ 53)%Z -> round64 (inject_Z n) == inject_Z n).
  { intros n [Hn0 Hn].
    assert (Qn : 0 < inject_Z n) by (change 0 with (inject_Z 0); rewrite <- Zlt_Qlt; assumption).
    destruct (ilog2_spec _ Qn) as [L U].
    destruct (Z_le_gt_dec (exponent (inject_Z n)) 0) as [Hle|Hgt].
    - (* scaling by a non-negative power of two keeps an integer *)
      apply round64_scaled_int with (k := (n * 2 ^ (- exponent (inject_Z n)))%Z).
      rewrite inject_Z_mult, <- pow2_inject by lia.
      set (e := exponent (inject_Z n)).
      assert (E : pow2 (- e) * pow2 e == 1).
      { rewrite <- pow2_plus. replace (- e + e)%Z with 0%Z by lia. reflexivity. }
      pose proof (pow2_pos e). apply Qmult_inj_r with (z := pow2 e); [lra|].
      rewrite scale_unscale. rewrite <- Qmult_assoc, E. ring.
    - (* only 2^53 itself has a positive exponent *)
      destruct (exponent_spec _ Qn) as [[E1 _]|[E2 _]]; [lia|].
      assert (Hl : (53 <= ilog2 (inject_Z n))%Z) by lia.
      assert (Hn53 : inject_Z (2 ^ 53) <= inject_Z n).
      { rewrite <- pow2_inject by lia. eapply Qle_trans; [|exact L]. apply pow2_le. assumption. }
      rewrite <- Zle_Qle in Hn53. assert (n = (2 ^ 53)%Z) by lia. subst n.
      vm_compute. reflexivity. }
  destruct (Z.lt_trichotomy z 0) as [Hn|[H0|Hp]].
  - assert (H : round64 (inject_Z (- z)) == inject_Z (- z)) by (apply Hpos; lia).
    rewrite inject_Z_opp, round64_opp in H. lra.
  - subst. reflexivity.
  - apply Hpos. lia.
Qed.

Lemma Qred_inject_Z z : Qred (inject_Z z) = inject_Z z.
Proof.
  unfold Qred, inject_Z.
  pose proof (Z.ggcd_gcd z 1) as Hg. pose proof (Z.ggcd_correct_divisors z 1) as Hd.
  destruct (Z.ggcd z 1) as [g [aa bb]]. cbn in *. destruct Hd as [Ha Hb].
  rewrite Z.gcd_1_r in Hg. subst g. rewrite !Z.mul_1_l in *.
  subst z bb. reflexivity.
Qed.

Lemma round64_canonical x : Qred (round64 x) = round64 x.
Proof.
  unfold round64. destruct (x ?= 0); [reflexivity| |];
    apply Qred_complete, Qred_correct.
Qed.

(** An operation whose exact result is a small integer is exact. *)
Lemma round64_exact x (z : Z) :
  (Z.abs z <= 2 ^ 53)%Z -> x == inject_Z z -> round64 x = inject_Z z.
Proof.
  intros Hz Hx. rewrite <- round64_canonical, <- (Qred_inject_Z z).
  apply Qred_complete. rewrite Hx. apply round64_int. exact Hz.
Qed.

(** The model agrees with the hardware on the operations of the
    [pipelineHealth] counterexample and on a few inexact constants. *)
Example round64_matches_hardware :
  Q_of_float (23 / 40)%float = Some (round64 (23 # 40))
  /\ Q_of_float (23 / 40 * 100)%float = Some (round64 (round64 (23 # 40) * 100))
  /\ Q_of_float (1 / 10)%float = Some (round64 (1 # 10))
  /\ Q_of_float (1 / 3 + 2 / 3)%float = Some (round64 (round64 (1 # 3) + round64 (2 # 3))).
Proof. vm_compute. repeat split. Qed.

End Binary64Facts.

(** ** Overflow *)

Section RoundedFacts.

Import Binary64 Binary64Facts.
Local Open Scope Q_scope.

Lemma round64_nonpos x : x <= 0 -> round64 x <= 0.
Proof.
  intros H. rewrite <- (round64_0 0) by reflexivity. apply round64_mono, H.
Qed.

Lemma round64_pos_inv x : 0 < round64 x -> 0 < x.
Proof.
  intros H. destruct (Qlt_le_dec 0 x) as [|Hle]; [assumption|].
  pose proof (round64_nonpos x Hle). lra.
Qed.

Lemma round64_neg_inv x : round64 x < 0 -> x < 0.
Proof.
  intros H. destruct (Qlt_le_dec x 0) as [|Hge]; [assumption|].
  pose proof (round64_nonneg x Hge). lra.
Qed.

(** Rounding does not leave an interval whose bound is a double. *)
Lemma Qabs_round64_le x b : Qabs x <= b -> round64 b == b -> Qabs (round64 x) <= b.
Proof.
  intros Hx Hb. apply Qabs_Qle_condition in Hx. destruct Hx as [Hl Hu].
  apply Qabs_Qle_condition. split.
  - apply Qle_trans with (round64 (- b)); [|apply round64_mono, Hl].
    rewrite round64_opp. lra.
  - apply Qle_trans with (round64 b); [apply round64_mono, Hu | lra].
Qed.

Lemma rounded_finite x b :
  Qabs x <= b -> round64 b == b -> b < pow2 1024 -> rounded x = Fin (round64 x).
Proof.
  intros Hx Hb Hlt. unfold rounded. cbv zeta.
  destruct (Qle_bool (pow2 1024) (Qabs (round64 x))) eqn:E; [exfalso|reflexivity].
  apply Qle_bool_iff in E. pose proof (Qabs_round64_le x b Hx Hb). lra.
Qed.

(** A result within the integers that are exact is finite. *)
Lemma rounded_small x (z : Z) :
  (Z.abs z <= 2 ^ 53)%Z -> Qabs x <= inject_Z z -> rounded x = Fin (round64 x).
Proof.
  intros Hz Hx. apply (rounded_finite x (inject_Z z) Hx).
  - apply round64_int, Hz.
  - apply Qle_lt_trans with (inject_Z (2 ^ 53)).
    + rewrite <- Zle_Qle. lia.
    + rewrite <- pow2_inject by lia. apply pow2_lt. lia.
Qed.

(** An operation whose exact result is a small integer is exact. *)
Lemma rounded_exact x (z : Z) :
  (Z.abs z <= 2 ^ 53)%Z -> x == inject_Z z -> rounded x = Fin (inject_Z z).
Proof.
  intros Hz Hx. rewrite (rounded_small x (Z.abs z)).
  - f_equal. apply round64_exact; assumption.
  - lia.
  - rewrite Hx. unfold Qabs, inject_Z. cbn [Qnum Qden]. apply Qle_refl.
Qed.

(** The sign of a result survives rounding and overflow. *)
Lemma rounded_positive x : nsign (rounded x) = Gt -> 0 < x.
Proof.
  unfold rounded. cbv zeta.
  destruct (Qle_bool (pow2 1024) (Qabs (round64 x))).
  - destruct (round64 x ?= 0) eqn:C; cbn; try discriminate.
    intros _. apply round64_pos_inv. apply Qgt_alt. exact C.
  - cbn. intros C. apply round64_pos_inv. apply Qgt_alt. exact C.
Qed.

Lemma rounded_negative x : nsign (rounded x) = Lt -> x < 0.
Proof.
  unfold rounded. cbv zeta.
  destruct (Qle_bool (pow2 1024) (Qabs (round64 x))).
  - destruct (round64 x ?= 0) eqn:C; cbn; try discriminate.
    intros _. apply round64_neg_inv. apply Qlt_alt. exact C.
  - cbn. intros C. apply round64_neg_inv. apply Qlt_alt. exact C.
Qed.

Lemma rounded_not_NaN x : rounded x <> NaN.
Proof.
  unfold rounded. cbv zeta.
  destruct (Qle_bool (pow2 1024) (Qabs (round64 x))) eqn:E; [|discriminate].
  apply Qle_bool_iff in E. destruct (round64 x ?= 0) eqn:C; cbn; try discriminate.
  exfalso. apply Qeq_alt in C. rewrite C in E. cbn in E.
  pose proof (pow2_pos 1024). lra.
Qed.

End RoundedFacts.

(** ** Arrays and dictionaries *)

Section ArrayFacts.

Context {A : Type}.

Lemma sort_insert_length (cmp : A -> A -> option Z) x l :
  List.length (sort_insert cmp x l) = S (List.length l).
Proof.
  induction l as [|y l IH]; cbn; [reflexivity|].
  destruct (cmp x y) as [v|]; [destruct (0 <? v)|]; cbn; congruence.
Qed.

Lemma Array_sort_length (cmp : A -> A -> option Z) l :
  List.length (Array_sort cmp l) = List.length l.
Proof.
  induction l as [|x l IH]; cbn; [reflexivity|].
  rewrite sort_insert_length, IH. reflexivity.
Qed.

Lemma sort_insert_perm (cmp : A -> A -> option Z) x l :
  Permutation (x :: l) (sort_insert cmp x l).
Proof.
  induction l as [|y l IH]; cbn; [apply Permutation_refl|].
  destruct (cmp x y) as [v|]; [destruct (0 <? v)|]; try apply Permutation_refl.
  eapply Permutation_trans; [apply perm_swap|]. apply perm_skip, IH.
Qed.

Lemma Array_sort_perm (cmp : A -> A -> option Z) l : Permutation l (Array_sort cmp l).
Proof.
  induction l as [|x l IH]; cbn; [constructor|].
  eapply Permutation_trans; [apply perm_skip, IH | apply sort_insert_perm].
Qed.

Lemma Array_sort_nil_iff (cmp : A -> A -> option Z) l : Array_sort cmp l = [] <-> l = [].
Proof.
  split; intros H.
  - apply length_zero_iff_nil. rewrite <- (Array_sort_length cmp), H. reflexivity.
  - subst. reflexivity.
Qed.

(** [slice(0, 0)] is empty. *)
Lemma Array_slice_0_0 (l : list A) : Array_slice 0 (Some 0) l = [].
Proof.
  unfold Array_slice. cbn. rewrite Z.min_l by lia. cbn. reflexivity.
Qed.

(** [slice(0, -k)] drops the last [k] elements. *)
Lemma Array_slice_0_neg (l : list A) (e : Z) :
  e < 0 -> Array_slice 0 (Some e) l = firstn (List.length l - Z.to_nat (- e)) l.
Proof.
  intros He. unfold Array_slice. cbn [Z.ltb Z.compare].
  destruct (Z.ltb_spec e 0) as [_|]; [|lia].
  rewrite (Z.min_l 0) by lia. cbn [Z.to_nat skipn]. f_equal. lia.
Qed.

Lemma Array_slice_nil s e : Array_slice s e (@nil A) = [].
Proof. unfold Array_slice. cbn. rewrite skipn_nil, firstn_nil. reflexivity. Qed.

Lemma obj_set_not_nil {V} k (v : V) o : obj_set k v o <> [].
Proof. destruct o as [|[k' v'] o]; cbn; [|destruct (String.eqb k k')]; discriminate. Qed.

End ArrayFacts.

(** ** The state monad *)

Lemma mapM_cache {A B} (f : A -> M B) :
  (forall a w, dataCache (snd (f a w)) = dataCache w) ->
  forall l w, dataCache (snd (mapM f l w)) = dataCache w.
Proof.
  intros Hf l. induction l as [|a l IH]; intros w; cbn; [reflexivity|].
  unfold bind, ret. specialize (Hf a w). destruct (f a w) as [y w1]. cbn in Hf.
  specialize (IH w1). destruct (mapM f l w1) as [ys w2]. cbn in *. congruence.
Qed.

Lemma sensor_trend_cache w : dataCache (snd (sensor_trend w)) = dataCache w.
Proof.
  unfold sensor_trend, bind, ret, Math_random. cbv beta iota.
  destruct (ngt (Fin (random w 0%nat)) (Fin (1 # 2))); reflexivity.
Qed.

Lemma sensor_entry_cache s w : dataCache (snd (sensor_entry s w)) = dataCache w.
Proof.
  unfold sensor_entry, bind, ret. pose proof (sensor_trend_cache w) as H.
  destruct (sensor_trend w) as [t w1]. exact H.
Qed.

Section FrameFacts.

Context {dates : DateParser}.

Lemma getCampaignMetrics_cache id w :
  dataCache (snd (getCampaignMetrics id w)) = dataCache w.
Proof.
  unfold getCampaignMetrics, bind, read_cache, ret. cbn.
  destruct (metrics (dataCache w)); reflexivity.
Qed.

Lemma getActiveCampaigns_cache now w :
  dataCache (snd (getActiveCampaigns now w)) = dataCache w.
Proof.
  unfold getActiveCampaigns, bind, read_cache, ret. cbn.
  destruct (campaigns (dataCache w)); reflexivity.
Qed.

Lemma getBrandPerformance_cache w :
  dataCache (snd (getBrandPerformance w)) = dataCache w.
Proof.
  unfold getBrandPerformance, bind, read_cache, ret. cbn.
  destruct (campaigns (dataCache w)), (metrics (dataCache w)); reflexivity.
Qed.

Lemma getSensorStatus_cache w :
  dataCache (snd (getSensorStatus w)) = dataCache w.
Proof.
  unfold getSensorStatus, bind, read_cache. cbn.
  destruct (sensors (dataCache w)); [|reflexivity].
  apply mapM_cache. apply sensor_entry_cache.
Qed.

Lemma getModelPerformance_cache w :
  dataCache (snd (getModelPerformance w)) = dataCache w.
Proof.
  unfold getModelPerformance, bind, read_cache, ret. cbn.
  destruct (models (dataCache w)); reflexivity.
Qed.

Lemma getPerformanceTrends_cache days now w :
  dataCache (snd (getPerformanceTrends days now w)) = dataCache w.
Proof.
  unfold getPerformanceTrends, bind, read_cache, ret. cbn.
  destruct (metrics (dataCache w)); reflexivity.
Qed.

Lemma getDashboardSummary_cache now w :
  dataCache (snd (getDashboardSummary now w)) = dataCache w.
Proof.
  unfold getDashboardSummary, bind, read_cache, ret, Math_random. cbv beta iota zeta.
  pose proof (getActiveCampaigns_cache now w) as Ha.
  destruct (getActiveCampaigns now w) as [act w1].
  pose proof (getSensorStatus_cache w1) as Hs.
  destruct (getSensorStatus w1) as [st w2]. cbn [snd fst dataCache] in *. congruence.
Qed.

(** [getLatestCampaigns] touches no collection but the campaigns, and
    keeps the campaigns up to their order. *)
Lemma getLatestCampaigns_cache limit w :
  let c := dataCache w in
  let c' := dataCache (snd (getLatestCampaigns limit w)) in
  metrics c' = metrics c /\ assets c' = assets c /\ sensors c' = sensors c
  /\ models c' = models c /\ summary c' = summary c
  /\ campaigns c' = option_map (Array_sort by_created_desc) (campaigns c).
Proof.
  unfold getLatestCampaigns, bind, read_cache, ret, store_campaigns. cbn.
  destruct (campaigns (dataCache w)) eqn:E; cbn; rewrite ?E; repeat split; reflexivity.
Qed.

End FrameFacts.

(** ** Brand roll-up: the averages come from one campaign only *)

(** C1 (evaluated at the failing input).  Two campaigns of brand Nike have
    one metric row each, with ROI 2 and 4 and engagement 2 and 6.  The mean
    over the union of their windows is 3 (ROI) and 4 (engagement);
    [brandPerformance()] reports 4 and 6, the window of the campaign
    processed last, although it does add up the reach of both windows. *)
Theorem C1_brand_average_from_last_campaign_only :
  map (fun e => (bp_brand e, bp_campaigns e, bp_avgROI e, bp_avgEngagement e, bp_totalReach e))
    (fst (getBrandPerformance (dates := iso_dates) nike_world))
  = [("Nike", 2%nat, of_Z 4, of_Z 6, of_Z 300)]
  /\ union_average (dates := iso_dates) roi nike_metrics nike_campaigns "Nike" = of_Z 3
  /\ union_average (dates := iso_dates) engagement_rate nike_metrics nike_campaigns "Nike"
     = of_Z 4.
Proof. vm_compute. repeat split. Qed.

(** ** The cache under the queries *)

(** C2 (evaluated at the failing input).  With three campaigns cached oldest
    first, [latestCampaigns()] leaves them cached newest first: the sort runs
    on the cached array itself. *)
Theorem C2_latestCampaigns_reorders_cache :
  campaigns (dataCache three_world) = Some three_campaigns
  /\ campaigns (dataCache (snd (getLatestCampaigns (dates := iso_dates) None three_world)))
     = Some (rev three_campaigns)
  /\ rev three_campaigns <> three_campaigns.
Proof. vm_compute. repeat split. discriminate. Qed.

(** The seven other queries leave every cached collection as it was. *)
Lemma other_queries_keep_cache {dates : DateParser} (w : World) (now : Z) :
  (forall id, dataCache (snd (getCampaignMetrics id w)) = dataCache w)
  /\ dataCache (snd (getActiveCampaigns now w)) = dataCache w
  /\ dataCache (snd (getBrandPerformance w)) = dataCache w
  /\ dataCache (snd (getSensorStatus w)) = dataCache w
  /\ dataCache (snd (getModelPerformance w)) = dataCache w
  /\ (forall days, dataCache (snd (getPerformanceTrends days now w)) = dataCache w)
  /\ dataCache (snd (getDashboardSummary now w)) = dataCache w.
Proof.
  repeat split; intros;
    auto using getCampaignMetrics_cache, getActiveCampaigns_cache, getBrandPerformance_cache,
      getSensorStatus_cache, getModelPerformance_cache, getPerformanceTrends_cache,
      getDashboardSummary_cache.
Qed.

(** ** Missing data and failed loads *)

Lemma Promise_all6_Some {A B C D E F}
  (a : option A) (b : option B) (c : option C) (d : option D) (e : option E) (f : option F)
  a' b' c' d' e' f' :
  Promise_all6 a b c d e f = Some (a', b', c', d', e', f') ->
  a = Some a' /\ b = Some b' /\ c = Some c' /\ d = Some d' /\ e = Some e' /\ f = Some f'.
Proof.
  unfold Promise_all6.
  destruct a, b, c, d, e, f; intros H; try discriminate H.
  injection H as -> -> -> -> -> ->. repeat split.
Qed.

Lemma failed_fetch {A} (r : fetched A) j x : failed r -> fetch r = Some j -> j <> Some x.
Proof. intros [->| ->]; cbn; intros H; [discriminate H|]. injection H as <-. discriminate. Qed.

(** A failed fetch or an unparsable body makes [load()] resolve to [null]
    and leaves the cache as it was. *)
Lemma loadRealDataset_fallback (net : Network) (w : World) :
  load_fails net -> loadRealDataset net w = (None, w).
Proof.
  intros Hf. unfold loadRealDataset.
  destruct (Promise_all6 _ _ _ _ _ _) as [[[[[[cr mr] ar] sr] mo] su]|] eqn:E1;
    [|reflexivity].
  destruct (Promise_all6 cr mr ar sr mo su) as [[[[[[cs ms] az] ss] md] sm]|] eqn:E2;
    [exfalso|reflexivity].
  apply Promise_all6_Some in E1. destruct E1 as (F1 & F2 & F3 & F4 & F5 & F6).
  apply Promise_all6_Some in E2. destruct E2 as (G1 & G2 & G3 & G4 & G5 & G6).
  destruct Hf as [H|[H|[H|[H|[H|H]]]]].
  - exact (failed_fetch _ _ cs H F1 G1).
  - exact (failed_fetch _ _ ms H F2 G2).
  - exact (failed_fetch _ _ az H F3 G3).
  - exact (failed_fetch _ _ ss H F4 G4).
  - exact (failed_fetch _ _ md H F5 G5).
  - exact (failed_fetch _ _ sm H F6 G6).
Qed.

(** C7.  When one of the parallel fetches fails (or a body does not parse),
    [load()] resolves to [null] and the cache is untouched; a query whose cache
    entry is absent returns the empty list, and on the unloaded cache the
    dashboard summary has zero totals and averages and a pipeline health of
    100.  Every operation is a total function of the state: none raises. *)
Theorem C7_failed_load_and_missing_entries {dates : DateParser}
  (net : Network) (w : World) (now : Z) :
  (load_fails net -> loadRealDataset net w = (None, w))
  /\ (campaigns (dataCache w) = None ->
      (forall limit, getLatestCampaigns limit w = ([], w))
      /\ getActiveCampaigns now w = ([], w)
      /\ getBrandPerformance w = ([], w))
  /\ (metrics (dataCache w) = None ->
      (forall id, getCampaignMetrics id w = ([], w))
      /\ (forall days, getPerformanceTrends days now w = ([], w))
      /\ getBrandPerformance w = ([], w))
  /\ (sensors (dataCache w) = None -> getSensorStatus w = ([], w))
  /\ (models (dataCache w) = None -> getModelPerformance w = ([], w))
  /\ (dataCache w = empty_cache ->
      let d := fst (getDashboardSummary now w) in
      totalCampaigns d = 0%nat /\ activeCampaigns d = 0%nat
      /\ avgROI d = of_Z 0 /\ avgEngagement d = of_Z 0
      /\ pipelineHealth d = of_Z 100 /\ totalRecords d = 0%nat).
Proof.
  split; [apply loadRealDataset_fallback|].
  split; [|split; [|split; [|split]]].
  - intros H. unfold getLatestCampaigns, getActiveCampaigns, getBrandPerformance,
      bind, read_cache, ret. cbv beta iota zeta. rewrite H. repeat split.
  - intros H. unfold getCampaignMetrics, getPerformanceTrends, getBrandPerformance,
      bind, read_cache, ret. cbv beta iota zeta. rewrite H.
    repeat split. destruct (campaigns (dataCache w)); reflexivity.
  - intros H. unfold getSensorStatus, bind, read_cache, ret. cbv beta iota zeta.
    rewrite H. reflexivity.
  - intros H. unfold getModelPerformance, bind, read_cache, ret. cbv beta iota zeta.
    rewrite H. reflexivity.
  - destruct w as [c r]. cbn [dataCache]. intros ->. repeat split.
Qed.

Lemma C7_failed_load_and_missing_entries_witness :
  loadRealDataset broken_network three_world = (None, three_world)
  /\ getSensorStatus (dates := iso_dates) unloaded_world = ([], unloaded_world)
  /\ totalRecords (fst (getDashboardSummary (dates := iso_dates) demo_now unloaded_world))
     = 0%nat.
Proof.
  destruct (C7_failed_load_and_missing_entries (dates := iso_dates)
              broken_network three_world demo_now) as (Hload & _).
  destruct (C7_failed_load_and_missing_entries (dates := iso_dates)
              broken_network unloaded_world demo_now) as (_ & _ & _ & Hs & _ & Hd).
  split; [|split].
  - apply Hload. right. left. left. reflexivity.
  - apply Hs. reflexivity.
  - apply (Hd eq_refl).
Defined.

(** ** Dictionaries *)

Section ObjFacts.

Context {V : Type}.

Lemma obj_get_In k (v : V) o : obj_get k o = Some v -> In (k, v) o.
Proof.
  induction o as [|[k' v'] o IH]; cbn; [discriminate|].
  destruct (String.eqb_spec k k') as [->|Hne]; intros H.
  - injection H as ->. left. reflexivity.
  - right. apply IH, H.
Qed.

Lemma obj_get_None k (o : Obj V) : obj_get k o = None <-> ~ In k (obj_keys o).
Proof.
  induction o as [|[k' v'] o IH]; cbn; [tauto|].
  destruct (String.eqb_spec k k') as [->|Hne].
  - split; [discriminate | intros H; exfalso; apply H; left; reflexivity].
  - rewrite IH. split; intros H; [intros [E|E]; [congruence | tauto] | tauto].
Qed.

Lemma obj_set_In k (v : V) o k' v' :
  In (k', v') (obj_set k v o) -> (k' = k /\ v' = v) \/ In (k', v') o.
Proof.
  induction o as [|[k1 v1] o IH]; cbn.
  - intros [E|[]]. injection E as <- <-. left. split; reflexivity.
  - destruct (String.eqb_spec k k1) as [->|Hne]; cbn.
    + intros [E|H]; [injection E as <- <-; left; split; reflexivity | right; right; exact H].
    + intros [E|H]; [right; left; exact E|].
      destruct (IH H) as [?|?]; [left; assumption | right; right; assumption].
Qed.

Lemma obj_get_set_same k (v : V) o : obj_get k (obj_set k v o) = Some v.
Proof.
  induction o as [|[k1 v1] o IH]; cbn.
  - rewrite String.eqb_refl. reflexivity.
  - destruct (String.eqb_spec k k1) as [->|Hne]; cbn.
    + rewrite String.eqb_refl. reflexivity.
    + destruct (String.eqb_spec k k1); [contradiction | exact IH].
Qed.

Lemma obj_get_set_other k (v : V) o k' :
  k' <> k -> obj_get k' (obj_set k v o) = obj_get k' o.
Proof.
  intros Hne. induction o as [|[k1 v1] o IH]; cbn.
  - destruct (String.eqb_spec k' k); [contradiction | reflexivity].
  - destruct (String.eqb_spec k k1) as [->|Hne1]; cbn.
    + destruct (String.eqb_spec k' k1); [contradiction | reflexivity].
    + destruct (String.eqb_spec k' k1); [reflexivity | exact IH].
Qed.

(** Setting a key keeps the order of the keys; a new key goes last. *)
Lemma obj_keys_set k (v : V) o :
  obj_keys (obj_set k v o)
  = match obj_get k o with Some _ => obj_keys o | None => (obj_keys o ++ [k])%list end.
Proof.
  induction o as [|[k1 v1] o IH]; cbn; [reflexivity|].
  destruct (String.eqb_spec k k1) as [->|Hne]; cbn; [reflexivity|].
  unfold obj_keys in IH. rewrite IH. destruct (obj_get k o); reflexivity.
Qed.

Lemma obj_keys_set_In k (v : V) o k' :
  In k' (obj_keys (obj_set k v o)) <-> k' = k \/ In k' (obj_keys o).
Proof.
  rewrite obj_keys_set. destruct (obj_get k o) as [v0|] eqn:E.
  - split; [tauto|]. intros [->|H]; [|exact H].
    apply obj_get_In in E. unfold obj_keys. apply in_map_iff. exists (k, v0). tauto.
  - rewrite in_app_iff. cbn. intuition congruence.
Qed.

Lemma obj_keys_set_NoDup k (v : V) o :
  NoDup (obj_keys o) -> NoDup (obj_keys (obj_set k v o)).
Proof.
  intros H. rewrite obj_keys_set. destruct (obj_get k o) eqn:E; [exact H|].
  apply obj_get_None in E. apply NoDup_app; [exact H | repeat constructor; intros [] |].
  intros x Hx [<-|[]]. exact (E Hx).
Qed.

(** The own values of a dictionary are what its keys map to, in key order. *)
Lemma own_values_get (o : Obj V) :
  NoDup (obj_keys o) -> map Some (map snd o) = map (fun k => obj_get k o) (obj_keys o).
Proof.
  induction o as [|[k v] o IH]; cbn; [reflexivity|].
  intros H. inversion H as [|? ? Hnin Hnd]; subst.
  rewrite String.eqb_refl. f_equal. unfold obj_keys in *.
  rewrite (IH Hnd). apply map_ext_in. intros k' Hk'.
  destruct (String.eqb_spec k' k) as [->|]; [contradiction | reflexivity].
Qed.

Lemma obj_get_of_In k (v : V) (o : Obj V) :
  NoDup (obj_keys o) -> In (k, v) o -> obj_get k o = Some v.
Proof.
  induction o as [|[k1 v1] o IH]; intros Hnd Hin; [destruct Hin|].
  cbn in Hnd. inversion Hnd as [|? ? Hn Hd]; subst. cbn.
  destruct Hin as [E|Hin].
  - injection E as -> ->. rewrite String.eqb_refl. reflexivity.
  - destruct (String.eqb_spec k k1) as [->|_].
    + exfalso. apply Hn. unfold obj_keys. apply in_map_iff. exists (k1, v). tauto.
    + apply IH; assumption.
Qed.

(** *** Reading through the prototype *)

Lemma obj_read_own k (o : Obj V) :
  inherited k = false ->
  obj_read k o = match obj_get k o with Some v => Own v | None => Absent end.
Proof. intros H. unfold obj_read. rewrite H. reflexivity. Qed.

Lemma obj_read_inherited k (o : Obj V) :
  inherited k = true -> own_only o -> obj_read k o = Inherited.
Proof. intros H Ho. unfold obj_read. rewrite (Ho k H), H. reflexivity. Qed.

Lemma obj_read_Own k (o : Obj V) v : obj_read k o = Own v -> obj_get k o = Some v.
Proof.
  unfold obj_read. destruct (obj_get k o); [intros H; injection H as ->; reflexivity|].
  destruct (inherited k); discriminate.
Qed.

Lemma obj_read_Absent k (o : Obj V) :
  obj_read k o = Absent -> obj_get k o = None /\ inherited k = false.
Proof.
  unfold obj_read. destruct (obj_get k o); [discriminate|].
  destruct (inherited k); [discriminate | split; reflexivity].
Qed.

Lemma obj_read_Inherited k (o : Obj V) :
  obj_read k o = Inherited -> obj_get k o = None /\ inherited k = true.
Proof.
  unfold obj_read. destruct (obj_get k o); [discriminate|].
  destruct (inherited k); [split; reflexivity | discriminate].
Qed.

Lemma own_only_nil : own_only (@nil (string * V)).
Proof. intros k _. reflexivity. Qed.

Lemma own_only_set k (v : V) o :
  inherited k = false -> own_only o -> own_only (obj_set k v o).
Proof.
  intros Hk Ho k' Hk'. rewrite obj_get_set_other by congruence. apply Ho, Hk'.
Qed.

Lemma own_only_keys (o : Obj V) k :
  own_only o -> In k (obj_keys o) -> inherited k = false.
Proof.
  intros Ho Hin. destruct (inherited k) eqn:E; [|reflexivity].
  apply Ho in E. apply obj_get_None in E. contradiction.
Qed.

(** *** Enumeration: [Object.entries] and [Object.values] *)

Lemma insert_indexed_perm i (e : string * V) l :
  Permutation ((i, e) :: l) (insert_indexed i e l).
Proof.
  induction l as [|[j e'] l IH]; cbn; [apply Permutation_refl|].
  destruct (i <? j); [apply Permutation_refl|].
  eapply Permutation_trans; [apply perm_swap|]. apply perm_skip, IH.
Qed.

(** The enumeration lists every own property once. *)
Lemma obj_entries_perm (o : Obj V) : Permutation o (obj_entries o).
Proof.
  unfold obj_entries. induction o as [|e o IH]; [constructor|].
  cbn [indexed_entries named_entries filter].
  destruct (array_index (fst e)) as [i|].
  - eapply Permutation_trans; [apply perm_skip, IH|].
    change (e :: map snd (indexed_entries o) ++ named_entries o)%list
      with ((map snd ((i, e) :: indexed_entries o)) ++ named_entries o)%list.
    apply Permutation_app_tail. apply Permutation_map, insert_indexed_perm.
  - eapply Permutation_trans; [apply perm_skip, IH|].
    apply Permutation_middle.
Qed.

Lemma obj_entries_In (e : string * V) o : In e (obj_entries o) <-> In e o.
Proof.
  split; intros H.
  - apply (Permutation_in _ (Permutation_sym (obj_entries_perm o))), H.
  - apply (Permutation_in _ (obj_entries_perm o)), H.
Qed.

Lemma obj_entries_keys (o : Obj V) :
  Permutation (obj_keys o) (map fst (obj_entries o)).
Proof. unfold obj_keys. apply Permutation_map, obj_entries_perm. Qed.

Lemma obj_values_perm (o : Obj V) : Permutation (map snd o) (obj_values o).
Proof. unfold obj_values. apply Permutation_map, obj_entries_perm. Qed.

Lemma obj_values_In (v : V) o : In v (obj_values o) <-> exists k, In (k, v) o.
Proof.
  unfold obj_values. rewrite in_map_iff. split.
  - intros ([k v'] & E & Hin). cbn in E. subst v'. exists k. apply obj_entries_In, Hin.
  - intros (k & Hin). exists (k, v). split; [reflexivity | apply obj_entries_In, Hin].
Qed.

Lemma obj_values_length (o : Obj V) : List.length (obj_values o) = List.length o.
Proof.
  rewrite <- (Permutation_length (obj_values_perm o)). apply length_map.
Qed.

Lemma obj_values_nil_iff (o : Obj V) : obj_values o = [] <-> o = [].
Proof.
  split; intros H.
  - apply length_zero_iff_nil. rewrite <- obj_values_length, H. reflexivity.
  - subst. reflexivity.
Qed.

End ObjFacts.

(** ** Brand roll-up without metrics *)

Section BrandFacts.

Context {dates : DateParser}.


(** On a brand that is no inherited name the body creates or updates the
    record of the brand. *)
Lemma brand_step_own ms acc c :
  inherited (brand c) = false ->
  brand_step ms acc c
  = obj_set (brand c)
      (brand_update ms c
         (match obj_get (brand c) acc with Some st => st | None => new_brand end))
      acc.
Proof.
  intros H. unfold brand_step. rewrite obj_read_own by exact H.
  destruct (obj_get (brand c) acc); reflexivity.
Qed.

(** On an inherited name it leaves the dictionary alone. *)
Lemma brand_step_skip ms acc c :
  inherited (brand c) = true -> own_only acc -> brand_step ms acc c = acc.
Proof.
  intros H Ho. unfold brand_step. rewrite obj_read_inherited by assumption. reflexivity.
Qed.

Lemma brand_step_own_only ms acc c : own_only acc -> own_only (brand_step ms acc c).
Proof.
  intros Ho. destruct (inherited (brand c)) eqn:E.
  - rewrite brand_step_skip by assumption. exact Ho.
  - rewrite brand_step_own by exact E. apply own_only_set; assumption.
Qed.

Lemma brand_fold_own_only ms cs : forall acc,
  own_only acc -> own_only (fold_left (brand_step ms) cs acc).
Proof.
  induction cs as [|c cs IH]; intros acc Ho; cbn [fold_left]; [exact Ho|].
  apply IH, brand_step_own_only, Ho.
Qed.

(** The campaigns of inherited brand names play no part in the dictionary. *)
Lemma brand_fold_own ms cs : forall acc,
  own_only acc ->
  fold_left (brand_step ms) cs acc = fold_left (brand_step ms) (own_campaigns cs) acc.
Proof.
  induction cs as [|c cs IH]; intros acc Ho; [reflexivity|].
  cbn [fold_left own_campaigns filter]. fold (own_campaigns cs).
  destruct (inherited (brand c)) eqn:E; cbn [negb].
  - rewrite brand_step_skip by assumption. apply IH, Ho.
  - cbn [fold_left]. apply IH, brand_step_own_only, Ho.
Qed.




(** A campaign with metric rows replaces the averages of its brand by the
    means of its own window, whatever they were, and adds to the reach. *)
Lemma brand_step_overwrites ms acc c :
  inherited (brand c) = false ->
  last7 ms c <> [] ->
  exists st,
    obj_get (brand c) (brand_step ms acc c) = Some st
    /\ st_avgROI st
       = ndiv (sum_of roi (last7 ms c)) (of_nat (List.length (last7 ms c)))
    /\ st_avgEngagement st
       = ndiv (sum_of engagement_rate (last7 ms c)) (of_nat (List.length (last7 ms c)))
    /\ st_totalReach st
       = nadd (match obj_get (brand c) acc with
               | Some st0 => st_totalReach st0
               | None => Fin 0
               end)
           (sum_of reach (last7 ms c)).
Proof.
  intros Hb Hne. rewrite brand_step_own by exact Hb. rewrite obj_get_set_same.
  unfold brand_update. destruct (last7 ms c) as [|m l] eqn:E; [contradiction|].
  cbn [List.length Nat.ltb Nat.leb].
  eexists. split; [reflexivity|]. cbn [st_avgROI st_avgEngagement st_totalReach].
  destruct (obj_get (brand c) acc); repeat split; reflexivity.
Qed.

(** The keys of the dictionary are the brands met so far that are no
    inherited names. *)
Lemma brand_step_keys ms acc c k :
  In k (obj_keys (brand_step ms acc c))
  <-> (k = brand c /\ inherited k = false) \/ In k (obj_keys acc).
Proof.
  unfold brand_step. destruct (obj_read (brand c) acc) as [st0| |] eqn:E.
  - rewrite obj_keys_set_In. apply obj_read_Own, obj_get_In in E.
    assert (Hin : In (brand c) (obj_keys acc)).
    { unfold obj_keys. apply in_map_iff. exists (brand c, st0). tauto. }
    split; [intros [->|H]; right; assumption | intros [[-> _]|H]; [left; reflexivity | right; exact H]].
  - apply obj_read_Inherited in E. destruct E as [_ E].
    split; [tauto | intros [[-> Hk]|H]; [congruence | exact H]].
  - rewrite obj_keys_set_In. apply obj_read_Absent in E. destruct E as [_ E].
    split; [intros [->|H]; [left; split; [reflexivity | exact E] | right; exact H]
           | intros [[-> _]|H]; [left; reflexivity | right; exact H]].
Qed.

Lemma brand_fold_keys ms cs : forall acc k,
  In k (obj_keys (fold_left (brand_step ms) cs acc))
  <-> (In k (map brand cs) /\ inherited k = false) \/ In k (obj_keys acc).
Proof.
  induction cs as [|c cs IH]; intros acc k; cbn [fold_left map]; [cbn; tauto|].
  rewrite IH, brand_step_keys. cbn. intuition congruence.
Qed.

Lemma brand_step_NoDup ms acc c :
  NoDup (obj_keys acc) -> NoDup (obj_keys (brand_step ms acc c)).
Proof.
  intros H. unfold brand_step.
  destruct (obj_read (brand c) acc); try apply obj_keys_set_NoDup; exact H.
Qed.

Lemma brand_fold_NoDup ms cs : forall acc,
  NoDup (obj_keys acc) -> NoDup (obj_keys (fold_left (brand_step ms) cs acc)).
Proof.
  induction cs as [|c cs IH]; intros acc H; cbn [fold_left]; [exact H|].
  apply IH, brand_step_NoDup, H.
Qed.

(** The brands of the entries returned are the keys of the dictionary. *)
Lemma brand_entries_keys (acc : Obj BrandStats) :
  Permutation (obj_keys acc) (map bp_brand (map brand_entry (obj_entries acc))).
Proof.
  rewrite map_map. cbn [brand_entry bp_brand]. apply obj_entries_keys.
Qed.

End BrandFacts.




(** ** Random draws *)

Section DrawFacts.

Import Binary64 Binary64Facts.

Lemma Math_random_draws w :
  draws_ok w ->
  draws_ok (snd (Math_random w))
  /\ exists r, fst (Math_random w) = Fin r /\ (0 <= r /\ r < 1)%Q.
Proof.
  intros H. split.
  - intros i. apply (H (S i)).
  - exists (random w 0%nat). split; [reflexivity | apply H].
Qed.

Lemma mapM_Forall {A B} (f : A -> M B) (I : World -> Prop) (P : B -> Prop) :
  (forall a w, I w -> I (snd (f a w)) /\ P (fst (f a w))) ->
  forall l w, I w -> I (snd (mapM f l w)) /\ Forall P (fst (mapM f l w)).
Proof.
  intros Hf l. induction l as [|a l IH]; intros w Hw; cbn [mapM].
  - split; [exact Hw | constructor].
  - unfold bind, ret. destruct (Hf a w Hw) as [H1 H2].
    destruct (f a w) as [y w1]. cbn [fst snd] in *.
    destruct (IH w1 H1) as [H3 H4]. destruct (mapM f l w1) as [ys w2].
    cbn [fst snd] in *. split; [exact H3 | constructor; assumption].
Qed.

(** The product of [x] in [0, 1] and a positive integer [k] is finite and
    lies between 0 and [k]. *)
Lemma nmul_unit (x : Q) (k : Z) :
  (0 <= x /\ x <= 1)%Q -> 0 < k <= 2 ^ 53 ->
  nmul (Fin x) (of_Z k) = Fin (round64 (x * inject_Z k))
  /\ (0 <= round64 (x * inject_Z k) /\ round64 (x * inject_Z k) <= inject_Z k)%Q.
Proof.
  intros [Hx0 Hx1] Hk.
  assert (Qk : (0 < inject_Z k)%Q) by (change 0%Q with (inject_Z 0); rewrite <- Zlt_Qlt; lia).
  assert (H0 : (0 <= x * inject_Z k)%Q).
  { apply Qmult_le_0_compat; [assumption | apply Qlt_le_weak, Qk]. }
  assert (H1 : (x * inject_Z k <= inject_Z k)%Q).
  { rewrite <- (Qmult_1_l (inject_Z k)) at 2.
    apply Qmult_le_compat_r; [exact Hx1 | apply Qlt_le_weak, Qk]. }
  split; [|split].
  - unfold nmul, of_Z. apply (rounded_small _ k); [lia|].
    apply Qabs_Qle_condition. split; lra.
  - apply round64_nonneg, H0.
  - apply Qle_trans with (round64 (inject_Z k)); [apply round64_mono, H1|].
    rewrite round64_int by lia. apply Qle_refl.
Qed.

(** [Math.round(x * k)] for [x] in [0, 1] and a positive integer [k] is an
    integer between 0 and [k]. *)
Lemma round_scaled_unit (x : Q) (k : Z) :
  (0 <= x /\ x <= 1)%Q -> 0 < k <= 2 ^ 53 ->
  exists z, 0 <= z <= k /\ Math_round (nmul (Fin x) (of_Z k)) = of_Z z.
Proof.
  intros Hx Hk. destruct (nmul_unit x k Hx Hk) as (E & Hy0 & Hyk). rewrite E.
  unfold Math_round, of_Z. set (y := round64 (x * inject_Z k)) in *.
  exists (Qfloor (y + (1 # 2))). split; [|reflexivity].
  pose proof (Qfloor_le (y + (1 # 2))) as Hfl.
  pose proof (Qlt_floor (y + (1 # 2))) as Hlt.
  split.
  - assert (H : (inject_Z 0 < inject_Z (Qfloor (y + (1 # 2)) + 1))%Q).
    { eapply Qle_lt_trans; [|exact Hlt]. change (inject_Z 0) with 0%Q. lra. }
    rewrite <- Zlt_Qlt in H. lia.
  - assert (H : (inject_Z (Qfloor (y + (1 # 2))) < inject_Z (k + 1))%Q).
    { eapply Qle_lt_trans; [exact Hfl|]. rewrite inject_Z_plus.
      change (inject_Z 1) with 1%Q. lra. }
    rewrite <- Zlt_Qlt in H. lia.
Qed.

(** [Math.round(r * k)] for a draw [r] and a positive integer [k] is an
    integer between 0 and [k]. *)
Lemma round_scaled_draw (r : Q) (k : Z) :
  (0 <= r /\ r < 1)%Q -> 0 < k <= 2 ^ 53 ->
  exists z, 0 <= z <= k /\ Math_round (nmul (Fin r) (of_Z k)) = of_Z z.
Proof.
  intros [Hr0 Hr1] Hk. apply round_scaled_unit; [|exact Hk].
  split; [exact Hr0 | apply Qlt_le_weak, Hr1].
Qed.

(** Adding two small integers is exact. *)
Lemma nadd_of_Z (a b : Z) :
  Z.abs (a + b) <= 2 ^ 53 -> nadd (of_Z a) (of_Z b) = of_Z (a + b).
Proof.
  intros H. unfold nadd, of_Z.
  apply rounded_exact; [exact H | rewrite inject_Z_plus; apply Qeq_refl].
Qed.

Lemma jitter_range (r : Q) (k base : Z) :
  (0 <= r /\ r < 1)%Q -> 0 < k <= 1000 -> 0 <= base <= 1000 ->
  exists z, base <= z <= base + k
            /\ nadd (Math_round (nmul (Fin r) (of_Z k))) (of_Z base) = of_Z z.
Proof.
  intros Hr Hk Hb.
  destruct (round_scaled_draw r k Hr) as (z & Hz & E).
  { split; [lia|]. apply Z.le_trans with 1000; [lia | vm_compute; discriminate]. }
  exists (z + base). split; [lia|]. rewrite E. apply nadd_of_Z.
  apply Z.le_trans with 2000; [lia | vm_compute; discriminate].
Qed.

(** *** The text of [toFixed(1)] *)

Lemma uint_chars_digits u : forallb is_digit (uint_chars u) = true.
Proof. induction u; cbn; try assumption; reflexivity. Qed.

Lemma string_of_list_ascii_app l1 l2 :
  string_of_list_ascii (l1 ++ l2)
  = (string_of_list_ascii l1 ++ string_of_list_ascii l2)%string.
Proof. induction l1 as [|c l1 IH]; cbn; [reflexivity | rewrite IH; reflexivity]. Qed.

(** Below 1e21 a non-negative number is printed as digits, a point and one
    digit. *)
Lemma toFixed_1_format (q : Q) :
  (0 <= q)%Q -> (q < 10 ^ 21)%Q ->
  exists ip c, toFixed (Fin q) 1 = string_of_list_ascii (ip ++ ["."%char; c])
               /\ ip <> [] /\ forallb is_digit ip = true /\ is_digit c = true.
Proof.
  intros Hq Hlt. unfold toFixed.
  assert (Hbig : Qle_bool (10 ^ 21) (Qabs q) = false).
  { destruct (Qle_bool (10 ^ 21) (Qabs q)) eqn:E; [|reflexivity].
    apply Qle_bool_iff in E. rewrite Qabs_pos in E by exact Hq.
    exfalso. exact (Qlt_not_le _ _ Hlt E). }
  rewrite Hbig. cbv zeta.
  assert (Hs : match (q ?= 0)%Q with Lt => ["-"%char] | _ => [] end = []).
  { destruct (q ?= 0)%Q eqn:C; try reflexivity.
    apply Qlt_alt in C. exfalso. apply (Qlt_not_le _ _ C Hq). }
  rewrite Hs. cbn [app Nat.eqb].
  set (ds := decimal_digits (fixed_digits q 1)).
  set (padded := (repeat "0"%char (2 - List.length ds) ++ ds)%list).
  assert (Hd : forallb is_digit padded = true).
  { unfold padded. rewrite forallb_app. apply andb_true_intro. split.
    - apply forallb_forall. intros c Hc. apply repeat_spec in Hc. subst. reflexivity.
    - apply uint_chars_digits. }
  assert (Hlen : (2 <= List.length padded)%nat).
  { unfold padded. rewrite length_app, repeat_length.
    generalize (List.length ds). intros n. lia. }
  set (k := (List.length padded - 1)%nat).
  rewrite <- (firstn_skipn k padded) in Hd. rewrite forallb_app in Hd.
  apply andb_prop in Hd. destruct Hd as [Hd1 Hd2].
  assert (Hl1 : List.length (firstn k padded) = k) by (apply firstn_length_le; lia).
  assert (Hl2 : List.length (skipn k padded) = 1%nat) by (rewrite length_skipn; lia).
  destruct (skipn k padded) as [|c [|c' tl]] eqn:Es; cbn in Hl2; try discriminate.
  exists (firstn k padded), c. repeat split.
  - intros E. rewrite E in Hl1. unfold k in Hl1. cbn [List.length] in Hl1. lia.
  - exact Hd1.
  - cbn in Hd2. rewrite andb_true_r in Hd2. exact Hd2.
Qed.

Lemma sensor_trend_format w :
  draws_ok w -> draws_ok (snd (sensor_trend w)) /\ trend_format (fst (sensor_trend w)).
Proof.
  intros Hw. unfold sensor_trend, bind, ret.
  destruct (Math_random_draws w Hw) as [Hw1 (r & Er & Hr)].
  destruct (Math_random w) as [x w1]. cbn [fst snd] in *. subst x.
  destruct (ngt (Fin r) (Fin (1 # 2))).
  - split; [exact Hw1 | left; reflexivity].
  - destruct (Math_random_draws w1 Hw1) as [Hw2 (r' & Er' & Hr')].
    destruct (Math_random w1) as [x' w2]. cbn [fst snd] in *. subst x'.
    split; [exact Hw2|]. right.
    destruct (nmul_unit r' 10) as (En & Hn0 & Hn10).
    { split; [apply Hr' | apply Qlt_le_weak, Hr']. }
    { split; [lia | vm_compute; discriminate]. }
    destruct (toFixed_1_format (round64 (r' * inject_Z 10))) as (ip & c & E & Hne & Hip & Hc).
    { exact Hn0. }
    { eapply Qle_lt_trans; [exact Hn10 | reflexivity]. }
    exists ip, c. repeat split; try assumption.
    rewrite En, E.
    change (string_of_list_ascii ("-"%char :: ip ++ ["."%char; c; "%"%char]))
      with (String "-" (string_of_list_ascii (ip ++ ["."%char; c; "%"%char]))).
    change ("-" ++ string_of_list_ascii (ip ++ ["."%char; c]) ++ "%")%string
      with (String "-" (string_of_list_ascii (ip ++ ["."%char; c]) ++ "%")%string).
    f_equal.
    change "%"%string with (string_of_list_ascii ["%"%char]).
    rewrite <- string_of_list_ascii_app, <- app_assoc. reflexivity.
Qed.

Lemma sensor_entry_format s w :
  draws_ok w ->
  draws_ok (snd (sensor_entry s w)) /\ trend_format (ss_trend (fst (sensor_entry s w))).
Proof.
  intros Hw. unfold sensor_entry, bind, ret.
  destruct (sensor_trend_format w Hw) as [H1 H2].
  destruct (sensor_trend w) as [t w1]. cbn [fst snd ss_trend] in *. split; assumption.
Qed.

Lemma getSensorStatus_format {dates : DateParser} w :
  draws_ok w ->
  draws_ok (snd (getSensorStatus w))
  /\ Forall (fun e => trend_format (ss_trend e)) (fst (getSensorStatus w)).
Proof.
  intros Hw. unfold getSensorStatus, bind, read_cache. cbv beta iota zeta.
  destruct (sensors (dataCache w)) as [ss|].
  - apply (mapM_Forall sensor_entry draws_ok); [apply sensor_entry_format | exact Hw].
  - split; [exact Hw | constructor].
Qed.

Lemma demo_draws_ok c : draws_ok (world_of c).
Proof.
  intros i. unfold world_of, demo_draws. cbn [random].
  pose proof (Nat.mod_upper_bound (3 * i + 1) 8 ltac:(discriminate)) as Hb.
  set (m := ((3 * i + 1) mod 8)%nat) in *. clearbody m.
  unfold Qle, Qlt, Qdiv, Qmult, Qinv, inject_Z. cbn. lia.
Qed.

End DrawFacts.

(** C9.  Whatever the outcomes of the random draws (each in [0, 1)), the
    trend of every [sensorStatus()] entry is either the one-character string
    [+] or a minus sign followed by a decimal number with one fractional
    digit and a percent sign. *)
Theorem C9_sensor_trend_format {dates : DateParser} (w : World) :
  draws_ok w ->
  Forall (fun e => trend_format (ss_trend e)) (fst (getSensorStatus w)).
Proof. intros Hw. apply getSensorStatus_format, Hw. Qed.

Lemma C9_sensor_trend_format_witness :
  Forall (fun e => trend_format (ss_trend e))
    (fst (getSensorStatus (dates := iso_dates) latency_world)).
Proof.
  apply (C9_sensor_trend_format (dates := iso_dates) latency_world).
  apply demo_draws_ok.
Defined.

(** C10.  Whatever the outcomes of the random draws (each in [0, 1)),
    [dashboardSummary()] returns [dataFreshness] as an integer in [95, 100],
    [modelAccuracy] as an integer in [85, 95] and [systemLatency] as an
    integer in [100, 200]. *)
Theorem C10_dashboard_jitter_ranges {dates : DateParser} (w : World) (now : Z) :
  draws_ok w ->
  let d := fst (getDashboardSummary now w) in
  exists f a l : Z,
    dataFreshness d = of_Z f /\ 95 <= f <= 100
    /\ modelAccuracy d = of_Z a /\ 85 <= a <= 95
    /\ systemLatency d = of_Z l /\ 100 <= l <= 200.
Proof.
  intros Hw. unfold getDashboardSummary, bind, read_cache, ret. cbv beta iota zeta.
  assert (Ha : snd (getActiveCampaigns now w) = w).
  { unfold getActiveCampaigns, bind, read_cache, ret. cbv beta iota zeta.
    destruct (campaigns (dataCache w)); reflexivity. }
  destruct (getActiveCampaigns now w) as [act w1]. cbn [snd] in Ha. subst w1.
  destruct (getSensorStatus_format w Hw) as [Hw2 _].
  destruct (getSensorStatus w) as [st w2]. cbn [snd] in Hw2.
  destruct (Math_random_draws w2 Hw2) as [Hw3 (r1 & E1 & Hr1)].
  destruct (Math_random w2) as [x1 w3]. cbn [fst snd] in *. subst x1.
  destruct (Math_random_draws w3 Hw3) as [Hw4 (r2 & E2 & Hr2)].
  destruct (Math_random w3) as [x2 w4]. cbn [fst snd] in *. subst x2.
  destruct (Math_random_draws w4 Hw4) as [_ (r3 & E3 & Hr3)].
  destruct (Math_random w4) as [x3 w5]. cbn [fst snd] in *. subst x3.
  cbn [dataFreshness modelAccuracy systemLatency].
  destruct (jitter_range r1 5 95 Hr1) as (f & Hf & Ef); [lia | lia |].
  destruct (jitter_range r2 10 85 Hr2) as (a & Ha & Ea); [lia | lia |].
  destruct (jitter_range r3 100 100 Hr3) as (l & Hl & El); [lia | lia |].
  exists f, a, l. repeat split; try assumption; lia.
Qed.

Lemma C10_dashboard_jitter_ranges_witness :
  exists f a l : Z,
    dataFreshness (fst (getDashboardSummary (dates := iso_dates) demo_now latency_world))
    = of_Z f /\ 95 <= f <= 100
    /\ modelAccuracy (fst (getDashboardSummary (dates := iso_dates) demo_now latency_world))
       = of_Z a /\ 85 <= a <= 95
    /\ systemLatency (fst (getDashboardSummary (dates := iso_dates) demo_now latency_world))
       = of_Z l /\ 100 <= l <= 200.
Proof.
  apply (C10_dashboard_jitter_ranges (dates := iso_dates) latency_world demo_now).
  apply demo_draws_ok.
Defined.

(** ** The latest reading of each sensor type *)

Section SensorFacts.

Context {dates : DateParser}.

Lemma max_time_cons r rs :
  max_time (r :: rs)
  = Some (match max_time rs with Some m => Z.max (time_of r) m | None => time_of r end).
Proof. reflexivity. Qed.

Lemma max_time_snoc rs x :
  max_time (rs ++ [x])
  = Some (match max_time rs with Some m => Z.max m (time_of x) | None => time_of x end).
Proof.
  induction rs as [|r rs IH]; [reflexivity|].
  rewrite <- app_comm_cons, !max_time_cons, IH.
  destruct (max_time rs) as [m|]; f_equal; lia.
Qed.

Lemma max_time_upper rs m : max_time rs = Some m -> forall r, In r rs -> time_of r <= m.
Proof.
  revert m. induction rs as [|r0 rs IH]; intros m Hm r Hr; [destruct Hr|].
  rewrite max_time_cons in Hm. destruct (max_time rs) as [m'|] eqn:E; injection Hm as <-.
  - destruct Hr as [<-|Hr]; [lia|]. specialize (IH m' eq_refl r Hr). lia.
  - destruct rs as [|r1 rs]; [|discriminate E].
    destruct Hr as [<-|[]]. lia.
Qed.

Lemma max_time_attained rs m : max_time rs = Some m -> exists r, In r rs /\ time_of r = m.
Proof.
  revert m. induction rs as [|r0 rs IH]; intros m Hm; [discriminate Hm|].
  rewrite max_time_cons in Hm. destruct (max_time rs) as [m'|] eqn:E; injection Hm as <-.
  - destruct (Z.max_spec (time_of r0) m') as [[_ ->]|[_ ->]].
    + destruct (IH m' eq_refl) as (r & Hr & Et). exists r. split; [right; exact Hr | exact Et].
    + exists r0. split; [left; reflexivity | reflexivity].
  - exists r0. split; [left; reflexivity | reflexivity].
Qed.

Lemma readings_of_snoc t ss x :
  readings_of t (ss ++ [x])
  = (readings_of t ss ++ (if String.eqb (sensor_type x) t then [x] else []))%list.
Proof. unfold readings_of. rewrite filter_app. reflexivity. Qed.

Lemma latest_reading_In t ss s :
  latest_reading t ss = Some s -> In s ss /\ sensor_type s = t.
Proof.
  unfold latest_reading. destruct (max_time (readings_of t ss)) as [m|]; [|discriminate].
  intros H. apply find_some in H. destruct H as [H _].
  apply filter_In in H. destruct H as [H1 H2]. split; [exact H1|].
  apply String.eqb_eq, H2.
Qed.

Lemma latest_reading_None t ss : latest_reading t ss = None -> readings_of t ss = [].
Proof.
  unfold latest_reading. destruct (max_time (readings_of t ss)) as [m|] eqn:E.
  - intros H. exfalso. destruct (max_time_attained _ _ E) as (r & Hr & Et).
    pose proof (find_none _ _ H r Hr) as Hf. cbn in Hf. rewrite Et, Z.eqb_refl in Hf.
    discriminate.
  - intros _. destruct (readings_of t ss); [reflexivity | discriminate E].
Qed.

Lemma find_app_Some {A} (f : A -> bool) l1 l2 x :
  find f l1 = Some x -> find f (l1 ++ l2) = Some x.
Proof.
  induction l1 as [|a l1 IH]; cbn; [discriminate|].
  destruct (f a); [trivial | exact IH].
Qed.

Lemma find_app_None {A} (f : A -> bool) l1 l2 :
  (forall x, In x l1 -> f x = false) -> find f (l1 ++ l2) = find f l2.
Proof.
  induction l1 as [|a l1 IH]; cbn; intros H; [reflexivity|].
  rewrite (H a (or_introl eq_refl)). apply IH. intros x Hx. apply H. right. exact Hx.
Qed.

(** The new reading takes over exactly when its timestamp is strictly
    larger than the current maximum of its type. *)
Lemma latest_reading_snoc_same ss x :
  latest_reading (sensor_type x) (ss ++ [x])
  = match latest_reading (sensor_type x) ss with
    | None => Some x
    | Some cur => if time_of cur <? time_of x then Some x else Some cur
    end.
Proof.
  destruct (latest_reading (sensor_type x) ss) as [cur|] eqn:E.
  - unfold latest_reading in *. rewrite readings_of_snoc, String.eqb_refl, max_time_snoc.
    destruct (max_time (readings_of (sensor_type x) ss)) as [m|] eqn:Em; [|discriminate E].
    pose proof (find_some _ _ E) as [_ Hc]. cbn in Hc. apply Z.eqb_eq in Hc. rewrite Hc.
    destruct (Z.ltb_spec m (time_of x)) as [Hlt|Hge].
    + rewrite Z.max_r by lia. rewrite find_app_None.
      * cbn. rewrite Z.eqb_refl. reflexivity.
      * intros r Hr. pose proof (max_time_upper _ _ Em r Hr). apply Z.eqb_neq. lia.
    + rewrite Z.max_l by lia. apply find_app_Some, E.
  - pose proof (latest_reading_None _ _ E) as Hnil.
    unfold latest_reading. rewrite readings_of_snoc, String.eqb_refl, Hnil. cbn.
    rewrite Z.eqb_refl. reflexivity.
Qed.

Lemma latest_reading_snoc_other t ss x :
  sensor_type x <> t -> latest_reading t (ss ++ [x]) = latest_reading t ss.
Proof.
  intros Hne. unfold latest_reading. rewrite readings_of_snoc.
  destruct (String.eqb_spec (sensor_type x) t); [contradiction|].
  rewrite app_nil_r. reflexivity.
Qed.

Lemma time_gt_valid a b :
  getTime (timestamp a) <> None -> getTime (timestamp b) <> None ->
  time_gt (getTime (timestamp a)) (getTime (timestamp b)) = (time_of b <? time_of a).
Proof.
  unfold time_of, time_gt.
  destruct (getTime (timestamp a)), (getTime (timestamp b)); tauto.
Qed.

(** On a type that is no inherited name the body stores the reading when
    the type is new or the reading is later than the stored one. *)
Lemma sensor_step_own acc x :
  inherited (sensor_type x) = false ->
  sensor_step acc x
  = match obj_get (sensor_type x) acc with
    | None => obj_set (sensor_type x) x acc
    | Some cur =>
        if time_gt (getTime (timestamp x)) (getTime (timestamp cur))
        then obj_set (sensor_type x) x acc else acc
    end.
Proof.
  intros H. unfold sensor_step. cbv zeta. rewrite obj_read_own by exact H.
  destruct (obj_get (sensor_type x) acc); reflexivity.
Qed.

(** On an inherited name it stores nothing. *)
Lemma sensor_step_skip acc x :
  inherited (sensor_type x) = true -> own_only acc -> sensor_step acc x = acc.
Proof.
  intros H Ho. unfold sensor_step. cbv zeta.
  rewrite obj_read_inherited by assumption. reflexivity.
Qed.

Lemma sensor_step_own_only acc x : own_only acc -> own_only (sensor_step acc x).
Proof.
  intros Ho. destruct (inherited (sensor_type x)) eqn:E.
  - rewrite sensor_step_skip by assumption. exact Ho.
  - rewrite sensor_step_own by exact E.
    destruct (obj_get (sensor_type x) acc); [destruct (time_gt _ _)|];
      try exact Ho; apply own_only_set; assumption.
Qed.

Lemma sensor_fold_own ss : forall acc,
  own_only acc ->
  fold_left sensor_step ss acc = fold_left sensor_step (own_readings ss) acc.
Proof.
  induction ss as [|x ss IH]; intros acc Ho; [reflexivity|].
  cbn [fold_left own_readings filter]. fold (own_readings ss).
  destruct (inherited (sensor_type x)) eqn:E; cbn [negb].
  - rewrite sensor_step_skip by assumption. apply IH, Ho.
  - cbn [fold_left]. apply IH, sensor_step_own_only, Ho.
Qed.

(** The readings of inherited type names play no part. *)
Lemma latest_sensors_own ss : latest_sensors ss = latest_sensors (own_readings ss).
Proof. unfold latest_sensors. rewrite (sensor_fold_own ss [] own_only_nil). reflexivity. Qed.

Lemma own_readings_In ss s :
  In s (own_readings ss) <-> In s ss /\ inherited (sensor_type s) = false.
Proof.
  unfold own_readings. rewrite filter_In, negb_true_iff. reflexivity.
Qed.


Lemma readings_of_own t ss :
  inherited t = false -> readings_of t (own_readings ss) = readings_of t ss.
Proof.
  intros Ht. unfold readings_of, own_readings.
  induction ss as [|x ss IH]; [reflexivity|]. cbn [filter].
  destruct (String.eqb_spec (sensor_type x) t) as [E|Hne].
  - rewrite E, Ht. cbn [negb filter]. rewrite E, String.eqb_refl, IH. reflexivity.
  - destruct (inherited (sensor_type x)); cbn [negb filter]; [exact IH|].
    destruct (String.eqb_spec (sensor_type x) t); [contradiction | exact IH].
Qed.

Lemma latest_reading_own t ss :
  inherited t = false -> latest_reading t (own_readings ss) = latest_reading t ss.
Proof. intros Ht. unfold latest_reading. rewrite readings_of_own by exact Ht. reflexivity. Qed.

Lemma sensor_step_get acc ss x :
  inherited (sensor_type x) = false ->
  valid_timestamps (ss ++ [x]) ->
  (forall t, obj_get t acc = latest_reading t ss) ->
  forall t, obj_get t (sensor_step acc x) = latest_reading t (ss ++ [x]).
Proof.
  intros Hx Hv IH t. rewrite sensor_step_own by exact Hx.
  destruct (String.eqb_spec t (sensor_type x)) as [->|Hne].
  - rewrite latest_reading_snoc_same, <- (IH (sensor_type x)).
    destruct (obj_get (sensor_type x) acc) as [cur|] eqn:E.
    + assert (Hcur : In cur ss).
      { rewrite IH in E. apply latest_reading_In in E. tauto. }
      rewrite time_gt_valid.
      * destruct (time_of cur <? time_of x); [apply obj_get_set_same | exact E].
      * apply Hv. apply in_or_app. right. left. reflexivity.
      * apply Hv. apply in_or_app. left. exact Hcur.
    + apply obj_get_set_same.
  - rewrite latest_reading_snoc_other by congruence. rewrite <- IH.
    destruct (obj_get (sensor_type x) acc) as [cur|];
      [destruct (time_gt _ _)|]; try reflexivity; apply obj_get_set_other; exact Hne.
Qed.

Lemma fold_sensor_step_get ss :
  (forall s, In s ss -> inherited (sensor_type s) = false) ->
  valid_timestamps ss ->
  forall t, obj_get t (fold_left sensor_step ss []) = latest_reading t ss.
Proof.
  induction ss as [|x ss IH] using rev_ind; intros Ho Hv t; [reflexivity|].
  rewrite fold_left_app. cbn [fold_left]. apply sensor_step_get.
  - apply Ho. apply in_or_app. right. left. reflexivity.
  - exact Hv.
  - apply IH.
    + intros s Hs. apply Ho. apply in_or_app. left. exact Hs.
    + intros s Hs. apply Hv. apply in_or_app. left. exact Hs.
Qed.

(** The keys are the types met so far that are no inherited names. *)
Lemma sensor_step_keys acc x k :
  In k (obj_keys (sensor_step acc x))
  <-> (k = sensor_type x /\ inherited k = false) \/ In k (obj_keys acc).
Proof.
  unfold sensor_step. cbv zeta.
  destruct (obj_read (sensor_type x) acc) as [cur| |] eqn:E.
  - apply obj_read_Own, obj_get_In in E.
    assert (Hin : In (sensor_type x) (obj_keys acc)).
    { unfold obj_keys. apply in_map_iff. exists (sensor_type x, cur). tauto. }
    destruct (time_gt _ _); [rewrite obj_keys_set_In|].
    + split; [intros [->|H]; right; assumption
             | intros [[-> _]|H]; [left; reflexivity | right; exact H]].
    + split; [tauto | intros [[-> _]|H]; assumption].
  - apply obj_read_Inherited in E. destruct E as [_ E].
    split; [tauto | intros [[-> Hk]|H]; [congruence | exact H]].
  - rewrite obj_keys_set_In. apply obj_read_Absent in E. destruct E as [_ E].
    split; [intros [->|H]; [left; split; [reflexivity | exact E] | right; exact H]
           | intros [[-> _]|H]; [left; reflexivity | right; exact H]].
Qed.

Lemma fold_sensor_step_keys ss : forall acc k,
  In k (obj_keys (fold_left sensor_step ss acc))
  <-> (In k (map sensor_type ss) /\ inherited k = false) \/ In k (obj_keys acc).
Proof.
  induction ss as [|x ss IH]; intros acc k; cbn [fold_left map]; [cbn; tauto|].
  rewrite IH, sensor_step_keys. cbn. intuition congruence.
Qed.

Lemma sensor_step_NoDup acc x : NoDup (obj_keys acc) -> NoDup (obj_keys (sensor_step acc x)).
Proof.
  intros H. unfold sensor_step. cbv zeta. destruct (obj_read (sensor_type x) acc);
    [destruct (time_gt _ _)| |]; try apply obj_keys_set_NoDup; exact H.
Qed.

Lemma fold_sensor_step_NoDup ss : forall acc,
  NoDup (obj_keys acc) -> NoDup (obj_keys (fold_left sensor_step ss acc)).
Proof.
  induction ss as [|x ss IH]; intros acc H; cbn [fold_left]; [exact H|].
  apply IH, sensor_step_NoDup, H.
Qed.

(** Every stored reading comes from the input and is filed under its own
    type. *)
Lemma sensor_step_filed acc x k s :
  In (k, s) (sensor_step acc x) -> (s = x /\ k = sensor_type x) \/ In (k, s) acc.
Proof.
  unfold sensor_step. cbv zeta. destruct (obj_read (sensor_type x) acc);
    [destruct (time_gt _ _)| |]; intros H; try (right; exact H);
    apply obj_set_In in H; (destruct H as [[-> ->]|H]; [left; split; reflexivity | right; exact H]).
Qed.

Lemma sensor_fold_filed ss : forall acc k s,
  In (k, s) (fold_left sensor_step ss acc) ->
  (In s ss /\ sensor_type s = k) \/ In (k, s) acc.
Proof.
  induction ss as [|x ss IH]; intros acc k s Hin; cbn [fold_left] in Hin;
    [right; exact Hin|].
  destruct (IH _ _ _ Hin) as [[H1 H2]|H].
  - left. split; [right; exact H1 | exact H2].
  - destruct (sensor_step_filed _ _ _ _ H) as [[-> ->]|H'].
    + left. split; [left; reflexivity | reflexivity].
    + right. exact H'.
Qed.

Lemma latest_sensors_from_input ss s : In s (latest_sensors ss) -> In s ss.
Proof.
  unfold latest_sensors. intros H. apply obj_values_In in H. destruct H as (k & Hin).
  destruct (sensor_fold_filed ss [] k s Hin) as [[H _]|[]]. exact H.
Qed.

(** The types of the kept readings are the keys of the dictionary. *)
Lemma latest_sensors_types ss :
  Permutation (obj_keys (fold_left sensor_step ss [])) (map sensor_type (latest_sensors ss)).
Proof.
  unfold latest_sensors, obj_values. set (acc := fold_left sensor_step ss []).
  rewrite map_map.
  assert (E : map (fun e => sensor_type (snd e)) (obj_entries acc) = map fst (obj_entries acc)).
  { apply map_ext_in. intros [k s] Hin. cbn. apply (proj1 (obj_entries_In _ _)) in Hin.
    destruct (sensor_fold_filed ss [] k s Hin) as [[_ H]|[]]. exact H. }
  rewrite E. apply obj_entries_keys.
Qed.

(** One reading is kept per distinct sensor type that is no inherited name,
    and with valid timestamps it is the one with the maximum timestamp. *)
Lemma latest_sensors_spec ss :
  NoDup (map sensor_type (latest_sensors ss))
  /\ (forall t, In t (map sensor_type (latest_sensors ss))
                <-> In t (map sensor_type ss) /\ inherited t = false)
  /\ (valid_timestamps (own_readings ss) ->
      forall s, In s (latest_sensors ss) -> latest_reading (sensor_type s) ss = Some s).
Proof.
  pose proof (latest_sensors_types ss) as Hperm.
  pose proof (fold_sensor_step_NoDup ss [] (NoDup_nil _)) as Hnd.
  split; [exact (Permutation_NoDup Hperm Hnd)|]. split.
  - intros t. split; intros H.
    + apply (Permutation_in _ (Permutation_sym Hperm)) in H.
      apply (proj1 (fold_sensor_step_keys ss [] t)) in H. destruct H as [H|[]]. exact H.
    + apply (Permutation_in _ Hperm).
      apply (proj2 (fold_sensor_step_keys ss [] t)). left. exact H.
  - intros Hv s Hs. unfold latest_sensors in Hs. apply obj_values_In in Hs.
    destruct Hs as (k & Hin).
    assert (Hk : sensor_type s = k).
    { destruct (sensor_fold_filed ss [] k s Hin) as [[_ H]|[]]. exact H. }
    pose proof (obj_get_of_In k s _ Hnd Hin) as Hget.
    assert (Hi : inherited k = false).
    { apply (own_only_keys (fold_left sensor_step ss [])).
      - rewrite sensor_fold_own by apply own_only_nil.
        clear. induction (own_readings ss) as [|x l IH] using rev_ind; [apply own_only_nil|].
        rewrite fold_left_app. cbn [fold_left]. apply sensor_step_own_only, IH.
      - unfold obj_keys. apply in_map_iff. exists (k, s). tauto. }
    rewrite (sensor_fold_own ss [] own_only_nil) in Hget.
    rewrite fold_sensor_step_get in Hget.
    + rewrite Hk, <- (latest_reading_own k ss Hi). exact Hget.
    + intros x Hx. apply own_readings_In in Hx. tauto.
    + exact Hv.
Qed.

(** What [sensorStatus()] copies from the readings it keeps. *)
Lemma mapM_map {A B C} (f : A -> M B) (g : B -> C) (h : A -> C) :
  (forall a w, g (fst (f a w)) = h a) ->
  forall l w, map g (fst (mapM f l w)) = map h l.
Proof.
  intros Hf l. induction l as [|a l IH]; intros w; cbn [mapM map]; [reflexivity|].
  unfold bind, ret. specialize (Hf a w). destruct (f a w) as [y w1]. cbn [fst] in Hf.
  specialize (IH w1). destruct (mapM f l w1) as [ys w2]. cbn [fst map] in *. congruence.
Qed.

Lemma getSensorStatus_entries w ss :
  sensors (dataCache w) = Some ss ->
  map (fun e => (ss_name e, ss_value e, ss_status e, ss_timestamp e)) (fst (getSensorStatus w))
  = map (fun s => (toUpperCase (replace_first "_" " " (sensor_type s)),
                   value s, s_status s, timestamp s))
      (latest_sensors ss).
Proof.
  intros Hs. unfold getSensorStatus, bind, read_cache. cbv beta iota zeta. rewrite Hs.
  apply mapM_map. intros s w'. unfold sensor_entry, bind, ret.
  destruct (sensor_trend w') as [t w1]. reflexivity.
Qed.

End SensorFacts.

(** ** Pipeline health *)

Lemma filter_map_length {A B} (p : B -> bool) (g : A -> B) l :
  List.length (filter p (map g l)) = List.length (filter (fun x => p (g x)) l).
Proof.
  induction l as [|a l IH]; cbn; [reflexivity|].
  destruct (p (g a)); cbn; rewrite IH; reflexivity.
Qed.


Section HealthFacts.

Context {dates : DateParser}.




Lemma latest_sensors_nil_iff ss : latest_sensors ss = [] <-> own_readings ss = [].
Proof.
  split.
  - intros H. destruct (own_readings ss) as [|x l] eqn:E; [reflexivity|]. exfalso.
    assert (Hx : In x (own_readings ss)) by (rewrite E; left; reflexivity).
    apply own_readings_In in Hx. destruct Hx as [Hx Hi].
    destruct (latest_sensors_spec ss) as (_ & Hin & _).
    assert (Ht : In (sensor_type x) (map sensor_type (latest_sensors ss))).
    { apply Hin. split; [apply in_map, Hx | exact Hi]. }
    rewrite H in Ht. destruct Ht.
  - intros H. rewrite latest_sensors_own, H. reflexivity.
Qed.

Lemma pipeline_health_statuses (st : list SensorStatus) :
  pipeline_health st
  = let sts := map ss_status st in
    if (0 <? List.length sts)%nat
    then Math_round (nmul (ndiv (of_nat (List.length (filter is_OK sts)))
                             (of_nat (List.length sts))) (of_Z 100))
    else of_Z 100.
Proof.
  unfold pipeline_health. cbv zeta. rewrite length_map, filter_map_length. reflexivity.
Qed.

Lemma getDashboardSummary_pipelineHealth w now :
  pipelineHealth (fst (getDashboardSummary now w))
  = pipeline_health (fst (getSensorStatus w)).
Proof.
  unfold getDashboardSummary, bind, read_cache, ret, Math_random. cbv beta iota zeta.
  assert (Ha : snd (getActiveCampaigns now w) = w).
  { unfold getActiveCampaigns, bind, read_cache, ret. cbv beta iota zeta.
    destruct (campaigns (dataCache w)); reflexivity. }
  destruct (getActiveCampaigns now w) as [act w1]. cbn [snd] in Ha. subst w1.
  destruct (getSensorStatus w) as [st w2]. reflexivity.
Qed.


End HealthFacts.




(** ** Display names *)

(** C8 (evaluated at the failing input).  For the sensor type
    [data_quality_score] the entry is named [DATA QUALITY_SCORE]: only the
    first underscore is replaced, where the claim has [DATA QUALITY SCORE]. *)
Theorem C8_only_first_underscore_replaced :
  map ss_name (fst (getSensorStatus (dates := iso_dates) score_world))
  = ["DATA QUALITY_SCORE"]
  /\ display_name "data_quality_score" = "DATA QUALITY SCORE".
Proof. vm_compute. split; reflexivity. Qed.

(** The rest of the claim holds for the types that are not named like a
    property of [Object.prototype]: one entry per distinct such type,
    carrying the value, status and timestamp of the maximum-timestamp reading
    of that type, under a name in which the first underscore is a space.  A
    type named like such a property has no entry. *)
Lemma getSensorStatus_one_entry_per_type {dates : DateParser} (w : World) ss :
  sensors (dataCache w) = Some ss ->
  valid_timestamps ss ->
  exists kept,
    NoDup (map sensor_type kept)
    /\ (forall t, In t (map sensor_type kept)
                  <-> In t (map sensor_type ss) /\ inherited t = false)
    /\ (forall s, In s kept -> latest_reading (sensor_type s) ss = Some s)
    /\ map (fun e => (ss_name e, ss_value e, ss_status e, ss_timestamp e))
         (fst (getSensorStatus w))
       = map (fun s => (toUpperCase (replace_first "_" " " (sensor_type s)),
                        value s, s_status s, timestamp s)) kept.
Proof.
  intros Hs Hv. exists (latest_sensors ss).
  destruct (latest_sensors_spec ss) as (H1 & H2 & H3).
  split; [exact H1|]. split; [exact H2|]. split.
  - apply H3. intros s Hin. apply Hv. apply own_readings_In in Hin. tauto.
  - apply getSensorStatus_entries, Hs.
Qed.

(* ================================================================== *)
(** * Part III: the queries and their callers, one by one              *)
(* ================================================================== *)

(** ** Sorting by a key *)

Section SortFacts.

Context {A : Type} (cmp : A -> A -> option Z) (key : A -> Z).

Lemma sort_insert_In x l z : In z (sort_insert cmp x l) <-> z = x \/ In z l.
Proof.
  split; intros H.
  - apply (Permutation_in _ (Permutation_sym (sort_insert_perm cmp x l))) in H.
    destruct H as [<-|H]; [left; reflexivity | right; exact H].
  - apply (Permutation_in _ (sort_insert_perm cmp x l)).
    destruct H as [->|H]; [left; reflexivity | right; exact H].
Qed.

Lemma Array_sort_In l z : In z (Array_sort cmp l) <-> In z l.
Proof.
  split; intros H.
  - apply (Permutation_in _ (Permutation_sym (Array_sort_perm cmp l))), H.
  - apply (Permutation_in _ (Array_sort_perm cmp l)), H.
Qed.

Lemma sort_insert_sorted x l :
  (forall b, In b l -> cmp x b = Some (key x - key b)) ->
  StronglySorted (fun a b => key a <= key b) l ->
  StronglySorted (fun a b => key a <= key b) (sort_insert cmp x l).
Proof.
  intros Hc Hs. induction Hs as [|y l Hs IH Hy]; cbn.
  - repeat constructor.
  - rewrite (Hc y (or_introl eq_refl)).
    destruct (Z.ltb_spec 0 (key x - key y)) as [Hlt|Hge].
    + constructor.
      * apply IH. intros b Hb. apply Hc. right. exact Hb.
      * apply Forall_forall. intros z Hz. apply (proj1 (sort_insert_In _ _ _)) in Hz.
        destruct Hz as [->|Hz]; [lia|]. rewrite Forall_forall in Hy. apply Hy, Hz.
    + constructor; [constructor; assumption|].
      constructor; [lia|]. rewrite Forall_forall in *. intros z Hz.
      specialize (Hy z Hz). lia.
Qed.

(** With a comparator that subtracts keys the result is in key order. *)
Lemma Array_sort_sorted l :
  (forall a b, In a l -> In b l -> cmp a b = Some (key a - key b)) ->
  StronglySorted (fun a b => key a <= key b) (Array_sort cmp l).
Proof.
  induction l as [|x l IH]; intros Hc; cbn [Array_sort]; [constructor|].
  apply sort_insert_sorted.
  - intros b Hb. apply (proj1 (Array_sort_In _ _)) in Hb.
    apply Hc; [left; reflexivity | right; exact Hb].
  - apply IH. intros a b Ha Hb. apply Hc; right; assumption.
Qed.

(** Sorting a list that is already in key order changes nothing. *)
Lemma Array_sort_sorted_id l :
  (forall a b, In a l -> In b l -> cmp a b = Some (key a - key b)) ->
  StronglySorted (fun a b => key a <= key b) l ->
  Array_sort cmp l = l.
Proof.
  intros Hc Hs. induction Hs as [|x l Hs IH Hx]; [reflexivity|].
  cbn [Array_sort]. rewrite IH by (intros a b Ha Hb; apply Hc; right; assumption).
  destruct l as [|y l]; [reflexivity|]. cbn [sort_insert].
  rewrite (Hc x y (or_introl eq_refl) (or_intror (or_introl eq_refl))).
  rewrite Forall_forall in Hx. specialize (Hx y (or_introl eq_refl)).
  destruct (Z.ltb_spec 0 (key x - key y)); [lia | reflexivity].
Qed.

End SortFacts.

Lemma StronglySorted_app_inv {A} (R : A -> A -> Prop) l1 l2 :
  StronglySorted R (l1 ++ l2) ->
  StronglySorted R l1 /\ StronglySorted R l2
  /\ forall a b, In a l1 -> In b l2 -> R a b.
Proof.
  induction l1 as [|x l1 IH]; cbn; intros H.
  - split; [constructor|]. split; [exact H|]. intros a b [].
  - inversion H as [|? ? Hs Hx]; subst. destruct (IH Hs) as (H1 & H2 & H3).
    rewrite Forall_forall in Hx. split; [|split; [exact H2|]].
    + constructor; [exact H1|]. apply Forall_forall. intros z Hz. apply Hx.
      apply in_or_app. left. exact Hz.
    + intros a b [<-|Ha] Hb; [apply Hx, in_or_app; right; exact Hb | apply H3; assumption].
Qed.

Lemma StronglySorted_weaken {A} (R S : A -> A -> Prop) l :
  (forall a b, R a b -> S a b) -> StronglySorted R l -> StronglySorted S l.
Proof.
  intros HRS H. induction H as [|x l Hs IH Hx]; constructor; [exact IH|].
  rewrite Forall_forall in *. intros z Hz. apply HRS, Hx, Hz.
Qed.

(** [slice(0, n)] with [n >= 0] keeps the first [n] elements. *)
Lemma Array_slice_0_nonneg {A} (l : list A) (e : Z) :
  0 <= e -> Array_slice 0 (Some e) l = firstn (Z.to_nat e) l.
Proof.
  intros He. unfold Array_slice. cbn [Z.ltb Z.compare].
  destruct (Z.ltb_spec e 0) as [|_]; [lia|].
  rewrite (Z.min_l 0) by lia. cbn [Z.to_nat skipn].
  destruct (Z.le_gt_cases e (Z.of_nat (List.length l))) as [Hle|Hgt].
  - rewrite Z.min_l by lia. f_equal. lia.
  - rewrite Z.min_r by lia. rewrite !firstn_all2; [reflexivity | lia | lia].
Qed.

(** ** [latestCampaigns] *)

Section LatestCampaignsFacts.

Context {dates : DateParser}.

Lemma by_created_desc_key cs :
  valid_created cs ->
  forall a b, In a cs -> In b cs ->
    by_created_desc a b = Some ((- created_time a) - (- created_time b)).
Proof.
  intros Hv a b Ha Hb. unfold by_created_desc, created_time, time_sub, time_or_zero.
  pose proof (Hv a Ha) as Va. pose proof (Hv b Hb) as Vb.
  destruct (getTime (created_at a)), (getTime (created_at b)); try contradiction.
  f_equal. lia.
Qed.

Lemma sorted_by_created cs :
  valid_created cs ->
  StronglySorted (fun a b => created_time b <= created_time a)
    (Array_sort by_created_desc cs).
Proof.
  intros Hv.
  apply (StronglySorted_weaken (fun a b => - created_time a <= - created_time b)).
  - intros a b H. lia.
  - apply Array_sort_sorted. apply by_created_desc_key, Hv.
Qed.

Lemma sort_by_created_twice cs :
  valid_created cs ->
  Array_sort by_created_desc (Array_sort by_created_desc cs)
  = Array_sort by_created_desc cs.
Proof.
  intros Hv.
  assert (Hv' : valid_created (Array_sort by_created_desc cs)).
  { intros c Hc. apply Hv. apply (proj1 (Array_sort_In by_created_desc cs c)), Hc. }
  apply (Array_sort_sorted_id _ (fun c => - created_time c)).
  - apply by_created_desc_key, Hv'.
  - apply Array_sort_sorted. apply by_created_desc_key, Hv.
Qed.

End LatestCampaignsFacts.

(** ** [latestCampaigns] with a non-positive limit *)

(** C3, as stated, fails: with three campaigns loaded, [latestCampaigns(-1)]
    returns two of them. *)
Lemma C3_negative_limit_counterexample :
  -1 <= 0
  /\ campaigns (dataCache three_world) = Some three_campaigns
  /\ List.length (fst (getLatestCampaigns (dates := iso_dates) (Some (-1)) three_world)) = 2%nat.
Proof. vm_compute. repeat split. discriminate. Qed.

(** C3 (amended).  On a loaded campaign collection, [latestCampaigns(0)] is
    empty, and on an empty collection the result is empty for every limit,
    given or defaulted.  With a negative limit the result has all cached
    campaigns but [-limit] of them (so it is empty exactly when [-limit]
    reaches their number); when the creation dates are valid it is sorted
    newest first and the campaigns left out are the [-limit] oldest: the
    result followed by them is the cache sorted newest first, a campaign newer
    than a returned one is returned too. *)
Theorem C3_latestCampaigns_nonpositive_limit {dates : DateParser}
  (w : World) (cs : list Campaign) :
  campaigns (dataCache w) = Some cs ->
  fst (getLatestCampaigns (Some 0) w) = []
  /\ (cs = [] -> forall limit, fst (getLatestCampaigns limit w) = [])
  /\ (forall limit, limit < 0 ->
        let r := fst (getLatestCampaigns (Some limit) w) in
        List.length r = (List.length cs - Z.to_nat (- limit))%nat
        /\ (r = [] <-> Z.of_nat (List.length cs) <= - limit)
        /\ (forall c, In c r -> In c cs)
        /\ (valid_created cs ->
            r = firstn (List.length cs - Z.to_nat (- limit)) (Array_sort by_created_desc cs)
            /\ StronglySorted (fun a b => created_time b <= created_time a) r
            /\ (forall c c', In c r -> In c' cs -> created_time c < created_time c' ->
                             In c' r)
            /\ exists dropped,
                 List.length dropped = Nat.min (Z.to_nat (- limit)) (List.length cs)
                 /\ Permutation cs (r ++ dropped)
                 /\ StronglySorted (fun a b => created_time b <= created_time a)
                      (r ++ dropped))).
Proof.
  intros Hc. unfold getLatestCampaigns, bind, read_cache, ret, store_campaigns.
  cbv beta iota zeta. rewrite Hc. cbn [fst].
  split; [apply Array_slice_0_0|]. split.
  { intros -> limit. cbn. apply Array_slice_nil. }
  intros limit Hl. rewrite Array_slice_0_neg by assumption.
  rewrite Array_sort_length.
  pose proof (Array_sort_length by_created_desc cs) as Hlen.
  pose proof (Array_sort_perm by_created_desc cs) as Hperm.
  set (sorted := Array_sort by_created_desc cs) in *.
  set (n := (List.length cs - Z.to_nat (- limit))%nat).
  assert (Hfl : List.length (firstn n sorted) = n).
  { rewrite length_firstn, Hlen. unfold n. lia. }
  split; [exact Hfl|]. split; [|split].
  - split; intros H.
    + rewrite H in Hfl. cbn in Hfl. unfold n in Hfl. lia.
    + apply length_zero_iff_nil. rewrite Hfl. unfold n. lia.
  - intros c Hin. apply (Permutation_in _ (Permutation_sym Hperm)).
    rewrite <- (firstn_skipn n sorted). apply in_or_app. left. exact Hin.
  - intros Hv. split; [reflexivity|].
    pose proof (sorted_by_created cs Hv) as Hs. fold sorted in Hs.
    pose proof Hs as Hs'. rewrite <- (firstn_skipn n sorted) in Hs'.
    apply StronglySorted_app_inv in Hs'. destruct Hs' as (H1 & _ & H3).
    split; [exact H1|]. split.
    + intros c c' Hin Hin' Hlt.
      assert (Hc' : In c' sorted) by (apply (Permutation_in _ Hperm); exact Hin').
      rewrite <- (firstn_skipn n sorted) in Hc'.
      apply in_app_or in Hc'. destruct Hc' as [H|H]; [exact H|].
      specialize (H3 c c' Hin H). cbv beta in H3. lia.
    + exists (skipn n sorted). split; [|split].
      * rewrite length_skipn, Hlen. unfold n. lia.
      * rewrite firstn_skipn. exact Hperm.
      * rewrite firstn_skipn. exact Hs.
Qed.

Lemma C3_latestCampaigns_nonpositive_limit_witness :
  fst (getLatestCampaigns (dates := iso_dates) (Some 0) three_world) = []
  /\ fst (getLatestCampaigns (dates := iso_dates) (Some (-3)) three_world) = []
  /\ StronglySorted (fun a b => created_time (dates := iso_dates) b
                                <= created_time (dates := iso_dates) a)
       (fst (getLatestCampaigns (dates := iso_dates) (Some (-1)) three_world)).
Proof.
  destruct (C3_latestCampaigns_nonpositive_limit (dates := iso_dates)
              three_world three_campaigns eq_refl) as (H0 & _ & Hneg).
  split; [exact H0|]. split.
  - destruct (Hneg (-3) ltac:(lia)) as (_ & Hiff & _). apply Hiff. vm_compute. discriminate.
  - destruct (Hneg (-1) ltac:(lia)) as (_ & _ & _ & Hsorted).
    destruct Hsorted as (_ & Hs & _); [|exact Hs].
    intros c [<-|[<-|[<-|[]]]]; vm_compute; discriminate.
Defined.

(** X1.  With a non-negative limit and valid creation dates,
    [latestCampaigns(limit)] returns [min(limit, count)] campaigns of the
    cache, newest first, and they are the newest ones: a cached campaign
    created strictly later than a returned one is returned too. *)
Theorem X1_latestCampaigns_newest_first {dates : DateParser}
  (w : World) (cs : list Campaign) (limit : Z) :
  campaigns (dataCache w) = Some cs ->
  valid_created cs ->
  0 <= limit ->
  let r := fst (getLatestCampaigns (Some limit) w) in
  List.length r = Nat.min (Z.to_nat limit) (List.length cs)
  /\ StronglySorted (fun a b => created_time b <= created_time a) r
  /\ (forall c, In c r -> In c cs)
  /\ (forall c c', In c r -> In c' cs -> created_time c < created_time c' -> In c' r).
Proof.
  intros Hc Hv Hl. unfold getLatestCampaigns, bind, read_cache, ret, store_campaigns.
  cbv beta iota zeta. rewrite Hc. cbn [fst].
  rewrite Array_slice_0_nonneg by assumption.
  set (sorted := Array_sort by_created_desc cs).
  pose proof (sorted_by_created cs Hv) as Hs. fold sorted in Hs.
  rewrite <- (firstn_skipn (Z.to_nat limit) sorted) in Hs.
  apply StronglySorted_app_inv in Hs. destruct Hs as (H1 & _ & H3).
  split; [|split; [exact H1|split]].
  - rewrite length_firstn. unfold sorted. rewrite Array_sort_length. reflexivity.
  - intros c Hin. apply (proj1 (Array_sort_In by_created_desc cs c)). fold sorted.
    rewrite <- (firstn_skipn (Z.to_nat limit) sorted). apply in_or_app. left. exact Hin.
  - intros c c' Hin Hin' Hlt.
    assert (Hs' : In c' sorted) by (apply Array_sort_In; exact Hin').
    rewrite <- (firstn_skipn (Z.to_nat limit) sorted) in Hs'.
    apply in_app_or in Hs'. destruct Hs' as [H|H]; [exact H|].
    specialize (H3 c c' Hin H). cbv beta in H3. lia.
Qed.

Lemma X1_latestCampaigns_newest_first_witness :
  map campaign_id (fst (getLatestCampaigns (dates := iso_dates) (Some 2) three_world))
  = ["c3"; "c2"]
  /\ StronglySorted (fun a b => created_time (dates := iso_dates) b
                                <= created_time (dates := iso_dates) a)
       (fst (getLatestCampaigns (dates := iso_dates) (Some 2) three_world)).
Proof.
  assert (Hv : valid_created (dates := iso_dates) three_campaigns).
  { intros c [<-|[<-|[<-|[]]]]; vm_compute; discriminate. }
  destruct (X1_latestCampaigns_newest_first (dates := iso_dates) three_world
              three_campaigns 2 eq_refl Hv ltac:(lia)) as (_ & Hs & _).
  split; [vm_compute; reflexivity | exact Hs].
Defined.

(** X2.  With valid creation dates [latestCampaigns] is idempotent: after a
    first call, a second one returns what it would have returned before the
    first and leaves the cache and the random stream as the first call left
    them. *)
Theorem X2_latestCampaigns_idempotent {dates : DateParser}
  (w : World) (cs : list Campaign) (limit limit' : option Z) :
  campaigns (dataCache w) = Some cs ->
  valid_created cs ->
  getLatestCampaigns limit' (snd (getLatestCampaigns limit w))
  = (fst (getLatestCampaigns limit' w), snd (getLatestCampaigns limit w)).
Proof.
  intros Hc Hv. unfold getLatestCampaigns, bind, read_cache, ret, store_campaigns.
  cbv beta iota zeta. rewrite Hc. cbn [fst snd dataCache campaigns random metrics assets
    sensors models summary].
  rewrite (sort_by_created_twice cs Hv). reflexivity.
Qed.

Lemma X2_latestCampaigns_idempotent_witness :
  getLatestCampaigns (dates := iso_dates) (Some 1)
    (snd (getLatestCampaigns (dates := iso_dates) None three_world))
  = (fst (getLatestCampaigns (dates := iso_dates) (Some 1) three_world),
     snd (getLatestCampaigns (dates := iso_dates) None three_world)).
Proof.
  apply (X2_latestCampaigns_idempotent (dates := iso_dates) three_world three_campaigns
           None (Some 1) eq_refl).
  intros c [<-|[<-|[<-|[]]]]; vm_compute; discriminate.
Defined.

(** X3.  [latestCampaigns] only reorders the cached campaigns: afterwards the
    cache holds a permutation of the same campaign records, every other
    collection is untouched and no random number has been drawn. *)
Theorem X3_latestCampaigns_only_reorders {dates : DateParser}
  (w : World) (limit : option Z) :
  let w' := snd (getLatestCampaigns limit w) in
  match campaigns (dataCache w), campaigns (dataCache w') with
  | Some cs, Some cs' => Permutation cs cs'
  | None, None => True
  | _, _ => False
  end
  /\ metrics (dataCache w') = metrics (dataCache w)
  /\ assets (dataCache w') = assets (dataCache w)
  /\ sensors (dataCache w') = sensors (dataCache w)
  /\ models (dataCache w') = models (dataCache w)
  /\ summary (dataCache w') = summary (dataCache w)
  /\ random w' = random w.
Proof.
  cbv zeta. destruct (getLatestCampaigns_cache limit w) as (H1 & H2 & H3 & H4 & H5 & H6).
  rewrite H6. split; [|repeat split; try assumption].
  - destruct (campaigns (dataCache w)); cbn; [apply Array_sort_perm | exact I].
  - unfold getLatestCampaigns, bind, read_cache, ret, store_campaigns.
    cbv beta iota zeta. destruct (campaigns (dataCache w)); reflexivity.
Qed.

(** ** [campaignMetrics] and [activeCampaigns] *)



(** X5.  [activeCampaigns()] returns, in cache order, exactly the cached
    campaigns whose status is [Active] and whose start and end dates are valid
    and enclose the current time, both ends included; a campaign with an
    unparsable start or end date is never active. *)
Theorem X5_activeCampaigns_membership {dates : DateParser}
  (w : World) (cs : list Campaign) (now : Z) :
  campaigns (dataCache w) = Some cs ->
  let r := fst (getActiveCampaigns now w) in
  (forall c, In c r <->
     In c cs /\ status c = "Active"
     /\ exists s e, getTime (start_date c) = Some s /\ getTime (end_date c) = Some e
                    /\ s <= now <= e)
  /\ exists keep, r = filter keep cs.
Proof.
  intros Hc. unfold getActiveCampaigns, bind, read_cache, ret.
  cbv beta iota zeta. rewrite Hc. cbn [fst]. split; [|eexists; reflexivity].
  intros c. rewrite filter_In. unfold is_active, time_le, time_ge.
  rewrite !andb_true_iff, String.eqb_eq.
  destruct (getTime (start_date c)) as [s|], (getTime (end_date c)) as [e|].
  - rewrite !Z.leb_le. split.
    + intros (Hin & (Hs & H1) & H2). split; [exact Hin|]. split; [exact Hs|].
      exists s, e. repeat split; try reflexivity; assumption.
    + intros (Hin & Hs & s' & e' & Es & Ee & H1 & H2).
      injection Es as <-. injection Ee as <-. tauto.
  - split; [intros (_ & _ & H); discriminate H|].
    intros (_ & _ & s' & e' & _ & Ee & _). discriminate Ee.
  - split; [intros (_ & (_ & H) & _); discriminate H|].
    intros (_ & _ & s' & e' & Es & _). discriminate Es.
  - split; [intros (_ & _ & H); discriminate H|].
    intros (_ & _ & s' & e' & Es & _). discriminate Es.
Qed.

Lemma X5_activeCampaigns_membership_witness :
  In (campaign "c1" "Nike" "2024-01-01")
    (fst (getActiveCampaigns (dates := iso_dates) 1717877700000 three_world)).
Proof.
  apply (proj1 (X5_activeCampaigns_membership (dates := iso_dates) three_world
                  three_campaigns 1717877700000 eq_refl)).
  split; [left; reflexivity|]. split; [reflexivity|].
  exists 1704067200000, 1735603200000. repeat split; try reflexivity; lia.
Defined.

(** ** [brandPerformance] *)

Section BrandRollupFacts.

Context {dates : DateParser}.

Lemma brand_count_snoc b pre c :
  brand_count b (pre ++ [c])
  = (brand_count b pre + (if String.eqb (brand c) b then 1 else 0))%nat.
Proof.
  unfold brand_count. rewrite filter_app, length_app. cbn [filter].
  destruct (String.eqb (brand c) b); reflexivity.
Qed.

Lemma brand_reach_snoc ms b pre c :
  brand_reach ms b (pre ++ [c])
  = if String.eqb (brand c) b && negb (Nat.eqb (List.length (last7 ms c)) 0)
    then nadd (brand_reach ms b pre) (sum_of reach (last7 ms c))
    else brand_reach ms b pre.
Proof. unfold brand_reach. rewrite fold_left_app. reflexivity. Qed.

Lemma brand_step_totals ms pre acc c :
  own_only acc ->
  brand_totals_ok ms pre acc -> brand_totals_ok ms (pre ++ [c]) (brand_step ms acc c).
Proof.
  intros Ho Hinv k Hk. rewrite brand_count_snoc, brand_reach_snoc.
  destruct (inherited (brand c)) eqn:Ec.
  - rewrite brand_step_skip by assumption.
    destruct (String.eqb_spec (brand c) k) as [E|Hne]; [congruence|].
    cbn [andb]. rewrite Nat.add_0_r. apply Hinv, Hk.
  - rewrite brand_step_own by exact Ec. unfold brand_update.
    destruct (String.eqb_spec (brand c) k) as [<-|Hne].
    + rewrite obj_get_set_same. specialize (Hinv (brand c) Hk). cbn [andb].
      destruct (List.length (last7 ms c)) as [|n] eqn:En;
        cbn [Nat.ltb Nat.leb Nat.eqb negb st_campaigns st_totalReach];
        destruct (obj_get (brand c) acc) as [st0|]; destruct Hinv as [H1 H2];
        cbn [new_brand st_campaigns st_totalReach]; rewrite ?H1, ?H2;
        split; try reflexivity; lia.
    + rewrite obj_get_set_other by congruence. cbn [andb].
      specialize (Hinv k Hk). destruct (obj_get k acc); destruct Hinv as [H1 H2];
        rewrite ?H1, ?H2; split; try reflexivity; lia.
Qed.

Lemma brand_fold_totals ms cs : brand_totals_ok ms cs (fold_left (brand_step ms) cs []).
Proof.
  induction cs as [|c cs IH] using rev_ind.
  - intros k _. cbn. split; reflexivity.
  - rewrite fold_left_app. cbn [fold_left]. apply brand_step_totals; [|exact IH].
    apply brand_fold_own_only, own_only_nil.
Qed.

(** Later campaigns of the brand without rows leave its averages alone. *)
Lemma brand_fold_keeps_averages ms b x y post : forall acc st,
  obj_get b acc = Some st -> st_avgROI st = x -> st_avgEngagement st = y ->
  (forall c, In c post -> brand c = b -> last7 ms c = []) ->
  exists st', obj_get b (fold_left (brand_step ms) post acc) = Some st'
              /\ st_avgROI st' = x /\ st_avgEngagement st' = y.
Proof.
  induction post as [|c post IH]; intros acc st Hg Hx Hy Hpost; cbn [fold_left].
  - exists st. repeat split; assumption.
  - assert (Hstep : exists st1, obj_get b (brand_step ms acc c) = Some st1
                                /\ st_avgROI st1 = x /\ st_avgEngagement st1 = y).
    { unfold brand_step. destruct (String.eqb_spec (brand c) b) as [E|Hne].
      - unfold obj_read. rewrite E, Hg, obj_get_set_same. unfold brand_update.
        rewrite (Hpost c (or_introl eq_refl) E).
        cbn [List.length Nat.ltb Nat.leb]. eexists. split; [reflexivity|].
        split; assumption.
      - destruct (obj_read (brand c) acc);
          rewrite ?obj_get_set_other by congruence; exists st; repeat split; assumption. }
    destruct Hstep as (st1 & Hg1 & Hx1 & Hy1).
    apply (IH _ st1 Hg1 Hx1 Hy1). intros c' Hc'. apply Hpost. right. exact Hc'.
Qed.

End BrandRollupFacts.

(** X6.  When no brand is named like a property of [Object.prototype] and the
    metric dates are valid, [brandPerformance()] has exactly one entry per
    brand of the campaigns; its [campaigns] field is the number of cached
    campaigns of that brand (at least one), and its [totalReach] is the sum,
    accumulated in cache order, of the seven-row-window reach of every
    campaign of the brand that has rows. *)
Theorem X6_brandPerformance_counts_and_reach {dates : DateParser}
  (w : World) (cs : list Campaign) (ms : list PerformanceMetric) :
  campaigns (dataCache w) = Some cs ->
  metrics (dataCache w) = Some ms ->
  (forall c, In c cs -> inherited (brand c) = false) ->
  valid_metric_dates ms ->
  let r := fst (getBrandPerformance w) in
  NoDup (map bp_brand r)
  /\ (forall b, In b (map bp_brand r) <-> In b (map brand cs))
  /\ (forall e, In e r ->
        bp_campaigns e = brand_count (bp_brand e) cs
        /\ (1 <= bp_campaigns e)%nat
        /\ bp_totalReach e = brand_reach ms (bp_brand e) cs).
Proof.
  intros Hc Hm Hown _. unfold getBrandPerformance, bind, read_cache, ret.
  cbv beta iota zeta. rewrite Hc, Hm. cbn [fst].
  set (acc := fold_left (brand_step ms) cs []).
  pose proof (brand_entries_keys acc) as Hk.
  pose proof (brand_fold_NoDup ms cs [] (NoDup_nil _)) as Hnd. fold acc in Hnd.
  assert (Hkeys : forall b, In b (obj_keys acc) <-> In b (map brand cs)).
  { intros b. unfold acc. rewrite brand_fold_keys. cbn. split; [tauto|].
    intros H. left. split; [exact H|]. apply in_map_iff in H.
    destruct H as (c & <- & Hin). apply Hown, Hin. }
  split; [exact (Permutation_NoDup Hk Hnd)|]. split.
  - intros b. rewrite <- Hkeys. split; intros H.
    + apply (Permutation_in _ (Permutation_sym Hk)), H.
    + apply (Permutation_in _ Hk), H.
  - intros e He. apply in_map_iff in He. destruct He as [[k st] [<- Hin]].
    apply (proj1 (obj_entries_In _ _)) in Hin.
    cbn [brand_entry bp_brand bp_campaigns bp_totalReach fst snd].
    assert (Hb : In k (map brand cs)).
    { apply Hkeys. unfold obj_keys. apply in_map_iff. exists (k, st). tauto. }
    assert (Hi : inherited k = false).
    { apply in_map_iff in Hb. destruct Hb as (c & <- & Hcin). apply Hown, Hcin. }
    pose proof (brand_fold_totals ms cs k Hi) as Hinv. fold acc in Hinv.
    rewrite (obj_get_of_In k st acc Hnd Hin) in Hinv. destruct Hinv as [H1 H2].
    split; [exact H1|]. split; [|exact H2]. rewrite H1.
    apply in_map_iff in Hb. destruct Hb as (c & Ec & Hcin).
    unfold brand_count.
    assert (Hf : In c (filter (fun c => String.eqb (brand c) k) cs)).
    { apply filter_In. split; [exact Hcin | apply String.eqb_eq, Ec]. }
    destruct (filter (fun c => String.eqb (brand c) k) cs); [destruct Hf | cbn; lia].
Qed.

Lemma X6_brandPerformance_counts_and_reach_witness :
  Forall (fun e => bp_campaigns e = 2%nat /\ bp_totalReach e = of_Z 300)
    (fst (getBrandPerformance (dates := iso_dates) nike_world)).
Proof.
  destruct (X6_brandPerformance_counts_and_reach (dates := iso_dates) nike_world
              nike_campaigns nike_metrics eq_refl eq_refl
              ltac:(intros c [<-|[<-|[]]]; reflexivity)
              ltac:(intros m [<-|[<-|[]]]; vm_compute; discriminate))
    as (_ & Hb & He).
  apply Forall_forall. intros e Hin. destruct (He e Hin) as (H1 & _ & H3).
  assert (Hn : bp_brand e = "Nike").
  { assert (H : In (bp_brand e) (map brand nike_campaigns)).
    { apply Hb. apply in_map. exact Hin. }
    destruct H as [<-|[<-|[]]]; reflexivity. }
  rewrite H1, H3, Hn. split; vm_compute; reflexivity.
Defined.

(** X7.  The averages of a brand come from one campaign.  When no brand is
    named like a property of [Object.prototype] and the metric dates are
    valid: if [c] has metric rows and no later cached campaign of its brand
    has any, the brand's [avgROI] and [avgEngagement] are the means over the
    seven most recent rows of [c] alone, whatever rows the earlier campaigns
    of the brand have. *)
Theorem X7_brandPerformance_averages_of_last_campaign {dates : DateParser}
  (w : World) (pre post : list Campaign) (c : Campaign) (ms : list PerformanceMetric) :
  campaigns (dataCache w) = Some (pre ++ c :: post)%list ->
  metrics (dataCache w) = Some ms ->
  (forall c', In c' (pre ++ c :: post)%list -> inherited (brand c') = false) ->
  valid_metric_dates ms ->
  last7 ms c <> [] ->
  (forall c', In c' post -> brand c' = brand c -> last7 ms c' = []) ->
  exists e,
    In e (fst (getBrandPerformance w)) /\ bp_brand e = brand c
    /\ bp_avgROI e = ndiv (sum_of roi (last7 ms c)) (of_nat (List.length (last7 ms c)))
    /\ bp_avgEngagement e
       = ndiv (sum_of engagement_rate (last7 ms c)) (of_nat (List.length (last7 ms c))).
Proof.
  intros Hc Hm Hown _ Hne Hpost. unfold getBrandPerformance, bind, read_cache, ret.
  cbv beta iota zeta. rewrite Hc, Hm. cbn [fst].
  rewrite fold_left_app. cbn [fold_left].
  set (acc := fold_left (brand_step ms) pre []).
  assert (Hb : inherited (brand c) = false).
  { apply Hown. apply in_or_app. right. left. reflexivity. }
  destruct (brand_step_overwrites ms acc c Hb Hne) as (st & Hg & Hx & Hy & _).
  destruct (brand_fold_keeps_averages ms (brand c) _ _ post _ st Hg Hx Hy Hpost)
    as (st' & Hg' & Hx' & Hy').
  exists (brand_entry (brand c, st')). split.
  - apply in_map. apply obj_entries_In. apply obj_get_In. exact Hg'.
  - cbn [brand_entry bp_brand bp_avgROI bp_avgEngagement fst snd].
    repeat split; assumption.
Qed.

Lemma X7_brandPerformance_averages_of_last_campaign_witness :
  exists e,
    In e (fst (getBrandPerformance (dates := iso_dates) nike_world))
    /\ bp_brand e = "Nike" /\ bp_avgROI e = of_Z 4 /\ bp_avgEngagement e = of_Z 6.
Proof.
  destruct (X7_brandPerformance_averages_of_last_campaign (dates := iso_dates) nike_world
              [campaign "c1" "Nike" "2024-01-01"] [] (campaign "c2" "Nike" "2024-02-01")
              nike_metrics eq_refl eq_refl
              ltac:(intros c [<-|[<-|[]]]; reflexivity)
              ltac:(intros m [<-|[<-|[]]]; vm_compute; discriminate)
              ltac:(vm_compute; discriminate)
              (fun c' (H : In c' []) => match H with end))
    as (e & Hin & Hb & Hr & He).
  exists e. split; [exact Hin|]. split; [exact Hb|].
  rewrite Hr, He. split; vm_compute; reflexivity.
Defined.

(** ** [modelPerformance] *)

Section ModelFacts.

Context {dates : DateParser}.

Lemma model_step_own acc x :
  inherited (model_type x) = false ->
  model_step acc x
  = match obj_get (model_type x) acc with
    | None => obj_set (model_type x) x acc
    | Some cur =>
        if time_gt (getTime (mp_date x)) (getTime (mp_date cur))
        then obj_set (model_type x) x acc else acc
    end.
Proof.
  intros H. unfold model_step. cbv zeta. rewrite obj_read_own by exact H.
  destruct (obj_get (model_type x) acc); reflexivity.
Qed.

Lemma model_step_skip acc x :
  inherited (model_type x) = true -> own_only acc -> model_step acc x = acc.
Proof.
  intros H Ho. unfold model_step. cbv zeta.
  rewrite obj_read_inherited by assumption. reflexivity.
Qed.

Lemma model_step_own_only acc x : own_only acc -> own_only (model_step acc x).
Proof.
  intros Ho. destruct (inherited (model_type x)) eqn:E.
  - rewrite model_step_skip by assumption. exact Ho.
  - rewrite model_step_own by exact E.
    destruct (obj_get (model_type x) acc); [destruct (time_gt _ _)|];
      try exact Ho; apply own_only_set; assumption.
Qed.

Lemma model_fold_own_only ms : forall acc,
  own_only acc -> own_only (fold_left model_step ms acc).
Proof.
  induction ms as [|x ms IH]; intros acc Ho; cbn [fold_left]; [exact Ho|].
  apply IH, model_step_own_only, Ho.
Qed.

Lemma model_step_latest pre acc x :
  own_only acc ->
  valid_model_dates (pre ++ [x]) ->
  model_latest_ok pre acc -> model_latest_ok (pre ++ [x]) (model_step acc x).
Proof.
  intros Ho Hv Hinv t Hi.
  assert (Vx : getTime (mp_date x) <> None).
  { apply Hv. apply in_or_app. right. left. reflexivity. }
  destruct (inherited (model_type x)) eqn:Ex.
  { rewrite model_step_skip by assumption.
    assert (Hne : model_type x <> t) by congruence.
    specialize (Hinv t Hi). destruct (obj_get t acc) as [cur|].
    - destruct Hinv as (Hin & Ht & Hmax). split; [apply in_or_app; left; exact Hin|].
      split; [exact Ht|]. intros m Hm Hmt. apply in_app_or in Hm.
      destruct Hm as [Hm|[<-|[]]]; [apply Hmax; assumption | congruence].
    - intros m Hm. apply in_app_or in Hm.
      destruct Hm as [Hm|[<-|[]]]; [apply Hinv, Hm | exact Hne]. }
  rewrite model_step_own by exact Ex.
  destruct (String.eqb_spec t (model_type x)) as [->|Hne].
  - pose proof (Hinv (model_type x) Hi) as Hk.
    destruct (obj_get (model_type x) acc) as [cur|] eqn:E.
    + destruct Hk as (Hin & Ht & Hmax).
      assert (Vc : getTime (mp_date cur) <> None).
      { apply Hv. apply in_or_app. left. exact Hin. }
      assert (Hgt : time_gt (getTime (mp_date x)) (getTime (mp_date cur))
                    = (model_time cur <? model_time x)).
      { unfold time_gt, model_time, time_or_zero.
        destruct (getTime (mp_date x)), (getTime (mp_date cur)); tauto. }
      rewrite Hgt. destruct (Z.ltb_spec (model_time cur) (model_time x)) as [Hlt|Hge].
      * rewrite obj_get_set_same. split; [apply in_or_app; right; left; reflexivity|].
        split; [reflexivity|]. intros m Hm Hmt. apply in_app_or in Hm.
        destruct Hm as [Hm|[<-|[]]]; [|lia]. specialize (Hmax m Hm Hmt). lia.
      * rewrite E. split; [apply in_or_app; left; exact Hin|]. split; [exact Ht|].
        intros m Hm Hmt. apply in_app_or in Hm.
        destruct Hm as [Hm|[<-|[]]]; [apply Hmax; assumption | lia].
    + rewrite obj_get_set_same. split; [apply in_or_app; right; left; reflexivity|].
      split; [reflexivity|]. intros m Hm Hmt. apply in_app_or in Hm.
      destruct Hm as [Hm|[<-|[]]]; [|lia]. exfalso. exact (Hk m Hm Hmt).
  - assert (Hsame : obj_get t
                      match obj_get (model_type x) acc with
                      | Some cur =>
                          if time_gt (getTime (mp_date x)) (getTime (mp_date cur))
                          then obj_set (model_type x) x acc else acc
                      | None => obj_set (model_type x) x acc
                      end = obj_get t acc).
    { destruct (obj_get (model_type x) acc); [destruct (time_gt _ _)|];
        try reflexivity; apply obj_get_set_other; exact Hne. }
    rewrite Hsame. specialize (Hinv t Hi). destruct (obj_get t acc) as [cur|].
    + destruct Hinv as (Hin & Ht & Hmax). split; [apply in_or_app; left; exact Hin|].
      split; [exact Ht|]. intros m Hm Hmt. apply in_app_or in Hm.
      destruct Hm as [Hm|[<-|[]]]; [apply Hmax; assumption | congruence].
    + intros m Hm. apply in_app_or in Hm.
      destruct Hm as [Hm|[<-|[]]]; [apply Hinv, Hm | congruence].
Qed.

Lemma model_fold_latest ms :
  valid_model_dates ms -> model_latest_ok ms (fold_left model_step ms []).
Proof.
  induction ms as [|x ms IH] using rev_ind; intros Hv.
  - intros t _ m [].
  - rewrite fold_left_app. cbn [fold_left]. apply model_step_latest.
    + apply model_fold_own_only, own_only_nil.
    + exact Hv.
    + apply IH. intros m Hm. apply Hv. apply in_or_app. left. exact Hm.
Qed.

Lemma model_fold_NoDup ms : forall acc,
  NoDup (obj_keys acc) -> NoDup (obj_keys (fold_left model_step ms acc)).
Proof.
  induction ms as [|x ms IH]; intros acc H; cbn [fold_left]; [exact H|].
  apply IH. unfold model_step. cbv zeta. destruct (obj_read (model_type x) acc);
    [destruct (time_gt _ _)| |]; try apply obj_keys_set_NoDup; exact H.
Qed.

End ModelFacts.

(** X8.  With valid dates [modelPerformance()] returns one cached row per
    distinct model type that is not named like a property of
    [Object.prototype] (a row of such a type is never returned), and no
    cached row of that type is dated later than the one returned. *)
Theorem X8_modelPerformance_latest_per_type {dates : DateParser}
  (w : World) (ms : list ModelPerformance) :
  models (dataCache w) = Some ms ->
  valid_model_dates ms ->
  let r := fst (getModelPerformance w) in
  NoDup (map model_type r)
  /\ (forall t, In t (map model_type r)
                <-> In t (map model_type ms) /\ inherited t = false)
  /\ (forall m, In m r ->
        In m ms
        /\ forall m', In m' ms -> model_type m' = model_type m ->
                      model_time m' <= model_time m).
Proof.
  intros Hm Hv. unfold getModelPerformance, bind, read_cache, ret.
  cbv beta iota zeta. rewrite Hm. cbn [fst].
  set (acc := fold_left model_step ms []).
  pose proof (model_fold_NoDup ms [] (NoDup_nil _)) as Hnd. fold acc in Hnd.
  pose proof (model_fold_latest ms Hv) as Hinv. fold acc in Hinv.
  pose proof (model_fold_own_only ms [] own_only_nil) as Ho. fold acc in Ho.
  assert (Hentry : forall k m, In (k, m) acc ->
            inherited k = false /\ In m ms /\ model_type m = k
            /\ forall m', In m' ms -> model_type m' = k -> model_time m' <= model_time m).
  { intros k m Hin.
    assert (Hi : inherited k = false).
    { apply (own_only_keys acc k Ho). unfold obj_keys. apply in_map_iff.
      exists (k, m). tauto. }
    specialize (Hinv k Hi). rewrite (obj_get_of_In k m acc Hnd Hin) in Hinv. tauto. }
  assert (Hk : Permutation (obj_keys acc) (map model_type (obj_values acc))).
  { unfold obj_values. rewrite map_map.
    assert (E : map (fun e => model_type (snd e)) (obj_entries acc)
                = map fst (obj_entries acc)).
    { apply map_ext_in. intros [k m] Hin. cbn.
      apply (proj1 (obj_entries_In _ _)) in Hin. apply Hentry in Hin. tauto. }
    rewrite E. apply obj_entries_keys. }
  split; [exact (Permutation_NoDup Hk Hnd)|]. split.
  - intros t. split.
    + intros Hin. apply (Permutation_in _ (Permutation_sym Hk)) in Hin.
      unfold obj_keys in Hin. apply in_map_iff in Hin. destruct Hin as ([k m] & E & Hin).
      cbn in E. subst k. destruct (Hentry t m Hin) as (Hi & Hmin & Ht & _).
      split; [|exact Hi]. apply in_map_iff. exists m. tauto.
    + intros [Hin Hi]. apply (Permutation_in _ Hk). specialize (Hinv t Hi).
      apply in_map_iff in Hin. destruct Hin as (m & Et & Hin).
      destruct (obj_get t acc) as [cur|] eqn:E.
      * apply obj_get_In in E. unfold obj_keys. apply in_map_iff. exists (t, cur). tauto.
      * exfalso. exact (Hinv m Hin Et).
  - intros m Hin. apply obj_values_In in Hin. destruct Hin as (k & Hin).
    destruct (Hentry k m Hin) as (_ & H1 & H2 & H3). split; [exact H1|].
    intros m' Hm' Ht. apply H3; [exact Hm' | congruence].
Qed.

Lemma X8_modelPerformance_latest_per_type_witness :
  map model_id (fst (getModelPerformance (dates := iso_dates) models_world)) = ["m2"; "m3"]
  /\ NoDup (map model_type (fst (getModelPerformance (dates := iso_dates) models_world))).
Proof.
  assert (Hv : valid_model_dates (dates := iso_dates) demo_models).
  { intros m [<-|[<-|[<-|[]]]]; vm_compute; discriminate. }
  destruct (X8_modelPerformance_latest_per_type (dates := iso_dates) models_world
              demo_models eq_refl Hv) as (Hnd & _ & _).
  split; [vm_compute; reflexivity | exact Hnd].
Defined.

(** ** [performanceTrends] *)

Section TrendFacts.

Context {dates : DateParser}.

Lemma sum_of_snoc {A} (f : A -> number) l x :
  sum_of f (l ++ [x]) = nadd (sum_of f l) (f x).
Proof. unfold sum_of. rewrite fold_left_app. reflexivity. Qed.

Lemma rows_of_day_snoc k pre m :
  rows_of_day k (pre ++ [m])
  = (rows_of_day k pre ++ (if String.eqb (date_key m) k then [m] else []))%list.
Proof. unfold rows_of_day. rewrite filter_app. reflexivity. Qed.

Lemma day_step_own acc m :
  inherited (date_key m) = false ->
  day_step acc m
  = obj_set (date_key m)
      (day_update m (match obj_get (date_key m) acc with
                     | Some d => d
                     | None => new_day (date_key m)
                     end))
      acc.
Proof.
  intros H. unfold day_step. cbv zeta. fold (date_key m).
  rewrite obj_read_own by exact H. destruct (obj_get (date_key m) acc); reflexivity.
Qed.

Lemma day_step_skip acc m :
  inherited (date_key m) = true -> own_only acc -> day_step acc m = acc.
Proof.
  intros H Ho. unfold day_step. cbv zeta. fold (date_key m).
  rewrite obj_read_inherited by assumption. reflexivity.
Qed.

Lemma day_step_own_only acc m : own_only acc -> own_only (day_step acc m).
Proof.
  intros Ho. destruct (inherited (date_key m)) eqn:E.
  - rewrite day_step_skip by assumption. exact Ho.
  - rewrite day_step_own by exact E. apply own_only_set; assumption.
Qed.

Lemma day_fold_own_only ms : forall acc,
  own_only acc -> own_only (fold_left day_step ms acc).
Proof.
  induction ms as [|x ms IH]; intros acc Ho; cbn [fold_left]; [exact Ho|].
  apply IH, day_step_own_only, Ho.
Qed.

Lemma day_step_stats pre acc m :
  own_only acc -> day_stats_ok pre acc -> day_stats_ok (pre ++ [m]) (day_step acc m).
Proof.
  intros Ho Hinv k Hk. rewrite rows_of_day_snoc.
  destruct (inherited (date_key m)) eqn:Em.
  { rewrite day_step_skip by assumption.
    destruct (String.eqb_spec (date_key m) k) as [E|Hne]; [congruence|].
    rewrite app_nil_r. apply Hinv, Hk. }
  rewrite day_step_own by exact Em.
  destruct (String.eqb_spec (date_key m) k) as [<-|Hne].
  - rewrite obj_get_set_same, (Hinv (date_key m) Hk).
    destruct (rows_of_day (date_key m) pre) as [|r rs] eqn:E.
    + reflexivity.
    + rewrite <- E. set (rows := rows_of_day (date_key m) pre).
      assert (Hl : (rows ++ [m])%list <> []) by (destruct rows; discriminate).
      destruct (rows ++ [m])%list as [|a l] eqn:Ea; [contradiction|]. rewrite <- Ea.
      unfold day_totals, day_update.
      cbn [day_date day_avgROI day_avgEngagement day_totalReach day_count].
      rewrite !sum_of_snoc, length_app, Nat.add_1_r. reflexivity.
  - rewrite obj_get_set_other by congruence. rewrite app_nil_r. apply Hinv, Hk.
Qed.

Lemma day_fold_stats ms : day_stats_ok ms (fold_left day_step ms []).
Proof.
  induction ms as [|m ms IH] using rev_ind; [intros k _; reflexivity|].
  rewrite fold_left_app. cbn [fold_left]. apply day_step_stats; [|exact IH].
  apply day_fold_own_only, own_only_nil.
Qed.

Lemma day_fold_NoDup ms : forall acc,
  NoDup (obj_keys acc) -> NoDup (obj_keys (fold_left day_step ms acc)).
Proof.
  induction ms as [|x ms IH]; intros acc H; cbn [fold_left]; [exact H|].
  apply IH. unfold day_step. cbv zeta.
  destruct (obj_read (split_head "T" (m_date x)) acc);
    try apply obj_keys_set_NoDup; exact H.
Qed.

Lemma rows_of_day_nil_iff k ms : rows_of_day k ms = [] <-> ~ In k (map date_key ms).
Proof.
  unfold rows_of_day. split.
  - intros E Hin. apply in_map_iff in Hin. destruct Hin as (m & Ek & Hm).
    assert (H : In m (filter (fun m => String.eqb (date_key m) k) ms)).
    { apply filter_In. split; [exact Hm | apply String.eqb_eq, Ek]. }
    rewrite E in H. destruct H.
  - intros Hn. destruct (filter (fun m => String.eqb (date_key m) k) ms) as [|m l] eqn:E;
      [reflexivity|]. exfalso. apply Hn.
    assert (H : In m (filter (fun m => String.eqb (date_key m) k) ms))
      by (rewrite E; left; reflexivity).
    apply filter_In in H. destruct H as [Hm Ek]. apply String.eqb_eq in Ek.
    apply in_map_iff. exists m. split; assumption.
Qed.

(** The points of the series, before the final sort: one per date of the
    kept rows that is no inherited name, carrying the totals of the rows of
    that date. *)
Lemma day_fold_values kept :
  let points := map trend_point (obj_values (fold_left day_step kept [])) in
  NoDup (map tp_date points)
  /\ (forall k, In k (map tp_date points)
                <-> In k (map date_key kept) /\ inherited k = false)
  /\ (forall p, In p points ->
        rows_of_day (tp_date p) kept <> []
        /\ p = trend_point (day_totals (tp_date p) (rows_of_day (tp_date p) kept))).
Proof.
  cbv zeta. set (acc := fold_left day_step kept []).
  pose proof (day_fold_NoDup kept [] (NoDup_nil _)) as Hnd. fold acc in Hnd.
  pose proof (day_fold_stats kept) as Hinv. fold acc in Hinv.
  pose proof (day_fold_own_only kept [] own_only_nil) as Ho. fold acc in Ho.
  assert (Hentry : forall k d, In (k, d) acc ->
            inherited k = false /\ rows_of_day k kept <> []
            /\ d = day_totals k (rows_of_day k kept)).
  { intros k d Hin. pose proof (obj_get_of_In k d acc Hnd Hin) as E.
    assert (Hi : inherited k = false).
    { apply (own_only_keys acc k Ho). unfold obj_keys. apply in_map_iff.
      exists (k, d). tauto. }
    rewrite (Hinv k Hi) in E. destruct (rows_of_day k kept); [discriminate E|].
    injection E as <-. split; [exact Hi|]. split; [discriminate | reflexivity]. }
  assert (Hk : Permutation (obj_keys acc) (map tp_date (map trend_point (obj_values acc)))).
  { unfold obj_values. rewrite !map_map.
    assert (E : map (fun e => tp_date (trend_point (snd e))) (obj_entries acc)
                = map fst (obj_entries acc)).
    { apply map_ext_in. intros [k d] Hin. apply (proj1 (obj_entries_In _ _)) in Hin.
      destruct (Hentry k d Hin) as (_ & _ & ->). reflexivity. }
    rewrite E. apply obj_entries_keys. }
  split; [exact (Permutation_NoDup Hk Hnd)|]. split.
  - intros k. split.
    + intros H. apply (Permutation_in _ (Permutation_sym Hk)) in H.
      unfold obj_keys in H. apply in_map_iff in H. destruct H as ([k' d] & E & Hin).
      cbn in E. subst k'. destruct (Hentry k d Hin) as (Hi & Hne & _).
      split; [|exact Hi].
      destruct (in_dec string_dec k (map date_key kept)) as [H|Hno]; [exact H|].
      apply (proj2 (rows_of_day_nil_iff k kept)) in Hno. contradiction.
    + intros [Hin Hi]. apply (Permutation_in _ Hk).
      pose proof (obj_get_None k acc) as Hn. rewrite (Hinv k Hi) in Hn.
      destruct (rows_of_day k kept) eqn:E.
      * exfalso. apply (proj1 (rows_of_day_nil_iff k kept) E), Hin.
      * destruct (in_dec string_dec k (obj_keys acc)) as [H|Hno]; [exact H|].
        apply (proj2 Hn) in Hno. discriminate Hno.
  - intros p Hp. apply in_map_iff in Hp. destruct Hp as (d & <- & Hd).
    apply obj_values_In in Hd. destruct Hd as (k & Hin).
    destruct (Hentry k d Hin) as (_ & Hne & ->).
    cbn [trend_point tp_date day_totals day_date]. split; [exact Hne | reflexivity].
Qed.

(** The rows kept for a cutoff that is a date are those dated from it on. *)
Lemma on_or_after_dated now days m :
  on_or_after (cutoff_date now days) m
  = match TimeClip (now - days * msPerDay) with
    | Some _ => dated_from (now - days * msPerDay) m
    | None => false
    end.
Proof.
  unfold on_or_after, cutoff_date, dated_from, time_ge, TimeClip.
  destruct (Z.abs (now - days * msPerDay) <=? 8640000000000000);
    destruct (getTime (m_date m)); reflexivity.
Qed.

Lemma retained_no_cutoff days now ms :
  TimeClip (now - days * msPerDay) = None -> retained (Some days) now ms = [].
Proof.
  intros H. unfold retained. induction ms as [|m ms IH]; [reflexivity|].
  cbn [filter]. rewrite on_or_after_dated, H. exact IH.
Qed.

Lemma rows_of_day_retained days now k ms :
  TimeClip (now - days * msPerDay) <> None ->
  rows_of_day k (retained (Some days) now ms)
  = rows_of_day_from (now - days * msPerDay) k ms.
Proof.
  intros H. unfold rows_of_day, rows_of_day_from, retained.
  induction ms as [|m ms IH]; [reflexivity|]. cbn [filter].
  rewrite on_or_after_dated.
  destruct (TimeClip (now - days * msPerDay)); [|contradiction].
  destruct (dated_from (now - days * msPerDay) m); cbn [filter].
  - destruct (String.eqb (date_key m) k); cbn [andb]; rewrite IH; reflexivity.
  - rewrite andb_false_r. exact IH.
Qed.

Lemma retained_In days now ms m :
  In m (retained (Some days) now ms)
  <-> In m ms /\ TimeClip (now - days * msPerDay) <> None
      /\ dated_from (now - days * msPerDay) m = true.
Proof.
  unfold retained. rewrite filter_In, on_or_after_dated.
  destruct (TimeClip (now - days * msPerDay)).
  - split; [intros [H1 H2]; repeat split; [exact H1 | discriminate | exact H2] | tauto].
  - split; [intros [_ H]; discriminate H | intros (_ & H & _); contradiction].
Qed.

Lemma dated_from_earlier t0 t1 m : t0 <= t1 -> dated_from t1 m = true -> dated_from t0 m = true.
Proof.
  unfold dated_from. destruct (getTime (m_date m)); [|trivial].
  intros H H1. apply Z.leb_le in H1. apply Z.leb_le. lia.
Qed.

End TrendFacts.

(** ** [performanceTrends] with a non-positive number of days *)

(** C4, as stated, fails: a metric row dated after the current time is kept
    by [performanceTrends(0)]. *)
Lemma C4_future_row_counterexample :
  0 <= 0
  /\ map tp_date (fst (getPerformanceTrends (dates := iso_dates) (Some 0) demo_now future_world))
     = ["2030-01-01"].
Proof. vm_compute. repeat split. discriminate. Qed.

(** C4 (amended).  For [days <= 0] the cutoff [now - days] days is not
    earlier than [now], and the series is made of the metric rows dated at or
    after the cutoff and of no other row: it has one point per calendar date
    of such a row (a date named like a property of [Object.prototype] apart),
    and the point of a date carries the totals of exactly the rows of that
    date that are dated at or after the cutoff, none of which is dated before
    [now] or undated.  So the series is empty exactly when there is no such
    row; a cutoff beyond the range of dates keeps no row at all.  An omitted
    [days] is 30. *)
Theorem C4_performanceTrends_nonpositive_days {dates : DateParser}
  (w : World) (ms : list PerformanceMetric) (days now : Z) :
  metrics (dataCache w) = Some ms ->
  days <= 0 ->
  let cutoff := now - days * msPerDay in
  let r := fst (getPerformanceTrends (Some days) now w) in
  now <= cutoff
  /\ NoDup (map tp_date r)
  /\ (forall p, In p r ->
        let rows := rows_of_day_from cutoff (tp_date p) ms in
        rows <> []
        /\ p = trend_point (day_totals (tp_date p) rows)
        /\ Forall (fun m => dated_from now m = true) rows)
  /\ (forall m, In m ms ->
        TimeClip cutoff <> None -> dated_from cutoff m = true ->
        inherited (date_key m) = false ->
        In (date_key m) (map tp_date r))
  /\ (r = [] <->
      forall m, In m ms ->
        ~ (TimeClip cutoff <> None /\ dated_from cutoff m = true
           /\ inherited (date_key m) = false))
  /\ getPerformanceTrends None now w = getPerformanceTrends (Some 30) now w.
Proof.
  intros Hm Hd. cbv zeta.
  assert (Hnow : now <= now - days * msPerDay) by (unfold msPerDay; lia).
  unfold getPerformanceTrends, bind, read_cache, ret. cbv beta iota zeta.
  rewrite Hm. cbn [fst]. fold (retained (Some days) now ms).
  set (kept := retained (Some days) now ms).
  destruct (day_fold_values kept) as (Hnd & Hkeys & Hp).
  set (points := map trend_point (obj_values (fold_left day_step kept []))) in *.
  pose proof (Array_sort_perm by_point_date_asc points) as Hperm.
  assert (Hdates : forall k, In k (map tp_date (Array_sort by_point_date_asc points))
                             <-> In k (map tp_date points)).
  { intros k. split; intros H.
    - apply (Permutation_in _ (Permutation_sym (Permutation_map tp_date Hperm))), H.
    - apply (Permutation_in _ (Permutation_map tp_date Hperm)), H. }
  split; [exact Hnow|]. split; [|split; [|split; [|split; [|reflexivity]]]].
  - apply (Permutation_NoDup (Permutation_map tp_date Hperm)), Hnd.
  - intros p Hin. apply (Permutation_in _ (Permutation_sym Hperm)) in Hin.
    destruct (Hp p Hin) as [Hne E].
    assert (Hclip : TimeClip (now - days * msPerDay) <> None).
    { intros Hc. unfold kept in Hne. rewrite (retained_no_cutoff _ _ _ Hc) in Hne.
      apply Hne. reflexivity. }
    unfold kept in Hne, E. rewrite rows_of_day_retained in Hne, E by exact Hclip.
    split; [exact Hne|]. split; [exact E|].
    apply Forall_forall. intros m Hmin. unfold rows_of_day_from in Hmin.
    apply filter_In in Hmin. destruct Hmin as [_ Hb]. apply andb_prop in Hb.
    apply (dated_from_earlier now (now - days * msPerDay)); [exact Hnow | apply Hb].
  - intros m Hin Hclip Hfrom Hi. apply Hdates, Hkeys. split; [|exact Hi].
    apply in_map. apply retained_In. tauto.
  - split.
    + intros H m Hin (Hclip & Hfrom & Hi).
      assert (Hk : In (date_key m) (map tp_date (Array_sort by_point_date_asc points))).
      { apply Hdates, Hkeys. split; [|exact Hi]. apply in_map. apply retained_In. tauto. }
      rewrite H in Hk. destruct Hk.
    + intros H. apply Array_sort_nil_iff.
      assert (Hall : forall k, ~ In k (map tp_date points)).
      { intros k Hk. apply Hkeys in Hk. destruct Hk as [Hk Hi].
        apply in_map_iff in Hk. destruct Hk as (m & Ek & Hmin).
        apply retained_In in Hmin. destruct Hmin as (Hin & Hclip & Hfrom).
        apply (H m Hin). rewrite Ek. tauto. }
      clearbody points. destruct points as [|p l]; [reflexivity|].
      exfalso. apply (Hall (tp_date p)). left. reflexivity.
Qed.

Lemma C4_performanceTrends_nonpositive_days_witness :
  fst (getPerformanceTrends (dates := iso_dates) (Some (-2)) demo_now past_world) = []
  /\ In "2030-01-01"
       (map tp_date
          (fst (getPerformanceTrends (dates := iso_dates) (Some (-2)) demo_now future_world))).
Proof.
  destruct (C4_performanceTrends_nonpositive_days (dates := iso_dates) past_world
              [metric "m1" "c1" "2024-03-01" 3 5 100] (-2) demo_now eq_refl ltac:(lia))
    as (_ & _ & _ & _ & Hiff & _).
  destruct (C4_performanceTrends_nonpositive_days (dates := iso_dates) future_world
              [metric "m1" "c1" "2030-01-01" 3 5 100] (-2) demo_now eq_refl ltac:(lia))
    as (_ & _ & _ & Hin & _ & _).
  split.
  - apply Hiff. intros m [<-|[]] (_ & H & _). vm_compute in H. discriminate H.
  - apply (Hin (metric "m1" "c1" "2030-01-01" 3 5 100)).
    + left. reflexivity.
    + vm_compute. discriminate.
    + vm_compute. reflexivity.
    + reflexivity.
Defined.

(** ** The daily series *)

(** X9.  [performanceTrends(days)] has exactly one point per calendar date
    (the text before [T]) among the rows it keeps, a date named like a
    property of [Object.prototype] apart; the point of a date carries the
    reach of that date's kept rows summed in cache order, and as averages the
    sums of their ROI and engagement divided by their number (never zero) and
    rounded to two decimals. *)
Theorem X9_performanceTrends_one_point_per_day {dates : DateParser}
  (w : World) (ms : list PerformanceMetric) (days : option Z) (now : Z) :
  metrics (dataCache w) = Some ms ->
  let kept := retained days now ms in
  let r := fst (getPerformanceTrends days now w) in
  NoDup (map tp_date r)
  /\ (forall k, In k (map tp_date r) <-> In k (map date_key kept) /\ inherited k = false)
  /\ (forall p, In p r ->
        let rows := rows_of_day (tp_date p) kept in
        rows <> []
        /\ tp_totalReach p = sum_of reach rows
        /\ tp_avgROI p
           = Number (toFixed (ndiv (sum_of roi rows) (of_nat (List.length rows))) 2)
        /\ tp_avgEngagement p
           = Number (toFixed (ndiv (sum_of engagement_rate rows)
                                (of_nat (List.length rows))) 2)).
Proof.
  intros Hm. unfold getPerformanceTrends, bind, read_cache, ret.
  cbv beta iota zeta. rewrite Hm. cbn [fst]. fold (retained days now ms).
  set (kept := retained days now ms).
  destruct (day_fold_values kept) as (Hnd & Hkeys & Hp).
  set (points := map trend_point (obj_values (fold_left day_step kept []))) in *.
  pose proof (Array_sort_perm by_point_date_asc points) as Hperm.
  split; [|split].
  - apply (Permutation_NoDup (Permutation_map tp_date Hperm)). exact Hnd.
  - intros k. rewrite <- Hkeys. split; intros H.
    + apply (Permutation_in _ (Permutation_sym (Permutation_map tp_date Hperm))), H.
    + apply (Permutation_in _ (Permutation_map tp_date Hperm)), H.
  - intros p Hin. apply (proj1 (Array_sort_In by_point_date_asc points p)) in Hin.
    destruct (Hp p Hin) as [Hne E]. cbv zeta. split; [exact Hne|].
    remember (tp_date p) as k eqn:Ek. clear Ek. subst p.
    cbn [trend_point tp_totalReach tp_avgROI tp_avgEngagement day_totals day_avgROI
           day_avgEngagement day_totalReach day_count].
    repeat split; reflexivity.
Qed.

Lemma X9_performanceTrends_one_point_per_day_witness :
  NoDup (map tp_date
           (fst (getPerformanceTrends (dates := iso_dates) (Some 3650) demo_now trend_world)))
  /\ map (fun p => (tp_date p, tp_avgROI p, tp_totalReach p))
       (fst (getPerformanceTrends (dates := iso_dates) (Some 3650) demo_now trend_world))
     = [("2024-03-01", of_Z 2, of_Z 100); ("2024-03-02", of_Z 5, of_Z 250)].
Proof.
  destruct (X9_performanceTrends_one_point_per_day (dates := iso_dates) trend_world
              trend_metrics (Some 3650) demo_now eq_refl) as (Hnd & _ & _).
  split; [exact Hnd | vm_compute; reflexivity].
Defined.

(** X10.  When the calendar dates of the kept rows are valid dates, the series
    of [performanceTrends(days)] is in ascending date order. *)
Theorem X10_performanceTrends_ascending {dates : DateParser}
  (w : World) (ms : list PerformanceMetric) (days : option Z) (now : Z) :
  metrics (dataCache w) = Some ms ->
  (forall m, In m (retained days now ms) -> getTime (date_key m) <> None) ->
  StronglySorted (fun a b => point_time a <= point_time b)
    (fst (getPerformanceTrends days now w)).
Proof.
  intros Hm Hv. unfold getPerformanceTrends, bind, read_cache, ret.
  cbv beta iota zeta. rewrite Hm. cbn [fst]. fold (retained days now ms).
  set (kept := retained days now ms) in *.
  destruct (day_fold_values kept) as (_ & Hkeys & _).
  set (points := map trend_point (obj_values (fold_left day_step kept []))) in *.
  assert (Hvalid : forall p, In p points -> getTime (tp_date p) <> None).
  { intros p Hp.
    assert (Hin : In (tp_date p) (map date_key kept)).
    { apply (proj1 (Hkeys (tp_date p))). apply in_map. exact Hp. }
    apply in_map_iff in Hin. destruct Hin as (m & E & Hmin). rewrite <- E.
    apply Hv, Hmin. }
  apply Array_sort_sorted. intros a b Ha Hb.
  unfold by_point_date_asc, point_time, time_sub, time_or_zero.
  pose proof (Hvalid a Ha) as Va. pose proof (Hvalid b Hb) as Vb.
  destruct (getTime (tp_date a)), (getTime (tp_date b)); try contradiction. reflexivity.
Qed.

Lemma X10_performanceTrends_ascending_witness :
  StronglySorted (fun a b => point_time (dates := iso_dates) a
                             <= point_time (dates := iso_dates) b)
    (fst (getPerformanceTrends (dates := iso_dates) (Some 3650) demo_now trend_world)).
Proof.
  apply (X10_performanceTrends_ascending (dates := iso_dates) trend_world trend_metrics
           (Some 3650) demo_now eq_refl).
  intros m Hin. vm_compute in Hin.
  destruct Hin as [<-|[<-|[<-|[]]]]; vm_compute; discriminate.
Defined.

(** ** [dashboardSummary] *)

Section SummaryFacts.

Import Binary64 Binary64Facts.

Context {dates : DateParser}.

Lemma getActiveCampaigns_pure now w :
  getActiveCampaigns now w
  = (filter (is_active now) (or_empty (campaigns (dataCache w))), w).
Proof.
  unfold getActiveCampaigns, bind, read_cache, ret. cbv beta iota zeta.
  destruct (campaigns (dataCache w)); reflexivity.
Qed.

(** The figures of the summary that do not depend on a random draw. *)
Lemma getDashboardSummary_fields now w :
  let d := fst (getDashboardSummary now w) in
  let c := dataCache w in
  totalCampaigns d = List.length (or_empty (campaigns c))
  /\ activeCampaigns d = List.length (filter (is_active now) (or_empty (campaigns c)))
  /\ avgROI d
     = Number (toFixed (mean_of roi (Array_slice (-1000) None (or_empty (metrics c)))) 1)
  /\ avgEngagement d
     = Number (toFixed (mean_of engagement_rate
                          (Array_slice (-1000) None (or_empty (metrics c)))) 1)
  /\ totalRecords d
     = (List.length (or_empty (campaigns c)) + List.length (or_empty (metrics c))
        + List.length (or_empty (assets c)) + List.length (or_empty (sensors c)))%nat.
Proof.
  unfold getDashboardSummary, bind, read_cache, ret, Math_random. cbv beta iota zeta.
  rewrite getActiveCampaigns_pure. destruct (getSensorStatus w) as [st w2].
  cbn [fst totalCampaigns activeCampaigns avgROI avgEngagement totalRecords].
  repeat split.
Qed.

(** The rounded quotient of [k] by [n] lies in [0, 1] when [k <= n]. *)
Lemma ratio_in_unit (k n : nat) :
  (k <= n)%nat -> (0 < n)%nat ->
  exists x, ndiv (of_nat k) (of_nat n) = Fin x /\ (0 <= x /\ x <= 1)%Q.
Proof.
  intros Hkn Hn. unfold ndiv, of_nat, of_Z.
  assert (Qn : (0 < inject_Z (Z.of_nat n))%Q).
  { change 0%Q with (inject_Z 0). rewrite <- Zlt_Qlt. lia. }
  assert (Qk : (0 <= inject_Z (Z.of_nat k))%Q).
  { change 0%Q with (inject_Z 0). rewrite <- Zle_Qle. lia. }
  assert (Qkn : (inject_Z (Z.of_nat k) <= inject_Z (Z.of_nat n))%Q).
  { rewrite <- Zle_Qle. lia. }
  assert (Q0 : (0 <= inject_Z (Z.of_nat k) / inject_Z (Z.of_nat n))%Q).
  { apply Qle_shift_div_l; [exact Qn | lra]. }
  assert (Q1 : (inject_Z (Z.of_nat k) / inject_Z (Z.of_nat n) <= 1)%Q).
  { apply Qle_shift_div_r; [exact Qn | lra]. }
  destruct (Qeq_bool (inject_Z (Z.of_nat n)) 0) eqn:E.
  - apply Qeq_bool_iff in E. rewrite E in Qn. discriminate Qn.
  - exists (round64 (inject_Z (Z.of_nat k) / inject_Z (Z.of_nat n))). split; [|split].
    + apply (rounded_small _ 1); [vm_compute; discriminate|].
      apply Qabs_Qle_condition. change (inject_Z 1) with 1%Q. split; lra.
    + apply round64_nonneg, Q0.
    + rewrite <- (round64_int 1) by (vm_compute; discriminate).
      apply round64_mono. exact Q1.
Qed.

Lemma pipeline_health_range st :
  exists z, 0 <= z <= 100 /\ pipeline_health st = of_Z z.
Proof.
  unfold pipeline_health. cbv zeta.
  set (k := List.length (filter (fun s => String.eqb (ss_status s) "OK") st)).
  set (n := List.length st).
  assert (Hkn : (k <= n)%nat) by apply filter_length_le.
  destruct (Nat.ltb_spec 0 n) as [Hn|Hn].
  - destruct (ratio_in_unit k n Hkn Hn) as (x & -> & Hx).
    apply round_scaled_unit; [exact Hx|].
    split; [lia | vm_compute; discriminate].
  - exists 100. split; [lia | reflexivity].
Qed.

Lemma Array_slice_last {A} (old recent : list A) (k : Z) :
  0 < k -> Z.of_nat (List.length recent) = k ->
  Array_slice (- k) None (old ++ recent) = recent.
Proof.
  intros Hk Hl. unfold Array_slice.
  destruct (Z.ltb_spec (- k) 0) as [_|]; [|lia].
  assert (Hlen : Z.of_nat (List.length (old ++ recent))
                 = Z.of_nat (List.length old) + k) by (rewrite length_app; lia).
  rewrite Hlen.
  assert (Hfrom : Z.to_nat (Z.max (Z.of_nat (List.length old) + k + - k) 0)
                  = List.length old) by lia.
  rewrite Hfrom.
  assert (Hskip : skipn (List.length old) (old ++ recent) = recent).
  { rewrite skipn_app, skipn_all, Nat.sub_diag. reflexivity. }
  rewrite Hskip.
  assert (Hcount : Z.to_nat (Z.max (Z.of_nat (List.length old) + k
                                    - Z.max (Z.of_nat (List.length old) + k + - k) 0) 0)
                   = List.length recent) by lia.
  rewrite Hcount. apply firstn_all.
Qed.

End SummaryFacts.

(** X11.  Whatever the cache holds (valid or not), [pipelineHealth] of
    [dashboardSummary()] is an integer between 0 and 100. *)
Theorem X11_pipelineHealth_is_a_percentage {dates : DateParser} (w : World) (now : Z) :
  exists z, 0 <= z <= 100 /\ pipelineHealth (fst (getDashboardSummary now w)) = of_Z z.
Proof. rewrite getDashboardSummary_pipelineHealth. apply pipeline_health_range. Qed.

(** X12.  In [dashboardSummary()] the active campaigns never outnumber the
    campaigns, and [totalRecords] adds up the cached campaigns, metric rows,
    assets and sensor readings (model rows are not counted), an absent
    collection counting as empty. *)
Theorem X12_dashboard_counts {dates : DateParser} (w : World) (now : Z) :
  let d := fst (getDashboardSummary now w) in
  let c := dataCache w in
  (activeCampaigns d <= totalCampaigns d)%nat
  /\ (totalCampaigns d <= totalRecords d)%nat
  /\ totalRecords d
     = (List.length (or_empty (campaigns c)) + List.length (or_empty (metrics c))
        + List.length (or_empty (assets c)) + List.length (or_empty (sensors c)))%nat
  /\ totalCampaigns d = List.length (or_empty (campaigns c)).
Proof.
  cbv zeta. destruct (getDashboardSummary_fields now w) as (H1 & H2 & _ & _ & H5).
  rewrite H1, H2, H5. repeat split; try lia. apply filter_length_le.
Qed.

(** X13.  The averages of [dashboardSummary()] look at the last thousand
    metric rows in cache order only: with more rows cached, the earlier ones
    have no influence on [avgROI] and [avgEngagement]. *)
Theorem X13_dashboard_averages_use_last_thousand {dates : DateParser}
  (w : World) (old recent : list PerformanceMetric) (now : Z) :
  metrics (dataCache w) = Some (old ++ recent)%list ->
  List.length recent = 1000%nat ->
  avgROI (fst (getDashboardSummary now w)) = Number (toFixed (mean_of roi recent) 1)
  /\ avgEngagement (fst (getDashboardSummary now w))
     = Number (toFixed (mean_of engagement_rate recent) 1).
Proof.
  intros Hm Hl. destruct (getDashboardSummary_fields now w) as (_ & _ & H3 & H4 & _).
  rewrite H3, H4, Hm. cbn [or_empty].
  pose proof (Array_slice_last old recent 1000 ltac:(lia) ltac:(lia)) as Hs.
  cbn [Z.opp] in Hs. rewrite Hs. split; reflexivity.
Qed.

Lemma X13_dashboard_averages_use_last_thousand_witness :
  avgROI (fst (getDashboardSummary (dates := iso_dates) demo_now many_rows_world)) = of_Z 2
  /\ avgEngagement (fst (getDashboardSummary (dates := iso_dates) demo_now many_rows_world))
     = of_Z 3.
Proof.
  destruct (X13_dashboard_averages_use_last_thousand (dates := iso_dates) many_rows_world
              [metric "old" "c1" "2020-01-01" 1000000 1000000 10] recent_rows demo_now
              eq_refl eq_refl) as [H1 H2].
  rewrite H1, H2. split; vm_compute; reflexivity.
Defined.

(** ** [load] *)

Lemma fetch_Some_inv {A} (r : fetched A) (x : A) j :
  fetch r = Some j -> j = Some x -> r = Response (Some x).
Proof. destruct r as [|j']; cbn; intros H E; [discriminate H|]. congruence. Qed.

Lemma Promise_all6_None {A B C D E F}
  (a : option A) (b : option B) (c : option C) (d : option D) (e : option E) (f : option F) :
  Promise_all6 a b c d e f = None ->
  a = None \/ b = None \/ c = None \/ d = None \/ e = None \/ f = None.
Proof. unfold Promise_all6. destruct a, b, c, d, e, f; intros H; try discriminate H; tauto. Qed.

Lemma fetch_None_failed {A} (r : fetched A) : fetch r = None -> failed r.
Proof. destruct r; cbn; intros H; [left; reflexivity | discriminate H]. Qed.

Lemma fetch_body_None_failed {A} (r : fetched A) : fetch r = Some None -> failed r.
Proof. destruct r as [|j]; cbn; intros H; [discriminate H|]. right. congruence. Qed.

Lemma loadRealDataset_cases (net : Network) (w : World) :
  let r := fst (loadRealDataset net w) in
  let w' := snd (loadRealDataset net w) in
  random w' = random w
  /\ match r with
     | None => load_fails net /\ w' = w
     | Some c =>
         ~ load_fails net /\ dataCache w' = c
         /\ campaigns_json net = Response (campaigns c)
         /\ performance_metrics_json net = Response (metrics c)
         /\ creative_assets_json net = Response (assets c)
         /\ sensor_data_json net = Response (sensors c)
         /\ model_performance_json net = Response (models c)
         /\ dataset_summary_json net = Response (summary c)
         /\ campaigns c <> None /\ metrics c <> None /\ assets c <> None
         /\ sensors c <> None /\ models c <> None /\ summary c <> None
     end.
Proof.
  cbv zeta. unfold loadRealDataset.
  destruct (Promise_all6 (fetch (campaigns_json net)) _ _ _ _ _)
    as [[[[[[cr mr] ar] sr] mo] su]|] eqn:E1.
  - pose proof (Promise_all6_Some _ _ _ _ _ _ _ _ _ _ _ _ E1) as (F1 & F2 & F3 & F4 & F5 & F6).
    destruct (Promise_all6 cr mr ar sr mo su) as [[[[[[cs ms] az] ss] md] sm]|] eqn:E2.
    + pose proof (Promise_all6_Some _ _ _ _ _ _ _ _ _ _ _ _ E2)
        as (G1 & G2 & G3 & G4 & G5 & G6).
      pose proof (fetch_Some_inv _ cs _ F1 G1) as R1.
      pose proof (fetch_Some_inv _ ms _ F2 G2) as R2.
      pose proof (fetch_Some_inv _ az _ F3 G3) as R3.
      pose proof (fetch_Some_inv _ ss _ F4 G4) as R4.
      pose proof (fetch_Some_inv _ md _ F5 G5) as R5.
      pose proof (fetch_Some_inv _ sm _ F6 G6) as R6.
      unfold bind, write_cache, ret. cbn [fst snd random dataCache campaigns metrics assets
        sensors models summary].
      split; [reflexivity|]. split.
      * unfold load_fails, failed. rewrite R1, R2, R3, R4, R5, R6.
        intros H. repeat (destruct H as [H|H]; try discriminate H).
      * repeat split; try assumption; discriminate.
    + unfold ret. cbn [fst snd]. split; [reflexivity|]. split; [|reflexivity].
      apply Promise_all6_None in E2. unfold load_fails.
      destruct E2 as [-> | [-> | [-> | [-> | [-> | ->]]]]].
      * left. apply fetch_body_None_failed, F1.
      * right. left. apply fetch_body_None_failed, F2.
      * right. right. left. apply fetch_body_None_failed, F3.
      * right. right. right. left. apply fetch_body_None_failed, F4.
      * right. right. right. right. left. apply fetch_body_None_failed, F5.
      * right. right. right. right. right. apply fetch_body_None_failed, F6.
  - unfold ret. cbn [fst snd]. split; [reflexivity|]. split; [|reflexivity].
    apply Promise_all6_None in E1. unfold load_fails.
    destruct E1 as [H|[H|[H|[H|[H|H]]]]].
    + left. apply fetch_None_failed, H.
    + right. left. apply fetch_None_failed, H.
    + right. right. left. apply fetch_None_failed, H.
    + right. right. right. left. apply fetch_None_failed, H.
    + right. right. right. right. left. apply fetch_None_failed, H.
    + right. right. right. right. right. apply fetch_None_failed, H.
Qed.

(** X14.  [load()] is all or nothing.  Either a resource failed: the result is
    [null] and the cache is what it was; or all six parsed: the result is the
    new cache, every entry of the cache is present and holds the body fetched
    for it, and whatever was cached before is gone.  No random number is
    drawn either way. *)
Theorem X14_load_all_or_nothing (net : Network) (w : World) :
  let r := fst (loadRealDataset net w) in
  let w' := snd (loadRealDataset net w) in
  random w' = random w
  /\ match r with
     | None => load_fails net /\ w' = w
     | Some c =>
         ~ load_fails net /\ dataCache w' = c
         /\ campaigns_json net = Response (campaigns c)
         /\ performance_metrics_json net = Response (metrics c)
         /\ creative_assets_json net = Response (assets c)
         /\ sensor_data_json net = Response (sensors c)
         /\ model_performance_json net = Response (models c)
         /\ dataset_summary_json net = Response (summary c)
         /\ campaigns c <> None /\ metrics c <> None /\ assets c <> None
         /\ sensors c <> None /\ models c <> None /\ summary c <> None
     end.
Proof. apply loadRealDataset_cases. Qed.

(** ** Random draws of [sensorStatus] *)

Lemma advanced_trans a b w w1 w2 :
  advanced a w w1 -> advanced b w1 w2 -> advanced (a + b) w w2.
Proof.
  intros [C1 R1] [C2 R2]. split; [congruence|].
  intros i. rewrite R2, R1. f_equal. lia.
Qed.

Lemma sensor_trend_advances w :
  exists k, (1 <= k <= 2)%nat /\ advanced k w (snd (sensor_trend w))
            /\ (fst (sensor_trend w) = "+" <-> k = 1%nat)
            /\ (k = 1%nat <-> ngt (Fin (random w 0%nat)) (Fin (1 # 2)) = true).
Proof.
  unfold sensor_trend, bind, ret, Math_random. cbv beta iota.
  destruct (ngt (Fin (random w 0%nat)) (Fin (1 # 2))) eqn:E.
  - exists 1%nat. cbn [fst snd]. repeat split; try lia; try reflexivity.
  - exists 2%nat. cbn [fst snd]. repeat split; try lia; try reflexivity;
      try (intros H; discriminate H).
Qed.

Lemma sensor_entry_advances s w :
  exists k, (1 <= k <= 2)%nat /\ advanced k w (snd (sensor_entry s w)).
Proof.
  unfold sensor_entry, bind, ret.
  destruct (sensor_trend_advances w) as (a & Ha & Hadv & _).
  destruct (sensor_trend w) as [t w1]. exists a. split; assumption.
Qed.

Lemma mapM_sensor_entry_advances l : forall w,
  exists k, (List.length l <= k <= 2 * List.length l)%nat
            /\ advanced k w (snd (mapM sensor_entry l w))
            /\ List.length (fst (mapM sensor_entry l w)) = List.length l.
Proof.
  induction l as [|s l IH]; intros w; cbn [mapM].
  - exists 0%nat. cbn. repeat split; try lia.
  - unfold bind, ret.
    destruct (sensor_entry_advances s w) as (a & Ha & Hadv).
    destruct (sensor_entry s w) as [y w1]. cbn [snd] in Hadv.
    destruct (IH w1) as (b & Hb & Hadv' & Hlen).
    destruct (mapM sensor_entry l w1) as [ys w2]. cbn [fst snd] in *.
    exists (a + b)%nat. split; [cbn [List.length]; lia|].
    split; [eapply advanced_trans; eassumption|].
    cbn [List.length]. rewrite Hlen. reflexivity.
Qed.

(** X15.  [sensorStatus()] draws at least one and at most two random numbers
    per entry it returns, in entry order, and does nothing else to the state:
    afterwards the cache is unchanged and the random stream has advanced by
    between [n] and [2n] draws for [n] entries. *)
Theorem X15_sensorStatus_draws {dates : DateParser} (w : World) :
  let r := fst (getSensorStatus w) in
  let w' := snd (getSensorStatus w) in
  exists k, (List.length r <= k <= 2 * List.length r)%nat /\ advanced k w w'.
Proof.
  cbv zeta. unfold getSensorStatus, bind, read_cache, ret. cbv beta iota zeta.
  destruct (sensors (dataCache w)) as [ss|].
  - destruct (mapM_sensor_entry_advances (latest_sensors ss) w) as (k & Hk & Hadv & Hlen).
    exists k. rewrite Hlen. split; assumption.
  - exists 0%nat. cbn. repeat split; lia.
Qed.

(** ** Display names *)

Lemma replace_all_absent c r s : count_char c s = 0%nat -> replace_all c r s = s.
Proof.
  induction s as [|a s IH]; cbn; [reflexivity|].
  destruct (Ascii.eqb a c); [discriminate|]. cbn. intros H. rewrite IH by exact H.
  reflexivity.
Qed.

Lemma replace_first_all c r s :
  (count_char c s <= 1)%nat -> replace_first c r s = replace_all c r s.
Proof.
  induction s as [|a s IH]; cbn; [reflexivity|].
  destruct (Ascii.eqb a c); cbn; intros H.
  - rewrite replace_all_absent by lia. reflexivity.
  - rewrite IH by exact H. reflexivity.
Qed.

(** X16.  For sensor types with at most one underscore the name of every
    [sensorStatus()] entry is the display name of the spec (every underscore a
    space, upper-cased), and the entry carries the value, status and timestamp
    of one cached reading of that type. *)
Theorem X16_sensor_names_with_one_underscore {dates : DateParser}
  (w : World) (ss : list SensorData) :
  sensors (dataCache w) = Some ss ->
  (forall s, In s ss -> (count_char "_" (sensor_type s) <= 1)%nat) ->
  forall e, In e (fst (getSensorStatus w)) ->
    exists s, In s ss /\ ss_name e = display_name (sensor_type s)
              /\ ss_value e = value s /\ ss_status e = s_status s
              /\ ss_timestamp e = timestamp s.
Proof.
  intros Hs Hu e He.
  pose proof (getSensorStatus_entries w ss Hs) as Hent.
  assert (Hin : In (ss_name e, ss_value e, ss_status e, ss_timestamp e)
                  (map (fun e => (ss_name e, ss_value e, ss_status e, ss_timestamp e))
                     (fst (getSensorStatus w)))).
  { apply in_map_iff. exists e. split; [reflexivity | exact He]. }
  rewrite Hent in Hin. apply in_map_iff in Hin. destruct Hin as (s & E & Hsin).
  injection E as E1 E2 E3 E4. apply latest_sensors_from_input in Hsin.
  exists s. split; [exact Hsin|]. unfold display_name.
  rewrite <- replace_first_all by (apply Hu, Hsin). repeat split; congruence.
Qed.

Lemma X16_sensor_names_with_one_underscore_witness :
  Forall (fun e => ss_name e = "API LATENCY" \/ ss_name e = "DATA FRESHNESS")
    (fst (getSensorStatus (dates := iso_dates) latency_world)).
Proof.
  apply Forall_forall. intros e He.
  destruct (X16_sensor_names_with_one_underscore (dates := iso_dates) latency_world _
              eq_refl
              ltac:(intros s [<-|[<-|[<-|[]]]]; vm_compute; repeat constructor) e He)
    as (s & Hs & Hn & _).
  rewrite Hn. destruct Hs as [<-|[<-|[<-|[]]]]; vm_compute; auto.
Defined.

(** ** The callers in [mockData.ts] *)

Lemma loadFullDataset_cases (loadedAt : string) (net : Network) (w : World) :
  (load_fails net /\ loadFullDataset loadedAt net w = (fallback_dataset loadedAt, w))
  \/ (~ load_fails net
      /\ exists c, loadFullDataset loadedAt net w
                   = (c, {| dataCache := c; random := random w |})
                   /\ campaigns c <> None /\ sensors c <> None /\ summary c <> None).
Proof.
  unfold loadFullDataset, bind.
  pose proof (loadRealDataset_cases net w) as H. cbv zeta in H.
  destruct (loadRealDataset net w) as [[c|] w']; cbn [fst snd] in H.
  - right. destruct H as (Hr & Hn & Hc & _ & _ & _ & _ & _ & _ & H1 & _ & _ & H4 & _ & H6).
    split; [exact Hn|]. exists c. split; [|repeat split; assumption].
    unfold ret. f_equal. destruct w' as [c' r']. cbn in Hr, Hc. subst. reflexivity.
  - left. destruct H as (_ & Hf & ->). split; [exact Hf | reflexivity].
Qed.

(** X17.  [loadFullDataset()] never yields [null]: its result always has
    campaigns, sensors and a summary.  When the load fails the result is the
    built-in fallback (one campaign, three sensors) and the cache is left as it
    was, so the fallback is handed to the caller but not cached; when it
    succeeds the result is the newly cached data. *)
Theorem X17_loadFullDataset_never_null (loadedAt : string) (net : Network) (w : World) :
  let r := fst (loadFullDataset loadedAt net w) in
  let w' := snd (loadFullDataset loadedAt net w) in
  campaigns r <> None /\ sensors r <> None /\ summary r <> None
  /\ (load_fails net -> r = fallback_dataset loadedAt /\ w' = w)
  /\ (~ load_fails net -> dataCache w' = r).
Proof.
  cbv zeta. destruct (loadFullDataset_cases loadedAt net w) as [[Hf E]|[Hn (c & E & H1 & H2 & H3)]];
    rewrite E; cbn [fst snd dataCache].
  - split; [discriminate|]. split; [discriminate|]. split; [discriminate|].
    split; [intros _; split; reflexivity | intros Hn; contradiction].
  - split; [exact H1|]. split; [exact H2|]. split; [exact H3|].
    split; [intros Hf; contradiction | intros _; reflexivity].
Qed.

Section CallerFacts.

Context {dates : DateParser}.

Lemma getSensorStatus_length w :
  List.length (fst (getSensorStatus w))
  = List.length (latest_sensors (or_empty (sensors (dataCache w)))).
Proof.
  unfold getSensorStatus, bind, read_cache, ret. cbv beta iota zeta.
  destruct (sensors (dataCache w)) as [ss|]; [|reflexivity]. cbn [or_empty].
  destruct (mapM_sensor_entry_advances (latest_sensors ss) w) as (_ & _ & _ & H). exact H.
Qed.

Lemma getSensorStatus_nil_iff w :
  fst (getSensorStatus w) = [] <-> own_readings (or_empty (sensors (dataCache w))) = [].
Proof.
  rewrite <- (latest_sensors_nil_iff (or_empty (sensors (dataCache w)))).
  split; intros H; apply length_zero_iff_nil.
  - rewrite <- getSensorStatus_length, H. reflexivity.
  - rewrite getSensorStatus_length, H. reflexivity.
Qed.

Lemma getSensorMetrics_cases w :
  let r := fst (getSensorMetrics w) in
  sm_alerts r = default_alerts
  /\ match own_readings (or_empty (sensors (dataCache w))) with
     | [] => sm_sensors r = default_sensors
     | _ :: _ =>
         sm_sensors r = map sensor_metric_of (fst (getSensorStatus w))
         /\ sm_sensors r <> []
     end.
Proof.
  cbv zeta. unfold getSensorMetrics, bind, ret.
  pose proof (getSensorStatus_nil_iff w) as Hnil.
  destruct (getSensorStatus w) as [st w1]. cbn [fst sm_alerts sm_sensors] in *.
  split; [reflexivity|].
  destruct (own_readings (or_empty (sensors (dataCache w)))) as [|x l].
  - rewrite (proj2 Hnil eq_refl). reflexivity.
  - destruct st as [|e st]; [exfalso; pose proof (proj1 Hnil eq_refl) as H; discriminate H|].
    cbn. split; [reflexivity | discriminate].
Qed.

End CallerFacts.

(** X18.  [getSensorMetrics()] never returns an empty sensor list, and its
    two alerts are fixed.  When a sensor reading is cached whose type is not
    named like a property of [Object.prototype], the sensors are the entries
    of [sensorStatus()]; otherwise (no reading, or only readings of such
    types, which [sensorStatus()] does not list) they are the five built-in
    placeholders. *)
Theorem X18_getSensorMetrics_sensors {dates : DateParser} (w : World) :
  let r := fst (getSensorMetrics w) in
  let listed := own_readings (or_empty (sensors (dataCache w))) in
  sm_sensors r <> []
  /\ sm_alerts r = default_alerts
  /\ (listed = [] -> sm_sensors r = default_sensors)
  /\ (listed <> [] -> sm_sensors r = map sensor_metric_of (fst (getSensorStatus w)))
  /\ dataCache (snd (getSensorMetrics w)) = dataCache w.
Proof.
  cbv zeta. destruct (getSensorMetrics_cases w) as [Ha Hs].
  split; [|split; [exact Ha|split; [|split]]].
  - destruct (own_readings (or_empty (sensors (dataCache w))));
      [rewrite Hs; discriminate | tauto].
  - intros E. rewrite E in Hs. exact Hs.
  - intros Hne. destruct (own_readings (or_empty (sensors (dataCache w))));
      [contradiction | tauto].
  - unfold getSensorMetrics, bind, ret. pose proof (getSensorStatus_cache w) as Hc.
    destruct (getSensorStatus w) as [st w1]. exact Hc.
Qed.

(** X19.  When the load fails, [fetchData] of the dashboard shows what the
    cache held before: the views are those of the old cache, not of the
    fallback dataset.  On a fresh session this means zero campaigns and
    records, a pipeline health of 100 and the five placeholder sensors, although
    the fallback dataset has one campaign and three sensors. *)
Theorem X19_fetchData_after_failed_load {dates : DateParser}
  (loadedAt : string) (net : Network) (now : Z) (w : World) :
  load_fails net ->
  fetchData loadedAt net now w
  = (d <- getDashboardMetrics now ;; s <- getSensorMetrics ;; ret (d, s)) w
  /\ (dataCache w = empty_cache ->
      let v := fst (fetchData loadedAt net now w) in
      totalCampaigns (fst v) = 0%nat /\ totalRecords (fst v) = 0%nat
      /\ pipelineHealth (fst v) = of_Z 100
      /\ sm_sensors (snd v) = default_sensors).
Proof.
  intros Hf.
  assert (E : fetchData loadedAt net now w
              = (d <- getDashboardMetrics now ;; s <- getSensorMetrics ;; ret (d, s)) w).
  { unfold fetchData. unfold bind at 1.
    destruct (loadFullDataset_cases loadedAt net w) as [[_ ->]|[Hn _]];
      [reflexivity | contradiction]. }
  split; [exact E|]. intros Hc. rewrite E. cbv zeta.
  destruct w as [c r]. cbn [dataCache] in Hc. subst c.
  unfold bind, ret, getDashboardMetrics.
  pose proof (getDashboardSummary_fields now {| dataCache := empty_cache; random := r |})
    as (H1 & _ & _ & _ & H5).
  pose proof (getDashboardSummary_pipelineHealth {| dataCache := empty_cache; random := r |}
                now) as Hp.
  pose proof (getDashboardSummary_cache now {| dataCache := empty_cache; random := r |})
    as Hcache.
  destruct (getDashboardSummary now {| dataCache := empty_cache; random := r |}) as [d w1].
  cbn [fst snd dataCache] in *.
  destruct (getSensorMetrics_cases w1) as [_ Hs]. rewrite Hcache in Hs. cbn in Hs.
  destruct (getSensorMetrics w1) as [sm w2]. cbn [fst snd] in *.
  rewrite H1, H5, Hp. repeat split; assumption.
Qed.

Lemma X19_fetchData_after_failed_load_witness :
  totalCampaigns (fst (fst (fetchData (dates := iso_dates) "2026-11-02T00:00:00.000Z"
                              broken_network demo_now unloaded_world))) = 0%nat
  /\ sm_sensors (snd (fst (fetchData (dates := iso_dates) "2026-11-02T00:00:00.000Z"
                             broken_network demo_now unloaded_world))) = default_sensors.
Proof.
  destruct (X19_fetchData_after_failed_load (dates := iso_dates) "2026-11-02T00:00:00.000Z"
              broken_network demo_now unloaded_world
              ltac:(right; left; left; reflexivity)) as [_ H].
  destruct (H eq_refl) as (H1 & _ & _ & H4). split; assumption.
Defined.

(** ** The change shown on a [Metric] card *)

Section ChangeFacts.

Import Binary64 Binary64Facts.
Local Open Scope Q_scope.

Lemma quotient_sign (d p : Q) :
  ~ p == 0 -> 0 < d / p -> (0 < p -> 0 < d) /\ (p < 0 -> d < 0).
Proof.
  intros Hp Hq. assert (E : d == d / p * p) by (field; exact Hp).
  split; intros H; rewrite E.
  - apply Qmult_lt_0_compat; assumption.
  - assert (H' : 0 < d / p * - p) by (apply Qmult_lt_0_compat; lra). lra.
Qed.

Lemma ngt_zero_sign a : ngt a (Fin 0) = true -> nsign a = Gt.
Proof.
  destruct a as [x| | |]; cbn; try discriminate; [|reflexivity].
  intros H. apply negb_true_iff in H. apply Qgt_alt. apply Qnot_le_lt.
  intros Hle. apply Qle_bool_iff in Hle. congruence.
Qed.

(** A positive product with 100 has a positive factor. *)
Lemma nmul_100_sign a : nsign (nmul a (of_Z 100)) = Gt -> nsign a = Gt.
Proof.
  destruct a as [x| | |]; cbn [nmul of_Z nsign sign_mul signed_inf];
    try discriminate; [|reflexivity].
  intros H. apply rounded_positive in H. apply Qgt_alt.
  destruct (Qlt_le_dec 0 x) as [|Hle]; [assumption|]. exfalso.
  assert (x * inject_Z 100 <= 0).
  { rewrite Qmult_comm. change 0 with (inject_Z 100 * 0).
    apply Qmult_le_l; [reflexivity | exact Hle]. }
  lra.
Qed.

(** A positive quotient by a non-zero [p] has a dividend of the sign of [p]. *)
Lemma ndiv_sign a p :
  ~ p == 0 -> nsign (ndiv a (Fin p)) = Gt ->
  (0 < p -> nsign a = Gt) /\ (p < 0 -> nsign a = Lt).
Proof.
  intros Hp.
  assert (Eb : Qeq_bool p 0 = false).
  { destruct (Qeq_bool p 0) eqn:E; [|reflexivity]. apply Qeq_bool_iff in E. contradiction. }
  destruct a as [x| | |]; cbn [ndiv nsign]; rewrite ?Eb.
  - intros H. apply rounded_positive in H.
    destruct (quotient_sign x p Hp H) as [H1 H2].
    split; intros Hs; [apply Qgt_alt, H1, Hs | apply Qlt_alt, H2, Hs].
  - destruct (p ?= 0) eqn:C; cbn; try discriminate.
    intros _. split; [reflexivity|]. intros Hs.
    apply (proj1 (Qlt_alt _ _)) in Hs. rewrite C in Hs. discriminate Hs.
  - destruct (p ?= 0) eqn:C; cbn; try discriminate.
    intros _. split; [|reflexivity]. intros Hs.
    apply (proj1 (Qgt_alt _ _)) in Hs. rewrite C in Hs. discriminate Hs.
  - discriminate.
Qed.

(** The quotient of a dividend within 1e9 by a divisor of at least 1e-9 in
    magnitude is within 1e18. *)
Lemma quotient_bound (d p : Q) :
  Qabs d <= 1000000000 -> (1 # 1000000000) <= Qabs p ->
  Qabs (d / p) <= 1000000000000000000.
Proof.
  intros Hd Hp. unfold Qdiv. rewrite Qabs_Qmult, Qabs_Qinv.
  assert (Hpp : 0 < Qabs p) by (eapply Qlt_le_trans; [|exact Hp]; reflexivity).
  assert (Hinv : / Qabs p <= 1000000000).
  { apply Qle_shift_inv_r; [exact Hpp|].
    apply Qle_trans with (1000000000 * (1 # 1000000000)); [vm_compute; discriminate|].
    apply Qmult_le_l; [reflexivity | exact Hp]. }
  assert (H0 : 0 <= / Qabs p) by (apply Qlt_le_weak, Qinv_lt_0_compat, Hpp).
  pose proof (Qabs_nonneg d) as Hd0.
  apply Qle_trans with (1000000000 * 1000000000).
  - apply Qmult_le_compat_nonneg; split; assumption.
  - vm_compute. discriminate.
Qed.

(** With such operands the percentage is finite and below 1e21. *)
Lemma change_bound (v p : Q) :
  ~ p == 0 ->
  Qabs (v - p) <= 1000000000 -> (1 # 1000000000) <= Qabs p ->
  exists c, nmul (ndiv (nsub (Fin v) (Fin p)) (Fin p)) (of_Z 100) = Fin c
            /\ Qabs c <= 100000000000000000000.
Proof.
  intros Hp Hd Hlow.
  assert (Eb : Qeq_bool p 0 = false).
  { destruct (Qeq_bool p 0) eqn:E; [|reflexivity]. apply Qeq_bool_iff in E. contradiction. }
  assert (R9 : round64 1000000000 == 1000000000) by (vm_compute; reflexivity).
  assert (R18 : round64 1000000000000000000 == 1000000000000000000)
    by (vm_compute; reflexivity).
  assert (R20 : round64 100000000000000000000 == 100000000000000000000)
    by (vm_compute; reflexivity).
  assert (P9 : 1000000000 < pow2 1024) by (vm_compute; reflexivity).
  assert (P18 : 1000000000000000000 < pow2 1024) by (vm_compute; reflexivity).
  assert (P20 : 100000000000000000000 < pow2 1024) by (vm_compute; reflexivity).
  unfold nsub, nneg, nadd.
  rewrite (rounded_finite (v + - p) _ Hd R9 P9).
  pose proof (Qabs_round64_le (v + - p) _ Hd R9) as Hd'.
  set (d := round64 (v + - p)) in *. unfold ndiv. rewrite Eb.
  pose proof (quotient_bound d p Hd' Hlow) as Hq.
  rewrite (rounded_finite (d / p) _ Hq R18 P18).
  pose proof (Qabs_round64_le (d / p) _ Hq R18) as Hq'.
  set (q := round64 (d / p)) in *. unfold nmul, of_Z.
  assert (Hc : Qabs (q * inject_Z 100) <= 100000000000000000000).
  { rewrite Qabs_Qmult.
    apply Qle_trans with (1000000000000000000 * inject_Z 100); [|vm_compute; discriminate].
    apply Qmult_le_compat_nonneg; split; try apply Qabs_nonneg; [exact Hq'|].
    vm_compute. discriminate. }
  rewrite (rounded_finite (q * inject_Z 100) _ Hc R20 P20).
  eexists. split; [reflexivity|]. apply Qabs_round64_le; assumption.
Qed.

End ChangeFacts.

(** X20.  [calculateChange] of the [Metric] card never divides by zero: with
    the previous value omitted, zero or [NaN] it returns [null].  With finite
    values and a non-zero previous value it returns a change, whose
    [isPositive] holds only if the value rose above a positive previous value
    or fell below a negative one (against a negative previous value a rise is
    shown as a fall).  When the difference is within 1e9 and the previous
    value at least 1e-9 in magnitude, the magnitude of the change is printed
    as an unsigned number with one decimal; from 1e21 on [toFixed] switches to
    the exponent notation. *)
Theorem X20_calculateChange_sign_and_format (v p : Q) :
  ~ (p == 0)%Q ->
  calculateChange (Fin v) None = None
  /\ calculateChange (Fin v) (Some (Fin 0)) = None
  /\ calculateChange (Fin v) (Some NaN) = None
  /\ exists c,
       calculateChange (Fin v) (Some (Fin p)) = Some c
       /\ (isPositive c = true -> ((0 < p)%Q -> (p < v)%Q) /\ ((p < 0)%Q -> (v < p)%Q))
       /\ ((Qabs (v - p) <= 1000000000)%Q -> ((1 # 1000000000) <= Qabs p)%Q ->
           exists ip d, ch_value c = string_of_list_ascii (ip ++ ["."%char; d])
                        /\ ip <> [] /\ forallb is_digit ip = true /\ is_digit d = true).
Proof.
  intros Hp. split; [reflexivity|]. split; [reflexivity|]. split; [reflexivity|].
  unfold calculateChange, truthy.
  assert (Eb : Qeq_bool p 0 = false).
  { destruct (Qeq_bool p 0) eqn:E; [|reflexivity]. apply Qeq_bool_iff in E. contradiction. }
  rewrite Eb. cbn [negb].
  set (change := nmul (ndiv (nsub (Fin v) (Fin p)) (Fin p)) (of_Z 100)).
  eexists. split; [reflexivity|]. cbn [ch_value isPositive]. split.
  - intros Hpos. apply ngt_zero_sign in Hpos. unfold change in Hpos.
    apply nmul_100_sign in Hpos. destruct (ndiv_sign _ p Hp Hpos) as [H1 H2].
    unfold nsub, nneg, nadd in H1, H2. split; intros H.
    + specialize (H1 H). apply rounded_positive in H1. lra.
    + specialize (H2 H). apply rounded_negative in H2. lra.
  - intros Hd Hlow. destruct (change_bound v p Hp Hd Hlow) as (c & Ec & Hc).
    fold change in Ec. rewrite Ec. cbn [Math_abs].
    apply toFixed_1_format; [apply Qabs_nonneg|].
    eapply Qle_lt_trans; [exact Hc | vm_compute; reflexivity].
Qed.

Lemma X20_calculateChange_sign_and_format_witness :
  exists c,
    calculateChange (of_Z 120) (Some (of_Z 100)) = Some c
    /\ ch_value c = "20.0" /\ isPositive c = true
    /\ exists ip d, ch_value c = string_of_list_ascii (ip ++ ["."%char; d])
                    /\ ip <> [] /\ forallb is_digit ip = true /\ is_digit d = true.
Proof.
  destruct (X20_calculateChange_sign_and_format 120 100 ltac:(discriminate))
    as (_ & _ & _ & c & E & _ & Hfmt).
  exists c. split; [exact E|].
  split; [|split].
  - vm_compute in E. injection E as <-. reflexivity.
  - vm_compute in E. injection E as <-. reflexivity.
  - apply Hfmt; vm_compute; discriminate.
Defined.

(** ** The retraining trigger *)

(** X21.  One request to the retraining trigger answers 200 or 400, always
    with the CORS headers.  Any method but [OPTIONS] tries to insert a
    [pending] job; the answer is 200, carrying the job id, exactly when the
    insert and the webhook both succeed.  A job inserted before the webhook
    failed stays in the table as [pending] although the answer is 400, earlier
    jobs are never touched, and the webhook is called at most once and only
    for a job that was inserted. *)
Theorem X21_retrain_trigger_outcomes (method startedAt : string)
  (ins : InsertOutcome) (hook : WebhookOutcome) (b : Backend) :
  let r := fst (serve method startedAt ins hook b) in
  let b' := snd (serve method startedAt ins hook b) in
  (resp_status r = 200 \/ resp_status r = 400)
  /\ obj_get "Access-Control-Allow-Origin" (resp_headers r) = Some "*"
  /\ (method = "OPTIONS" -> b' = b /\ resp_body r = BodyText "ok")
  /\ (method <> "OPTIONS" ->
      (resp_status r = 200 <->
         exists id, ins = Inserted id /\ hook = WebhookResponded true
                    /\ resp_body r = BodyJobId id)
      /\ match ins with
         | InsertError _ => b' = b /\ resp_status r = 400
         | Inserted id =>
             retraining_jobs b'
             = (retraining_jobs b
                ++ [{| job_id := id; job_status := "pending";
                       job_started_at := startedAt |}])%list
             /\ webhook_calls b' = (webhook_calls b ++ [id])%list
         end).
Proof.
  cbv zeta. unfold serve.
  destruct (String.eqb_spec method "OPTIONS") as [->|Hne].
  - cbn [fst snd resp_status resp_headers resp_body].
    split; [left; reflexivity|]. split; [reflexivity|].
    split; [intros _; split; reflexivity | intros Hne; contradiction].
  - split.
    + destruct ins as [msg|id]; [right; reflexivity|].
      destruct hook as [msg|[|]]; cbn; auto.
    + split.
      { destruct ins as [msg|id]; [reflexivity|]. destruct hook as [msg|[|]]; reflexivity. }
      split; [intros E; contradiction|]. intros _. split.
      * destruct ins as [msg|id]; cbn.
        { split; [intros H; discriminate H | intros (id & H & _); discriminate H]. }
        destruct hook as [msg|[|]]; cbn.
        { split; [intros H; discriminate H | intros (i & _ & H & _); discriminate H]. }
        { split; [intros _; exists id; repeat split | reflexivity]. }
        { split; [intros H; discriminate H | intros (i & _ & H & _); discriminate H]. }
      * destruct ins as [msg|id]; [split; reflexivity|].
        destruct hook as [msg|[|]]; split; reflexivity.
Qed.

(** ** Sensor entries and the cache, once more *)

(** X22.  With valid timestamps [sensorStatus()] has exactly one entry per
    distinct sensor type that is not named like a property of
    [Object.prototype] (a type named so has no entry), carrying the value,
    status and timestamp of that type's reading with the maximum timestamp
    (the first of them on a tie); its name is the type with its first
    underscore turned into a space, upper-cased. *)
Theorem X22_sensorStatus_latest_reading_per_type {dates : DateParser}
  (w : World) (ss : list SensorData) :
  sensors (dataCache w) = Some ss ->
  valid_timestamps ss ->
  exists kept,
    NoDup (map sensor_type kept)
    /\ (forall t, In t (map sensor_type kept)
                  <-> In t (map sensor_type ss) /\ inherited t = false)
    /\ (forall s, In s kept -> latest_reading (sensor_type s) ss = Some s)
    /\ map (fun e => (ss_name e, ss_value e, ss_status e, ss_timestamp e))
         (fst (getSensorStatus w))
       = map (fun s => (toUpperCase (replace_first "_" " " (sensor_type s)),
                        value s, s_status s, timestamp s)) kept.
Proof.
  intros Hs Hv. exists (latest_sensors ss).
  destruct (latest_sensors_spec ss) as (H1 & H2 & H3).
  split; [exact H1|]. split; [exact H2|]. split.
  - apply H3. intros s Hin. apply Hv. apply own_readings_In in Hin. tauto.
  - apply getSensorStatus_entries, Hs.
Qed.

Lemma X22_sensorStatus_latest_reading_per_type_witness :
  exists kept,
    NoDup (map sensor_type kept)
    /\ List.length kept = 2%nat
    /\ map (fun e => (ss_name e, ss_value e, ss_status e, ss_timestamp e))
         (fst (getSensorStatus (dates := iso_dates) latency_world))
       = map (fun s => (toUpperCase (replace_first "_" " " (sensor_type s)),
                        value s, s_status s, timestamp s)) kept.
Proof.
  destruct (X22_sensorStatus_latest_reading_per_type (dates := iso_dates) latency_world _
              eq_refl
              ltac:(intros s [<-|[<-|[<-|[]]]]; vm_compute; discriminate))
    as (kept & Hnd & _ & _ & E).
  exists kept. split; [exact Hnd|]. split; [|exact E].
  apply (f_equal (@List.length _)) in E. rewrite !length_map in E. rewrite <- E.
  vm_compute. reflexivity.
Defined.

(** X23.  Every query but [latestCampaigns] leaves each cached collection
    exactly as it was: [campaignMetrics], [activeCampaigns], [brandPerformance],
    [sensorStatus], [modelPerformance], [performanceTrends] and
    [dashboardSummary] work on copies. *)
Theorem X23_read_only_queries {dates : DateParser} (w : World) (now : Z) :
  (forall id, dataCache (snd (getCampaignMetrics id w)) = dataCache w)
  /\ dataCache (snd (getActiveCampaigns now w)) = dataCache w
  /\ dataCache (snd (getBrandPerformance w)) = dataCache w
  /\ dataCache (snd (getSensorStatus w)) = dataCache w
  /\ dataCache (snd (getModelPerformance w)) = dataCache w
  /\ (forall days, dataCache (snd (getPerformanceTrends days now w)) = dataCache w)
  /\ dataCache (snd (getDashboardSummary now w)) = dataCache w.
Proof.
  repeat split; intros;
    auto using getCampaignMetrics_cache, getActiveCampaigns_cache, getBrandPerformance_cache,
      getSensorStatus_cache, getModelPerformance_cache, getPerformanceTrends_cache,
      getDashboardSummary_cache.
Qed.
